(** * tools-build-api: the schema-to-type translator, embedded in Rocq

    A shallow embedding of the OpenAPI translator of the repository
    ([src/build-api/utils.ts], [src/build-api/tag-validator.ts],
    [src/build-api/parse-schemas.ts], the request-response-type module and
    the bundled [dist/build-api/index.mjs], which also holds the Swagger 2
    translator [ParseSchemasV2] and the generator), followed by the
    properties of the specification stated and settled over it, and by
    further properties of the code.

    Conventions of the embedding.
    - A JavaScript string is a [string]. [JS.toUpperCase] and the
      comparison of a literal under the [i] flag fold the letters [a-z],
      which is what the engine does on ASCII text; the tag filter, whose
      subject is the comparison of tags, is written over any folding
      function and instantiated at this one by the translators.
    - A JavaScript object used as a map is a [gmap] of its own properties,
      an association list in enumeration order when it is iterated by
      [for ... in]. Where the sources read such an object at a key that
      comes from the document ([schemas[name]], [refs[typeName]],
      [tags[tag]], [type in refs]) the lookup also finds the members
      inherited from [Object.prototype] ([JS.inherited]).
    - A class instance is a [State] record threaded through a state and
      error monad [M]; a thrown [TypeError] or [SyntaxError] is the failure
      of that name.
    - [pascalCase] comes from the npm package change-case: every definition
      that calls it takes it as a parameter. So does the translator of
      OpenAPI 3 with the regular expression it builds from the tag of an
      operation, whose matching belongs to the engine ([regExpReplace]). *)

From Stdlib Require Import ZArith Ascii String List Bool Lia.
From stdpp Require Import gmap strings list fin_maps.

Local Open Scope string_scope.
Local Open Scope list_scope.
Local Open Scope stdpp_scope.

Set Warnings "-register-all".

(** ** JavaScript built-ins used by the sources *)

Module JS.

(** Truthiness of a string: every string but the empty one. *)
Definition truthy (s : string) : bool :=
  match s with
  | EmptyString => false
  | String _ _ => true
  end.

(** Truthiness of an optional string property ([undefined] is falsy). *)
Definition truthyOpt (o : option string) : bool :=
  match o with
  | Some s => truthy s
  | None => false
  end.

(** [a || b] on strings. *)
Definition or (a b : string) : string := if truthy a then a else b.

(** [o || b] where [o] is an optional string property. *)
Definition orOpt (o : option string) (b : string) : string :=
  match o with
  | Some s => or s b
  | None => b
  end.

(** [a && b] on strings. *)
Definition and (a b : string) : string := if truthy a then b else a.

Definition isLower (c : ascii) : bool :=
  (97 <=? nat_of_ascii c)%nat && (nat_of_ascii c <=? 122)%nat.

Definition isUpper (c : ascii) : bool :=
  (65 <=? nat_of_ascii c)%nat && (nat_of_ascii c <=? 90)%nat.

Definition isDigit (c : ascii) : bool :=
  (48 <=? nat_of_ascii c)%nat && (nat_of_ascii c <=? 57)%nat.

Definition toUpperCaseChar (c : ascii) : ascii :=
  if isLower c then ascii_of_nat (nat_of_ascii c - 32) else c.

Definition toLowerCaseChar (c : ascii) : ascii :=
  if isUpper c then ascii_of_nat (nat_of_ascii c + 32) else c.

Fixpoint mapChars (f : ascii -> ascii) (s : string) : string :=
  match s with
  | EmptyString => EmptyString
  | String c r => String (f c) (mapChars f r)
  end.

(** [String.prototype.toUpperCase] and [toLowerCase]. *)
Definition toUpperCase : string -> string := mapChars toUpperCaseChar.
Definition toLowerCase : string -> string := mapChars toLowerCaseChar.

(** [Array.prototype.indexOf] on an array of strings: the first index
    holding [x], or [-1]. *)
Fixpoint indexOf (l : list string) (x : string) : Z :=
  match l with
  | [] => -1
  | y :: r =>
      if String.eqb y x then 0
      else let i := indexOf r x in if (i <? 0)%Z then -1 else (i + 1)%Z
  end.

(** [String.prototype.split] with a one-character separator; the result
    is never empty. *)
Fixpoint split (sep : ascii) (s : string) : list string :=
  match s with
  | EmptyString => [EmptyString]
  | String c r =>
      if Ascii.eqb c sep then EmptyString :: split sep r
      else match split sep r with
           | w :: ws => String c w :: ws
           | [] => [String c EmptyString]
           end
  end.

(** [Array.prototype.pop] read for its result, on an array of strings
    known to be non-empty. *)
Definition pop (l : list string) : string := List.last l EmptyString.

(** [Array.prototype.join]. *)
Definition join (sep : string) (l : list string) : string :=
  String.concat sep l.

(** [s.replace(/\n/g, ' ')]. *)
Definition replaceNewlines : string -> string :=
  mapChars (fun c => if Ascii.eqb c "010"%char then " "%char else c).

(** [s.replace(/\n$/, '')]: without the [m] flag [$] is the end of the
    input, so one final line feed is dropped. *)
Fixpoint dropFinalNewline (s : string) : string :=
  match s with
  | EmptyString => EmptyString
  | String c r =>
      match r with
      | EmptyString => if Ascii.eqb c "010"%char then EmptyString else s
      | String _ _ => String c (dropFinalNewline r)
      end
  end.

(** Does [c] occur in [s]? *)
Fixpoint occurs (c : ascii) (s : string) : bool :=
  match s with
  | EmptyString => false
  | String d r => Ascii.eqb d c || occurs c r
  end.

(** [/[|&]/.test(s)]. *)
Definition testPipeOrAmp (s : string) : bool :=
  occurs "|"%char s || occurs "&"%char s.

(** Case-insensitive literal prefix: [Some rest] when [s] starts with
    [p] up to the case of letters (how a literal is matched under the
    [i] flag at a fixed position). *)
Fixpoint stripPrefixCI (p s : string) : option string :=
  match p with
  | EmptyString => Some s
  | String a p' =>
      match s with
      | EmptyString => None
      | String b s' =>
          if Ascii.eqb (toUpperCaseChar a) (toUpperCaseChar b)
          then stripPrefixCI p' s' else None
      end
  end.

(** Case-sensitive literal prefix. *)
Fixpoint stripPrefix (p s : string) : option string :=
  match p with
  | EmptyString => Some s
  | String a p' =>
      match s with
      | EmptyString => None
      | String b s' => if Ascii.eqb a b then stripPrefix p' s' else None
      end
  end.

Definition startsWith (p s : string) : bool :=
  match stripPrefix p s with Some _ => true | None => false end.

(** Characters with a meaning of their own in a regular-expression
    pattern. *)
Definition isRegExpSyntaxChar (c : ascii) : bool :=
  occurs c "\^$.|?*+()[]{}".

Definition isAscii (c : ascii) : bool := (nat_of_ascii c <? 128)%nat.

(** A text that, read as a pattern, matches itself, and under the [i]
    flag itself up to the case of the letters [a-z]: ASCII characters
    without a meaning in the pattern syntax. *)
Fixpoint isLiteralPattern (s : string) : bool :=
  match s with
  | EmptyString => true
  | String c r =>
      isAscii c && negb (isRegExpSyntaxChar c) && isLiteralPattern r
  end.

(** The properties that an object written as [{}], or read from JSON
    or YAML, inherits from [Object.prototype]. *)
Definition objectPrototypeKeys : list string :=
  ["constructor"; "__defineGetter__"; "__defineSetter__"; "hasOwnProperty";
   "__lookupGetter__"; "__lookupSetter__"; "isPrototypeOf";
   "propertyIsEnumerable"; "toString"; "valueOf"; "__proto__";
   "toLocaleString"].

(** [key in {}]. The value [({})[key]] of such a member is a function,
    or the prototype itself for [__proto__]: it is truthy. *)
Definition inherited (key : string) : bool :=
  existsb (String.eqb key) objectPrototypeKeys.

(** [s.endsWith(suffix)]: some tail of [s] is [suffix]. *)
Fixpoint endsWith (suffix s : string) : bool :=
  String.eqb suffix s ||
  match s with
  | EmptyString => false
  | String _ r => endsWith suffix r
  end.

(** [\s] on ASCII input: tab, line feed, vertical tab, form feed,
    carriage return and space. *)
Definition isSpace (c : ascii) : bool :=
  ((9 <=? nat_of_ascii c)%nat && (nat_of_ascii c <=? 13)%nat)
  || (nat_of_ascii c =? 32)%nat.

(** What [\s*] leaves of [s]. It gives nothing back: where the
    sources use it, the character that follows is not a space. *)
Fixpoint skipSpaces (s : string) : string :=
  match s with
  | EmptyString => EmptyString
  | String c r => if isSpace c then skipSpaces r else s
  end.

(** [\s*&\s*\{] at the head of [s]. *)
Definition ampOpenAhead (s : string) : bool :=
  match skipSpaces s with
  | String c r =>
      Ascii.eqb c "&"%char &&
      match skipSpaces r with
      | String d _ => Ascii.eqb d "{"%char
      | EmptyString => false
      end
  | EmptyString => false
  end.

(** [/}\s*&\s*\{/.test(s)]. *)
Fixpoint testCloseAmpOpen (s : string) : bool :=
  match s with
  | EmptyString => false
  | String c r =>
      (Ascii.eqb c "}"%char && ampOpenAhead r) || testCloseAmpOpen r
  end.

End JS.

(** ** [src/build-api/utils.ts] *)

Module Utils.

(** The keys of the object [HttpMethods]. *)
Definition HttpMethods : list string := ["GET"; "PUT"; "POST"; "DELETE"].

(** [key in HttpMethods]: an own property of the object, or one it
    inherits. *)
Definition inHttpMethods (key : string) : bool :=
  existsb (String.eqb key) HttpMethods || JS.inherited key.

(** [[a-zA-Z$_]] *)
Definition isIdentStart (c : ascii) : bool :=
  JS.isLower c || JS.isUpper c || Ascii.eqb c "$"%char || Ascii.eqb c "_"%char.

(** [\w], that is [[A-Za-z0-9_]] *)
Definition isWordChar (c : ascii) : bool :=
  JS.isLower c || JS.isUpper c || JS.isDigit c || Ascii.eqb c "_"%char.

Fixpoint allChars (p : ascii -> bool) (s : string) : bool :=
  match s with
  | EmptyString => true
  | String c r => p c && allChars p r
  end.

(** [/^[a-zA-Z$_](\w|_$)+$/.test(key)]: one character of the first
    class, then one or more iterations of the group up to the end of the
    input. Each iteration consumes exactly one character, a word
    character or an underscore that ends the input; the underscore is a
    word character itself, so the group is [\w] and the tail is a
    non-empty run of word characters. *)
Definition safeKeyPattern (key : string) : bool :=
  match key with
  | EmptyString => false
  | String c rest => isIdentStart c && JS.truthy rest && allChars isWordChar rest
  end.

Definition toSafePropKey (key : string) : string :=
  if safeKeyPattern key then key else "'" +:+ key +:+ "'".

Definition joinComment (comment : option string) : string :=
  match comment with
  | Some c => if JS.truthy c then " // " +:+ JS.replaceNewlines c else ""
  | None => ""
  end.

End Utils.

(** ** The request-response-type module: [jsonToType] *)

(** A live JavaScript value as [jsonToType] can receive it. A number is
    kept as an integer: the code reads only its truthiness and [typeof]. *)
Inductive Json : Type :=
| JNull
| JUndefined
| JBool (b : bool)
| JNumber (n : Z)
| JString (s : string)
| JArray (elems : list Json)
| JObject (members : list (string * Json)).

Module RequestResponseType.

(** [typeof data] for a primitive that is neither [null] nor [undefined]. *)
Definition typeofPrimitive (d : Json) : string :=
  match d with
  | JBool _ => "boolean"
  | JNumber _ => "number"
  | JString _ => "string"
  | JUndefined => "undefined"
  | JNull | JArray _ | JObject _ => "object"
  end.

(** The condition [if (data)]. *)
Definition truthy (d : Json) : bool :=
  match d with
  | JNull | JUndefined => false
  | JBool b => b
  | JNumber n => negb (n =? 0)%Z
  | JString s => JS.truthy s
  | JArray _ | JObject _ => true
  end.

(** [data[0]] of an array. *)
Definition first (l : list Json) : Json :=
  match l with
  | [] => JUndefined
  | x :: _ => x
  end.

Fixpoint jsonToType (data : Json) : string :=
  if truthy data then
    match data with
    | JArray elems =>
        match elems with
        | [] => "any" +:+ "[]"          (* jsonToType(undefined) + '[]' *)
        | x :: _ => jsonToType x +:+ "[]"
        end
    | JObject members =>
        match members with
        | [] => "{[P:string]: any}"
        | _ :: _ =>
            "{" +:+
            (fix fields (kv : list (string * Json)) : string :=
               match kv with
               | [] => ""
               | (key, v) :: r =>
                   Utils.toSafePropKey key +:+ ": " +:+ jsonToType v +:+ ";"
                   +:+ fields r
               end) members
            +:+ "}"
        end
    | _ => typeofPrimitive data
    end
  else "any".

End RequestResponseType.

(** ** The document (openapi-types, as far as the translators read it) *)

(** The [type] property of a schema node: absent, one name, or an array
    of names. *)
Inductive SchemaType : Type :=
| TypeAbsent
| TypeName (t : string)
| TypeNames (ts : list string).

(** The [items] property: absent, one node, or an array of nodes. *)
Inductive ItemsOf (A : Type) : Type :=
| ItemsAbsent
| ItemsOne (item : A)
| ItemsMany (items : list A).
Arguments ItemsAbsent {A}.
Arguments ItemsOne {A} item.
Arguments ItemsMany {A} items.

(** The [additionalProperties] property: absent or [false], [true], or a
    schema node. *)
Inductive AdditionalOf (A : Type) : Type :=
| AdditionalAbsent
| AdditionalTrue
| AdditionalSchema (node : A).
Arguments AdditionalAbsent {A}.
Arguments AdditionalTrue {A}.
Arguments AdditionalSchema {A} node.

(** A schema node: a reference object (its [$ref] is set) or a schema
    object; the translators tell them apart by the presence of fields.
    [properties] is kept in enumeration order. *)
Inductive Schema : Type :=
  mkSchema {
    s_ref : option string;
    s_description : option string;
    s_deprecated : bool;
    s_allOf : option (list Schema);
    s_oneOf : option (list Schema);
    s_anyOf : option (list Schema);
    s_type : SchemaType;
    s_enum : option (list string);
    s_items : ItemsOf Schema;
    s_properties : option (list (string * Schema));
    s_additionalProperties : AdditionalOf Schema
  }.

(** An entry of [operation.parameters]. [p_node] is the parameter object
    read as a schema node: the fields a parameter shares with one ([$ref],
    [description], and, in Swagger 2, [type], [items], [enum], ...). *)
Record Param : Type :=
  mkParam {
    p_name : string;
    p_in : string;
    p_schema : option Schema;
    p_node : Schema
  }.

Definition p_ref (p : Param) : option string := s_ref (p_node p).
Definition p_description (p : Param) : option string := s_description (p_node p).

(** [operation.requestBody] of OpenAPI 3; [rb_jsonSchema] is
    [content['application/json'].schema]. *)
Record RequestBody : Type :=
  mkRequestBody {
    rb_ref : option string;
    rb_jsonSchema : option Schema
  }.

(** [operation.responses['200']]; [res_jsonSchema] is
    [content['application/json'].schema] (OpenAPI 3), [res_schema] is
    [schema] (Swagger 2). *)
Record Response : Type :=
  mkResponse {
    res_ref : option string;
    res_jsonSchema : option Schema;
    res_schema : option Schema
  }.

Record Operation : Type :=
  mkOperation {
    op_tags : option (list string);
    op_operationId : option string;
    op_description : option string;
    op_parameters : option (list Param);
    op_requestBody : option RequestBody;
    op_response200 : option Response
  }.

(** A path item in enumeration order; the value under a key that is not
    an HTTP method is never read. *)
Definition PathItem : Type := list (string * Operation).

(** The document. [doc_schemas] is [components?.schemas] and
    [doc_definitions] is [definitions], each with its own properties when
    it is there. *)
Record Document : Type :=
  mkDocument {
    doc_swagger : option string;
    doc_paths : option (list (string * PathItem));
    doc_schemas : option (gmap string Schema);
    doc_definitions : option (gmap string Schema)
  }.

(** ** The translator's output record and the configuration *)

Record RequestItem : Type :=
  mkRequestItem {
    ri_name : string;
    ri_url : string;
    ri_method : string;
    ri_description : string;
    ri_requestPathType : string;
    ri_requestQueryType : string;
    ri_requestBodyType : string;
    (** set by [ParseSchemasV2] only *)
    ri_requestBodyTypeIsFormData : option bool;
    ri_responseType : string
  }.

(** Second argument of [propKeyReplacer]. *)
Inductive KeyFrom : Type := FromParam | FromSchema.

(** The keys of a [manualTypes] entry. *)
Inductive TypeField : Type :=
| RequestQueryType | RequestPathType | RequestBodyType | ResponseType.

(** A value of a [manualTypes] entry once resolved: a type expression or
    a data value (by its declared type an object, an array or [null]). *)
Inductive ManualValue : Type :=
| ManualString (s : string)
| ManualData (j : Json).

(** A [manualTypes] value: given directly or computed from the request
    item; the awaited result of the function stands for the function. *)
Inductive ManualType : Type :=
| ManualGiven (v : ManualValue)
| ManualFunction (f : RequestItem -> ManualValue).

(** The [ssr] option. *)
Inductive Ssr : Type :=
| SsrFlag (b : bool)
| SsrMethods (methods : list string).

Record DocConfig : Type :=
  mkDocConfig {
    cfg_name : string;
    cfg_ssr : option Ssr;
    cfg_importRequestFromPath : option string;
    cfg_importAxiosTypesFromPath : option string;
    cfg_include : option (list string);
    cfg_exclude : option (list string);
    cfg_urlPrefix : option string;
    cfg_removeUrlPrefix : option string;
    cfg_responseRootInterface : option (list (string * string));
    cfg_customResponseReturnPath : option string;
    cfg_propKeyReplacer : option (string -> KeyFrom -> string);
    cfg_urlToNameReplacer : option (string -> string);
    cfg_getTag : option (string -> string -> Operation -> string);
    (** [manualTypes?.[url]?.[method]], entries in key order. A member
        that [manualTypes] or an entry of it inherits has no property
        named like a key that passed the test of [HttpMethods], so the
        own properties decide the lookup. *)
    cfg_manualTypes : gmap string (gmap string (list (TypeField * ManualType)))
  }.

(** ** [src/build-api/tag-validator.ts] *)

Module TagValidator.

Record t : Type :=
  mk {
    _include : option (list string);
    _exclude : option (list string)
  }.

Section Over.

(** [String.prototype.toUpperCase], of which the class reads nothing
    but the results it compares. *)
Variable toUpperCase : string -> string.

Definition upperCaseOver (tag : string) : string := toUpperCase tag.

(** The constructor: [config.include?.map(upperCase)]. *)
Definition newOver (config : DocConfig) : t :=
  {| _include := List.map upperCaseOver <$> cfg_include config;
     _exclude := List.map upperCaseOver <$> cfg_exclude config |}.

(** An array is truthy also when it is empty, so [_include && ...]
    asks whether the list is configured. *)
Definition validateOver (v : t) (tag : string) : bool :=
  let tag := upperCaseOver tag in
  if match _include v with
     | Some inc => (JS.indexOf inc tag <? 0)%Z
     | None => false
     end
  then false
  else if match _exclude v with
          | Some exc => (JS.indexOf exc tag >=? 0)%Z
          | None => false
          end
  then false
  else true.

End Over.

(** The class over [JS.toUpperCase], as the translators run it. *)
Definition upperCase : string -> string := upperCaseOver JS.toUpperCase.
Definition new : DocConfig -> t := newOver JS.toUpperCase.
Definition validate : t -> string -> bool := validateOver JS.toUpperCase.

End TagValidator.

(** ** The translator instance and its monad *)

(** Where a declaration was appended: [interfacesTemplate] or
    [typesTemplate]. *)
Inductive DeclKind : Type := DeclInterface | DeclType.

(** What [console.log] was called with. *)
Inductive LogEntry : Type :=
| LogParamRef (paramItem : Param).

(** One [+=] on a template: the comment of a schema, or the declaration
    of a type name with its text. *)
Inductive Appended : Type :=
| AppendedComment (text : string)
| AppendedDeclaration (kind : DeclKind) (typeName : string) (text : string).

(** The mutable fields of a [ParseSchemas] / [ParseSchemasV2] instance,
    the console, and the history of what was appended to the two
    templates ([appended], newest last), which the code does not hold. *)
Record State : Type :=
  mkState {
    tags : gmap string (list RequestItem);
    refs : gmap string bool;
    typesTemplate : string;
    interfacesTemplate : string;
    console : list LogEntry;
    appended : list Appended
  }.

(** The type names that the entries of a history declare, in order,
    and those declared so far on an instance. *)
Definition declaredIn (history : list Appended) : list string :=
  omap (fun e => match e with
                 | AppendedDeclaration _ typeName _ => Some typeName
                 | AppendedComment _ => None
                 end) history.

Definition declaredNames (st : State) : list string :=
  declaredIn (appended st).

(** What the history says each template holds. *)
Definition renderInterfaces (history : list Appended) : string :=
  String.concat ""
    (omap (fun e => match e with
                    | AppendedComment text => Some text
                    | AppendedDeclaration DeclInterface _ text => Some text
                    | AppendedDeclaration DeclType _ _ => None
                    end) history).

Definition renderTypes (history : list Appended) : string :=
  String.concat ""
    (omap (fun e => match e with
                    | AppendedDeclaration DeclType _ text => Some text
                    | _ => None
                    end) history).

(** The fields of a fresh instance. *)
Definition initialState : State :=
  {| tags := ∅; refs := ∅; typesTemplate := ""; interfacesTemplate := "";
     console := []; appended := [] |}.

(** Why a run stops without a result: an uncaught [TypeError]; an
    uncaught [SyntaxError], which [new RegExp] throws on a malformed
    pattern; the fuel of the embedding ran out. *)
Inductive Failure : Type :=
| TypeError
| SyntaxError
| FuelExhausted.

Inductive Res (A : Type) : Type :=
| Ok (a : A) (st : State)
| Fail (e : Failure).
Arguments Ok {A} a st.
Arguments Fail {A} e.

Definition M (A : Type) : Type := State -> Res A.

#[global] Instance M_ret : MRet M := fun A a st => Ok a st.

#[global] Instance M_bind : MBind M := fun A B f m st =>
  match m st with
  | Ok a st' => f a st'
  | Fail e => Fail e
  end.

Definition throw {A : Type} (e : Failure) : M A := fun _ => Fail e.
Definition get : M State := fun st => Ok st st.
Definition modify (f : State -> State) : M unit := fun st => Ok tt (f st).

(** [for (const x of l) acc = f(acc, x)] and [l.map(f)] with effects. *)
Definition foldM {A B : Type} (f : B -> A -> M B) : B -> list A -> M B :=
  fix go (acc : B) (l : list A) : M B :=
    match l with
    | [] => mret acc
    | x :: r => acc' ← f acc x; go acc' r
    end.

Definition mapM {A B : Type} (f : A -> M B) : list A -> M (list B) :=
  fix go (l : list A) : M (list B) :=
    match l with
    | [] => mret []
    | x :: r => y ← f x; ys ← go r; mret (y :: ys)
    end.

(** Field updates of the instance. *)
Definition setTags (f : gmap string (list RequestItem) -> gmap string (list RequestItem))
    (st : State) : State :=
  {| tags := f (tags st); refs := refs st; typesTemplate := typesTemplate st;
     interfacesTemplate := interfacesTemplate st; console := console st;
     appended := appended st |}.

Definition setRef (typeName : string) (st : State) : State :=
  {| tags := tags st; refs := <[typeName := true]> (refs st);
     typesTemplate := typesTemplate st;
     interfacesTemplate := interfacesTemplate st; console := console st;
     appended := appended st |}.

(** [this.interfacesTemplate += text], for a comment. *)
Definition appendComment (text : string) (st : State) : State :=
  {| tags := tags st; refs := refs st; typesTemplate := typesTemplate st;
     interfacesTemplate := interfacesTemplate st +:+ text;
     console := console st;
     appended := appended st ++ [AppendedComment text] |}.

(** [this.interfacesTemplate += text], for the declaration of [typeName]. *)
Definition appendInterface (typeName text : string) (st : State) : State :=
  {| tags := tags st; refs := refs st; typesTemplate := typesTemplate st;
     interfacesTemplate := interfacesTemplate st +:+ text;
     console := console st;
     appended :=
       appended st ++ [AppendedDeclaration DeclInterface typeName text] |}.

(** [this.typesTemplate += text], for the declaration of [typeName]. *)
Definition appendType (typeName text : string) (st : State) : State :=
  {| tags := tags st; refs := refs st;
     typesTemplate := typesTemplate st +:+ text;
     interfacesTemplate := interfacesTemplate st; console := console st;
     appended := appended st ++ [AppendedDeclaration DeclType typeName text] |}.

Definition log (entry : LogEntry) (st : State) : State :=
  {| tags := tags st; refs := refs st; typesTemplate := typesTemplate st;
     interfacesTemplate := interfacesTemplate st;
     console := console st ++ [entry]; appended := appended st |}.

(** [refs[typeName]] read as a condition: the flag the instance stored,
    or a member that [refs] inherits. *)
Definition refSeen (st : State) (typeName : string) : bool :=
  match refs st !! typeName with
  | Some b => b
  | None => JS.inherited typeName
  end.

(** What [requestItems] refers to once [tags[tag] || (tags[tag] = [])]
    is evaluated: the array that is the group of a tag, or a member that
    [tags] inherits. *)
Inductive RequestItems : Type :=
| GroupOf (tag : string)
| InheritedMember.

(** [tags[tag] || (tags[tag] = [])]. *)
Definition ensureGroup (tag : string) : M RequestItems := fun st =>
  match tags st !! tag with
  | Some _ => Ok (GroupOf tag) st
  | None =>
      if JS.inherited tag then Ok InheritedMember st
      else Ok (GroupOf tag) (setTags (insert tag []) st)
  end.

(** [requestItems.push(item)]: the item is added to the array of the
    group, which [tags] holds; a member inherited from [Object.prototype]
    has no [push], and calling it is a [TypeError]. *)
Definition pushItem (requestItems : RequestItems) (item : RequestItem)
    : M unit :=
  match requestItems with
  | GroupOf tag =>
      modify (setTags (fun m => <[tag := default [] (m !! tag) ++ [item]]> m))
  | InheritedMember => throw TypeError
  end.

(** The object [{}] read as a schema node. *)
Definition emptySchema : Schema :=
  {| s_ref := None; s_description := None; s_deprecated := false;
     s_allOf := None; s_oneOf := None; s_anyOf := None; s_type := TypeAbsent;
     s_enum := None; s_items := ItemsAbsent; s_properties := None;
     s_additionalProperties := AdditionalAbsent |}.

(** [container?.[name]]: nothing when the container is missing; else an
    own property of it; else a member it inherits from
    [Object.prototype]. Such a member has none of the properties the
    translators read of a schema node ([$ref], [allOf], [oneOf], [anyOf],
    [type], [enum], [items], [properties], [additionalProperties],
    [description], [deprecated]): it is read like the object [{}]. *)
Definition schemaAt (container : option (gmap string Schema)) (name : string)
    : option Schema :=
  match container with
  | None => None
  | Some schemas =>
      match schemas !! name with
      | Some schemaItem => Some schemaItem
      | None => if JS.inherited name then Some emptySchema else None
      end
  end.

(** [operationItem.tags?.[0] || 'main']. *)
Definition firstTagOrMain (operationItem : Operation) : string :=
  match op_tags operationItem with
  | Some (tag :: _) => JS.or tag "main"
  | _ => "main"
  end.

(** [urlToNameReplacer ? urlToNameReplacer(url) : url] *)
Definition urlName (config : DocConfig) (url : string) : string :=
  match cfg_urlToNameReplacer config with
  | Some urlToNameReplacer => urlToNameReplacer url
  | None => url
  end.

(** The pattern [`(${tag}_)?(${method})?`]. *)
Definition duplicatePrefixPattern (tag method : string) : string :=
  "(" +:+ tag +:+ "_)?(" +:+ method +:+ ")?".

(** The marker of a deprecated node. *)
Definition deprecatedComment : string := "/** @deprecated 已废弃 */".

(** [a || b || c] on optional arrays (an array is truthy). *)
Definition firstSome {A : Type} (a b c : option A) : option A :=
  match a with
  | Some _ => a
  | None => match b with Some _ => b | None => c end
  end.

Definition isSome {A : Type} (o : option A) : bool :=
  match o with Some _ => true | None => false end.

(** ** Methods with the same text in both translator classes

    [ParseSchemas] and [ParseSchemasV2] repeat these methods word for
    word; [refSchema] differs only in the container it reads
    ([doc.components.schemas] or [doc.definitions]), taken here as
    [schemas]. *)

Module Common.

(** [isRef(obj)], on the [$ref] property of [obj]. *)
Definition isRef (ref : option string) : bool := JS.truthyOpt ref.

Definition isInterface (s : Schema) : bool :=
  match s_type s with
  | TypeName t => String.eqb t "object"
  | _ => false
  end.

Definition toSafePropKey (config : DocConfig) (key : string) (from : KeyFrom)
    : string :=
  Utils.toSafePropKey
    match cfg_propKeyReplacer config with
    | Some propKeyReplacer => propKeyReplacer key from
    | None => key
    end.

Definition getRefName (ref : string) : string := JS.pop (JS.split "/" ref).

(** [name.replace(/^api\./i, '')], then [pascalCase]. *)
Definition formatSchemaName (pascalCase : string -> string) (name : string)
    : string :=
  pascalCase match JS.stripPrefixCI "api." name with
             | Some rest => rest
             | None => name
             end.

Definition getSchemaItemComment (s : Schema) : string :=
  if isRef (s_ref s) then ""
  else
    let comment := JS.orOpt (s_description s) "" in
    let comment :=
      if JS.truthy comment then String "010" "/** " +:+ comment +:+ " */"
      else comment in
    if s_deprecated s then comment +:+ String "010" deprecatedComment
    else comment.

(** [parseSchemaItemObject], with [parseSchemaItem] as an argument. *)
Definition parseSchemaItemObjectWith (config : DocConfig)
    (parseSchemaItem : Schema -> M string) (s : Schema) : M string :=
  let loop :=
    foldM (fun (template : string) '(key, propItem) =>
             propType ← parseSchemaItem propItem;
             let propKey := toSafePropKey config key FromSchema in
             let template :=
               if isRef (s_ref propItem)
               then template +:+ "  " +:+ propKey +:+ ": " +:+ propType
               else
                 let template :=
                   if s_deprecated propItem
                   then template +:+ deprecatedComment +:+ String "010" ""
                   else template in
                 template +:+ "  " +:+ propKey +:+ ": " +:+ propType
                   +:+ Utils.joinComment (s_description propItem) in
             mret (template +:+ String "010" ""))
          ("{" +:+ String "010" "") in
  template ←
    match s_properties s with
    | Some props => loop props
    | None => loop []               (* [schemaItem.properties || {}] *)
    end;
  mret (template +:+ "}" +:+ String "010" "").

(** [refSchema], with [parseSchemaItem] as an argument. *)
Definition refSchemaWith (schemas : option (gmap string Schema))
    (parseSchemaItem : Schema -> M string) (schemaName typeName : string)
    : M unit :=
  match schemaAt schemas schemaName with
  | None => mret tt
  | Some schemaItem =>
      st ← get;
      if refSeen st typeName then mret tt
      else
        modify (setRef typeName);;
        schemaType ← parseSchemaItem schemaItem;
        modify (appendComment (getSchemaItemComment schemaItem));;
        if isInterface schemaItem then
          modify (appendInterface typeName
                    (String "010" "interface " +:+ typeName +:+ " "
                     +:+ schemaType))
        else
          modify (appendType typeName
                    (String "010" "type " +:+ typeName +:+ " = "
                     +:+ schemaType))
  end.

(** [parseRef], [refSchema] and [parseSchemaItem] call each other. The
    recursion inside a node follows its structure
    ([parseSchemaItemWith], which hands reference nodes to its
    argument); the recursion through a reference is counted by [fuel],
    one per reference entered. [fuelFor] is the fuel the classes run
    with: a reference is entered only when its type name is not
    registered yet, so references nest no deeper than the container
    has schemas, and a member the container inherits ends a nest. *)
Fixpoint parseRefFuel (pascalCase : string -> string)
    (schemas : option (gmap string Schema))
    (parseSchemaItemWith : (string -> M string) -> Schema -> M string)
    (fuel : nat) (ref : string) : M string :=
  let name := getRefName ref in
  let typeName := formatSchemaName pascalCase name in
  refSchemaWith schemas
    match fuel with
    | 0 => fun _ => throw FuelExhausted
    | S fuel' =>
        parseSchemaItemWith
          (parseRefFuel pascalCase schemas parseSchemaItemWith fuel')
    end name typeName;;
  mret typeName.

Definition fuelFor (schemas : option (gmap string Schema)) : nat :=
  S (size (default ∅ schemas)).

End Common.

(** ** [src/build-api/parse-schemas.ts]: class [ParseSchemas] (OpenAPI 3) *)

Module ParseSchemas.
Section Instance.

Variable pascalCase : string -> string.
(** [regExpReplace pattern source] is
    [source.replace(new RegExp(pattern, 'i'), '')] as the engine
    computes it, [None] when the constructor throws a [SyntaxError]. *)
Variable regExpReplace : string -> string -> option string.
Variable doc : Document.
Variable config : DocConfig.

Definition _tagValidator : TagValidator.t := TagValidator.new config.

Definition isRef : option string -> bool := Common.isRef.
Definition isInterface : Schema -> bool := Common.isInterface.
Definition toSafePropKey : string -> KeyFrom -> string :=
  Common.toSafePropKey config.
Definition getRefName : string -> string := Common.getRefName.
Definition formatSchemaName : string -> string :=
  Common.formatSchemaName pascalCase.
Definition getSchemaItemComment : Schema -> string :=
  Common.getSchemaItemComment.

Section Node.

Variable parseRef : string -> M string.

Definition parseSchemaItemAdditionalWith
    (parseSchemaItem : Schema -> M string) (s : Schema) : M string :=
  match s_additionalProperties s with
  | AdditionalAbsent => mret ""
  | AdditionalTrue => mret (" & " +:+ "{[P:string]: any}")
  | AdditionalSchema additional =>
      t ← parseSchemaItem additional; mret (" & " +:+ t)
  end.

Fixpoint parseSchemaItemWith (schemaItem : Schema) {struct schemaItem}
    : M string :=
  if isRef (s_ref schemaItem) then
    parseRef (default "" (s_ref schemaItem))
  else
    match firstSome (s_allOf schemaItem) (s_oneOf schemaItem)
                    (s_anyOf schemaItem) with
    | Some combineSchemas =>
        types ← mapM parseSchemaItemWith combineSchemas;
        let combineType :=
          JS.join (if isSome (s_allOf schemaItem) then " & " else " | ")
                  types in
        mret (JS.and combineType ("(" +:+ combineType +:+ ") | null"))
    | None =>
        match s_type schemaItem with
        | TypeName t =>
            if String.eqb t "integer" then mret "number"
            else if String.eqb t "string" then
              match s_enum schemaItem with
              | Some enum => mret ("'" +:+ JS.join "' | '" enum +:+ "'")
              | None => mret "string"
              end
            else if String.eqb t "array" then
              match s_items schemaItem with
              | ItemsOne items =>
                  t ← parseSchemaItemWith items; mret (t +:+ "[]")
              | ItemsMany _ =>
                  (* an array has no [$ref], no combinator and no
                     [type]: it translates to '' *)
                  mret ("" +:+ "[]")
              | ItemsAbsent =>
                  (* [schemaItem.allOf] is read on [undefined] *)
                  throw TypeError
              end
            else if String.eqb t "object" then
              obj ← Common.parseSchemaItemObjectWith config
                      parseSchemaItemWith schemaItem;
              add ← parseSchemaItemAdditionalWith parseSchemaItemWith
                      schemaItem;
              mret (obj +:+ add)
            else mret (JS.or t "")
        | TypeNames ts => mret (JS.join " | " ts)
        | TypeAbsent => mret ""
        end
    end.

End Node.

Definition refSchemaWith : (Schema -> M string) -> string -> string -> M unit :=
  Common.refSchemaWith (doc_schemas doc).

Definition parseRefFuel : nat -> string -> M string :=
  Common.parseRefFuel pascalCase (doc_schemas doc) parseSchemaItemWith.

Definition parseRef : string -> M string :=
  parseRefFuel (Common.fuelFor (doc_schemas doc)).

Definition parseSchemaItem : Schema -> M string :=
  parseSchemaItemWith parseRef.

Definition parseSchemaItemObject : Schema -> M string :=
  Common.parseSchemaItemObjectWith config parseSchemaItem.

Definition parseSchemaItemAdditional : Schema -> M string :=
  parseSchemaItemAdditionalWith parseSchemaItem.

Record ParamsSchema : Type :=
  mkParamsSchema { ps_path : string; ps_query : string }.

(** The loop variables of [parseParamsSchema]. *)
Record Buffers : Type :=
  mkBuffers { path : string; query : string }.

(** One iteration of the loop over [operationItem.parameters]. *)
Definition parseParam (b : Buffers) (paramItem : Param) : M Buffers :=
  if isRef (p_ref paramItem) then
    modify (log (LogParamRef paramItem));;
    mret b
  else
    let schemaItem := default emptySchema (p_schema paramItem) in
    let propKey := toSafePropKey (p_name paramItem) FromParam in
    t ← parseSchemaItem schemaItem;
    let propType := "  " +:+ propKey +:+ ": " +:+ t in
    let propType :=
      propType +:+ Utils.joinComment (p_description paramItem)
      +:+ String "010" "" in
    if String.eqb (p_in paramItem) "path" then
      mret {| path := JS.or (path b) ("{" +:+ String "010" "") +:+ propType;
              query := query b |}
    else if String.eqb (p_in paramItem) "query" then
      mret {| path := path b;
              query := JS.or (query b) ("{" +:+ String "010" "") +:+ propType |}
    else mret b.

(** What follows the loop. *)
Definition closeBuffers (b : Buffers) : ParamsSchema :=
  {| ps_path := if JS.truthy (path b) then path b +:+ "}" else path b;
     ps_query := if JS.truthy (query b) then query b +:+ "}" else query b |}.

Definition parseParamsSchema (operationItem : Operation) : M ParamsSchema :=
  let list := default [] (op_parameters operationItem) in
  b ← foldM parseParam {| path := ""; query := "" |} list;
  mret (closeBuffers b).

Definition parseRequestBodySchema (operationItem : Operation) : M string :=
  match op_requestBody operationItem with
  | Some body =>
      if isRef (rb_ref body) then parseRef (default "" (rb_ref body))
      else parseSchemaItem (default emptySchema (rb_jsonSchema body))
  | None => parseSchemaItem emptySchema
  end.

Definition parseResponseSchema (operationItem : Operation) : M string :=
  match op_response200 operationItem with
  | Some res =>
      if isRef (res_ref res) then parseRef (default "" (res_ref res))
      else parseSchemaItem (default emptySchema (res_jsonSchema res))
  | None => parseSchemaItem emptySchema
  end.

(** The name of the request function of one operation. The tag and
    the method are put into the pattern as they are: what the pattern
    means is for the engine to say. *)
Definition operationName (url method tag : string) (operationItem : Operation)
    : M string :=
  match regExpReplace (duplicatePrefixPattern tag method)
          (JS.orOpt (op_operationId operationItem) (urlName config url)) with
  | Some rest => mret (method +:+ pascalCase rest)
  | None => throw SyntaxError
  end.

(** The body of the inner loop of [parsePaths]. *)
Definition parseOperation (url pathItemKey : string) (operationItem : Operation)
    : M unit :=
  if negb (Utils.inHttpMethods (JS.toUpperCase pathItemKey)) then mret tt
  else
    let method := pathItemKey in
    let tag := firstTagOrMain operationItem in
    if negb (TagValidator.validate _tagValidator tag) then mret tt
    else
      name ← operationName url method tag operationItem;
      requestItems ← ensureGroup tag;
      paramsSchema ← parseParamsSchema operationItem;
      requestBodyType ← parseRequestBodySchema operationItem;
      responseType ← parseResponseSchema operationItem;
      pushItem requestItems
               {| ri_name := name;
                  ri_url := url;
                  ri_method := method;
                  ri_description := JS.orOpt (op_description operationItem) "";
                  ri_requestPathType := ps_path paramsSchema;
                  ri_requestQueryType := ps_query paramsSchema;
                  ri_requestBodyType := requestBodyType;
                  ri_requestBodyTypeIsFormData := None;
                  ri_responseType := responseType |}.

Definition parsePaths : M unit :=
  let paths := default [] (doc_paths doc) in
  foldM (fun (_ : unit) '(url, pathItem) =>
           foldM (fun (_ : unit) '(pathItemKey, operationItem) =>
                    parseOperation url pathItemKey operationItem)
                 tt (pathItem : PathItem))
        tt paths.

(** A method called on the instance from outside, and a pass: calls on
    one instance, one after the other. *)
Inductive Call : Type :=
| CallParsePaths
| CallParseRef (ref : string)
| CallParseSchemaItem (schemaItem : Schema)
| CallParseParamsSchema (operationItem : Operation)
| CallParseRequestBodySchema (operationItem : Operation)
| CallParseResponseSchema (operationItem : Operation).

Definition call (c : Call) : M unit :=
  match c with
  | CallParsePaths => parsePaths
  | CallParseRef ref => parseRef ref;; mret tt
  | CallParseSchemaItem schemaItem => parseSchemaItem schemaItem;; mret tt
  | CallParseParamsSchema operationItem =>
      parseParamsSchema operationItem;; mret tt
  | CallParseRequestBodySchema operationItem =>
      parseRequestBodySchema operationItem;; mret tt
  | CallParseResponseSchema operationItem =>
      parseResponseSchema operationItem;; mret tt
  end.

Definition pass (calls : list Call) : M unit :=
  foldM (fun (_ : unit) c => call c) tt calls.

End Instance.
End ParseSchemas.

(** ** [dist/build-api/index.mjs]: class [ParseSchemasV2] (Swagger 2) *)

Module ParseSchemasV2.
Section Instance.

Variable pascalCase : string -> string.
Variable doc : Document.
Variable config : DocConfig.

Definition _tagValidator : TagValidator.t := TagValidator.new config.

Definition isRef : option string -> bool := Common.isRef.
Definition isInterface : Schema -> bool := Common.isInterface.
Definition toSafePropKey : string -> KeyFrom -> string :=
  Common.toSafePropKey config.
Definition getRefName : string -> string := Common.getRefName.
Definition formatSchemaName : string -> string :=
  Common.formatSchemaName pascalCase.
Definition getSchemaItemComment : Schema -> string :=
  Common.getSchemaItemComment.

Definition hasKey {A : Type} (key : string) (obj : list (string * A)) : bool :=
  existsb (fun kv => String.eqb (fst kv) key) obj.

(** [this.parseSchemaItem(additional.properties)]: the [properties] map
    itself is handed over as a schema node, so its fields are the
    properties of those names. A property called [$ref] is an object,
    on which [parseRef] calls [split]; one called [allOf], [oneOf] or
    [anyOf] is an object, on which [map] is called; one called [type]
    is an object that no [case] equals and that is returned as it is,
    to be joined to a string. *)
Definition parsePropertiesAsSchemaItem (properties : list (string * Schema))
    : M string :=
  if hasKey "$ref" properties then throw TypeError
  else if hasKey "allOf" properties || hasKey "oneOf" properties
          || hasKey "anyOf" properties then throw TypeError
  else if hasKey "type" properties then mret "[object Object]"
  else mret "".

Definition parseSchemaItemAdditional (s : Schema) : M string :=
  match s_additionalProperties s with
  | AdditionalAbsent => mret ""
  | AdditionalTrue => mret " & {[P:string]: any}"
  | AdditionalSchema additional =>
      match s_properties additional with
      | Some properties =>
          t ← parsePropertiesAsSchemaItem properties; mret (" & " +:+ t)
      | None => mret ""
      end
  end.

Section Node.

Variable parseRef : string -> M string.

(** The guard [if (!schemaItem) return ''] is met where a caller
    hands over a property that may be absent. *)
Fixpoint parseSchemaItemWith (schemaItem : Schema) {struct schemaItem}
    : M string :=
  if isRef (s_ref schemaItem) then
    parseRef (default "" (s_ref schemaItem))
  else
    match firstSome (s_allOf schemaItem) (s_oneOf schemaItem)
                    (s_anyOf schemaItem) with
    | Some combineSchemas =>
        types ← mapM parseSchemaItemWith combineSchemas;
        let combineType :=
          JS.join (if isSome (s_allOf schemaItem) then " & " else " | ")
                  types in
        mret (JS.and combineType ("(" +:+ combineType +:+ ") | null"))
    | None =>
        match s_type schemaItem with
        | TypeName t =>
            if String.eqb t "integer" then mret "number"
            else if String.eqb t "string" then
              match s_enum schemaItem with
              | Some enum => mret ("'" +:+ JS.join "' | '" enum +:+ "'")
              | None => mret "string"
              end
            else if String.eqb t "file" then mret "File"
            else if String.eqb t "array" then
              t ←
                match s_items schemaItem with
                | ItemsMany items =>
                    types ← mapM parseSchemaItemWith items;
                    mret (JS.join " | " types)
                | ItemsOne items =>
                    t ← parseSchemaItemWith items;
                    mret (JS.dropFinalNewline t)
                | ItemsAbsent => mret (JS.dropFinalNewline "")
                end;
              let t := if JS.testPipeOrAmp t then "(" +:+ t +:+ ")" else t in
              mret (t +:+ "[]")
            else if String.eqb t "object" then
              obj ← Common.parseSchemaItemObjectWith config
                      parseSchemaItemWith schemaItem;
              add ← parseSchemaItemAdditional schemaItem;
              mret (obj +:+ add)
            else mret (JS.or t "")
        | TypeNames ts => mret (JS.join " | " ts)
        | TypeAbsent => mret ""
        end
    end.

End Node.

Definition refSchemaWith : (Schema -> M string) -> string -> string -> M unit :=
  Common.refSchemaWith (doc_definitions doc).

Definition parseRefFuel : nat -> string -> M string :=
  Common.parseRefFuel pascalCase (doc_definitions doc) parseSchemaItemWith.

Definition parseRef : string -> M string :=
  parseRefFuel (Common.fuelFor (doc_definitions doc)).

Definition parseSchemaItem : Schema -> M string :=
  parseSchemaItemWith parseRef.

Definition parseSchemaItemObject : Schema -> M string :=
  Common.parseSchemaItemObjectWith config parseSchemaItem.

(** [parseSchemaItem] on a property that may be absent. *)
Definition parseSchemaItemOpt (schemaItem : option Schema) : M string :=
  match schemaItem with
  | Some s => parseSchemaItem s
  | None => mret ""
  end.

Record ParamsSchema : Type :=
  mkParamsSchema {
    ps_path : string;
    ps_query : string;
    ps_body : string;
    ps_isFormDataBody : bool
  }.

(** The loop variables of [parseParamsSchema]. *)
Record Buffers : Type :=
  mkBuffers {
    isFormDataBody : bool;
    path : string;
    query : string;
    body : string
  }.

(** One iteration of the loop over [operationItem.parameters]. *)
Definition parseParam (b : Buffers) (paramItem : Param) : M Buffers :=
  if isRef (p_ref paramItem) then
    modify (log (LogParamRef paramItem));;
    mret b
  else
    let schemaItem := default (p_node paramItem) (p_schema paramItem) in
    let propKey := toSafePropKey (p_name paramItem) FromParam in
    t ← parseSchemaItem schemaItem;
    let propType := "  " +:+ propKey +:+ ": " +:+ t in
    let propType :=
      propType +:+ Utils.joinComment (p_description paramItem)
      +:+ String "010" "" in
    if String.eqb (p_in paramItem) "path" then
      mret {| isFormDataBody := isFormDataBody b;
              path := JS.or (path b) ("{" +:+ String "010" "") +:+ propType;
              query := query b; body := body b |}
    else if String.eqb (p_in paramItem) "query" then
      mret {| isFormDataBody := isFormDataBody b; path := path b;
              query := JS.or (query b) ("{" +:+ String "010" "") +:+ propType;
              body := body b |}
    else if String.eqb (p_in paramItem) "formData" then
      mret {| isFormDataBody := true; path := path b; query := query b;
              body := JS.or (body b) ("{" +:+ String "010" "") +:+ propType |}
    else if String.eqb (p_in paramItem) "body" then
      if String.eqb (p_name paramItem) "root" then
        t ← parseSchemaItemOpt (p_schema paramItem);
        (* body += (body && body + ' & ') + t *)
        mret {| isFormDataBody := isFormDataBody b; path := path b;
                query := query b;
                body := body b +:+
                        (JS.and (body b) (body b +:+ " & ") +:+ t) |}
      else mret b
    else mret b.

(** What follows the loop. *)
Definition closeBuffers (b : Buffers) : ParamsSchema :=
  {| ps_path := if JS.truthy (path b) then path b +:+ "}" else path b;
     ps_query := if JS.truthy (query b) then query b +:+ "}" else query b;
     ps_body :=
       if isFormDataBody b then "FormData | " +:+ body b +:+ "}" else body b;
     ps_isFormDataBody := isFormDataBody b |}.

Definition parseParamsSchema (operationItem : Operation) : M ParamsSchema :=
  let list := default [] (op_parameters operationItem) in
  b ← foldM parseParam
        {| isFormDataBody := false; path := ""; query := ""; body := "" |}
        list;
  mret (closeBuffers b).

Definition parseResponseSchema (operationItem : Operation) : M string :=
  match op_response200 operationItem with
  | Some res =>
      if isRef (res_ref res) then parseRef (default "" (res_ref res))
      else parseSchemaItem (default emptySchema (res_schema res))
  | None => parseSchemaItem emptySchema
  end.

(** [item[k] = t]. *)
Definition setField (k : TypeField) (t : string) (item : RequestItem)
    : RequestItem :=
  {| ri_name := ri_name item; ri_url := ri_url item;
     ri_method := ri_method item; ri_description := ri_description item;
     ri_requestPathType :=
       match k with RequestPathType => t | _ => ri_requestPathType item end;
     ri_requestQueryType :=
       match k with RequestQueryType => t | _ => ri_requestQueryType item end;
     ri_requestBodyType :=
       match k with RequestBodyType => t | _ => ri_requestBodyType item end;
     ri_requestBodyTypeIsFormData := ri_requestBodyTypeIsFormData item;
     ri_responseType :=
       match k with ResponseType => t | _ => ri_responseType item end |}.

(** The condition [if (t)] on a value given directly. *)
Definition manualTruthy (v : ManualValue) : bool :=
  match v with
  | ManualString s => JS.truthy s
  | ManualData j => RequestResponseType.truthy j
  end.

(** [if (typeof t === 'object') t = jsonToType(t)]. *)
Definition manualResolve (v : ManualValue) : string :=
  match v with
  | ManualString s => s
  | ManualData j => RequestResponseType.jsonToType j
  end.

(** [mergeManualTypes], once every task has settled. Each callback of
    [keys.map] runs up to its first [await] when it is called: a value
    given directly is stored at once, a function is called with the item
    as it is then and its result is stored when the task resumes, after
    every callback has started. The tasks write distinct fields. *)
Definition mergeManualTypes (item : RequestItem)
    (manualTypes : list (TypeField * ManualType)) : RequestItem :=
  let started :=
    List.fold_left
      (fun '(item, pending) '(k, t) =>
         match t with
         | ManualGiven v =>
             if manualTruthy v then (setField k (manualResolve v) item, pending)
             else (item, pending)
         | ManualFunction f => (item, pending ++ [(k, f item)])
         end)
      manualTypes (item, []) in
  List.fold_left (fun item '(k, v) => setField k (manualResolve v) item)
                 (snd started) (fst started).

(** [config.manualTypes?.[url]?.[method]] *)
Definition manualTypesOf (url method : string)
    : option (list (TypeField * ManualType)) :=
  cfg_manualTypes config !! url ≫= (.!! method).

(** [getTag ? getTag(path, method, operationItem)
          : operationItem.tags?.[0] || 'main'] *)
Definition operationTag (url method : string) (operationItem : Operation)
    : string :=
  match cfg_getTag config with
  | Some getTag => getTag (urlName config url) method operationItem
  | None => firstTagOrMain operationItem
  end.

(** The body of the inner loop of [parsePaths]; the item is stored with
    the fields it has when the tasks of [Promise.all] have settled. *)
Definition parseOperation (url pathItemKey : string) (operationItem : Operation)
    : M unit :=
  if negb (Utils.inHttpMethods (JS.toUpperCase pathItemKey)) then mret tt
  else
    let method := pathItemKey in
    let path := urlName config url in
    let tag := operationTag url method operationItem in
    if negb (TagValidator.validate _tagValidator tag) then mret tt
    else
      let name := method +:+ pascalCase path in
      requestItems ← ensureGroup tag;
      paramsSchema ← parseParamsSchema operationItem;
      responseType ← parseResponseSchema operationItem;
      let item :=
        {| ri_name := name;
           ri_url := url;
           ri_method := method;
           ri_description := JS.orOpt (op_description operationItem) "";
           ri_requestPathType := ps_path paramsSchema;
           ri_requestQueryType := ps_query paramsSchema;
           ri_requestBodyType := ps_body paramsSchema;
           ri_requestBodyTypeIsFormData := Some (ps_isFormDataBody paramsSchema);
           ri_responseType := responseType |} in
      let item :=
        match manualTypesOf url method with
        | Some manualTypes => mergeManualTypes item manualTypes
        | None => item
        end in
      pushItem requestItems item.

Definition parsePaths : M unit :=
  let paths := default [] (doc_paths doc) in
  foldM (fun (_ : unit) '(url, pathItem) =>
           foldM (fun (_ : unit) '(pathItemKey, operationItem) =>
                    parseOperation url pathItemKey operationItem)
                 tt (pathItem : PathItem))
        tt paths.

(** A method called on the instance from outside, and a pass: calls on
    one instance, one after the other. *)
Inductive Call : Type :=
| CallParsePaths
| CallParseRef (ref : string)
| CallParseSchemaItem (schemaItem : Schema)
| CallParseParamsSchema (operationItem : Operation)
| CallParseResponseSchema (operationItem : Operation).

Definition call (c : Call) : M unit :=
  match c with
  | CallParsePaths => parsePaths
  | CallParseRef ref => parseRef ref;; mret tt
  | CallParseSchemaItem schemaItem => parseSchemaItem schemaItem;; mret tt
  | CallParseParamsSchema operationItem =>
      parseParamsSchema operationItem;; mret tt
  | CallParseResponseSchema operationItem =>
      parseResponseSchema operationItem;; mret tt
  end.

Definition pass (calls : list Call) : M unit :=
  foldM (fun (_ : unit) c => call c) tt calls.

End Instance.
End ParseSchemasV2.

(** ** [dist/build-api/index.mjs]: the generator, per request item *)

Module Generator.

Module TYPE_NAME_SUFFIXES.
Definition params : string := "Params".
Definition pathParams : string := "PathParams".
Definition data : string := "Request".
Definition res : string := "Response".
Definition resRoot : string := "ResponseROOT".
End TYPE_NAME_SUFFIXES.

(** A line terminator, which [.] does not match. *)
Definition isLineTerminator (c : ascii) : bool :=
  Ascii.eqb c "010"%char || Ascii.eqb c "013"%char.

(** The offset of the last [}] on the first line of [s], counted from
    1 so that [.+] has a character to take before it. *)
Fixpoint lastCloseOnLine (s : string) (i : nat) : option nat :=
  match s with
  | EmptyString => None
  | String c r =>
      if isLineTerminator c then None
      else match lastCloseOnLine r (S i) with
           | Some q => Some q
           | None =>
               if Ascii.eqb c "}"%char && (1 <=? i)%nat then Some i else None
           end
  end.

Fixpoint takeString (n : nat) (s : string) : string :=
  match n, s with
  | S n', String c r => String c (takeString n' r)
  | _, _ => EmptyString
  end.

Fixpoint dropString (n : nat) (s : string) : string :=
  match n, s with
  | S n', String _ r => dropString n' r
  | _, _ => s
  end.

(** [url.replace(/\{.+}/g, (m) => '${options.pathParams.' + m.slice(1))]:
    a match starts at a [{], [.+] runs to the end of the line and gives
    back up to the last [}] that leaves it a character. [fuel] bounds
    the characters still to scan. *)
Fixpoint replacePathParams (fuel : nat) (s : string) : string :=
  match fuel with
  | 0 => s
  | S fuel' =>
      match s with
      | EmptyString => EmptyString
      | String c r =>
          if Ascii.eqb c "{"%char then
            match lastCloseOnLine r 0 with
            | Some q =>
                "${options.pathParams." +:+ takeString (S q) r
                +:+ replacePathParams fuel' (dropString (S q) r)
            | None => String c (replacePathParams fuel' r)
            end
          else String c (replacePathParams fuel' r)
      end
  end.

Section Item.

Variable pascalCase : string -> string.
Variable docOptions : DocConfig.
Variable tag : string.
Variable requestItem : RequestItem.

Definition scopeName : string := pascalCase (cfg_name docOptions).
Definition scopeTag : string := pascalCase tag.
Definition scopeRefName : string := pascalCase (ri_name requestItem).
Definition apiRefPrefix : string :=
  "API." +:+ scopeName +:+ "." +:+ scopeTag +:+ "." +:+ scopeRefName.

Definition formatURL (url : string) : string :=
  let url :=
    match cfg_removeUrlPrefix docOptions with
    | Some removeUrlPrefix =>
        if JS.truthy removeUrlPrefix then
          match JS.stripPrefix removeUrlPrefix url with
          | Some rest => rest          (* indexOf(...) === 0, then slice *)
          | None => url
          end
        else url
    | None => url
    end in
  JS.orOpt (cfg_urlPrefix docOptions) ""
  +:+ replacePathParams (String.length url) url.

Record ReturnType : Type :=
  mkReturnType { inApply : string; inReturn : string }.

Definition createReturnType : ReturnType :=
  let ref := apiRefPrefix +:+ TYPE_NAME_SUFFIXES.res in
  let path := JS.orOpt (cfg_customResponseReturnPath docOptions) "" in
  let pathRef :=
    if JS.truthy path then
      JS.join ""
        (List.map (fun p => "['" +:+ p +:+ "']")
           (List.filter JS.truthy (JS.split "." path)))
    else "" in
  {| inApply := if JS.truthy path then "" else "<" +:+ ref +:+ ">";
     inReturn :=
       if JS.truthy path then ": Promise<" +:+ ref +:+ pathRef +:+ ">"
       else "" |}.

(** [/^(post|put)/.test(method)] *)
Definition isPostOrPut (method : string) : bool :=
  JS.startsWith "post" method || JS.startsWith "put" method.

(** [applyArgs.data]. *)
Definition applyArgsData : string :=
  if JS.truthy (ri_requestBodyType requestItem)
     && isPostOrPut (ri_method requestItem)
  then "options.data" else "".

(** The arguments of the [httpClient] call: [[url, data, config]]
    without the empty ones. *)
Definition callArguments : list string :=
  List.filter JS.truthy
    [ "`" +:+ formatURL (ri_url requestItem) +:+ "`";
      applyArgsData;
      if JS.truthy (ri_requestQueryType requestItem)
      then "{ ...options.config, params: options.params }"
      else "options.config" ].

Definition createFunctionTemplate (ssr : bool) : string :=
  let argsTemplate :=
    List.filter JS.truthy
      [ if ssr then "ctx: RequestContext;" else "";
        JS.and (ri_requestPathType requestItem)
               ("pathParams: " +:+ apiRefPrefix
                +:+ TYPE_NAME_SUFFIXES.pathParams +:+ ";");
        JS.and (ri_requestBodyType requestItem)
               ("data: Partial<" +:+ apiRefPrefix
                +:+ TYPE_NAME_SUFFIXES.data +:+ ">;");
        JS.and (ri_requestQueryType requestItem)
               ("params: Partial<" +:+ apiRefPrefix
                +:+ TYPE_NAME_SUFFIXES.params +:+ ">;");
        "config?: AxiosRequestConfig" ] in
  let url := "`" +:+ formatURL (ri_url requestItem) +:+ "`" in
  let returnType := createReturnType in
  JS.join (String "010" "")
    [ if JS.truthy (ri_description requestItem)
      then String "010" "/** " +:+ (if ssr then "SSR: " else "")
           +:+ ri_description requestItem +:+ " */"
      else "";
      "export function " +:+ ri_name requestItem
      +:+ (if ssr then "SSR" else "") +:+ "(options: { "
      +:+ JS.join " " argsTemplate +:+ " })" +:+ inReturn returnType +:+ " {";
      if ssr then
        "  return requestSSR" +:+ inApply returnType +:+ "(options.ctx, { "
        +:+ JS.join ", "
              (List.filter JS.truthy
                 [ "...options.config";
                   "method: '" +:+ ri_method requestItem +:+ "'";
                   "url: " +:+ url;
                   if JS.truthy applyArgsData then "data: options.data" else "";
                   if JS.truthy (ri_requestQueryType requestItem)
                   then "params: options.params" else "" ])
        +:+ " })"
      else
        "  return httpClient." +:+ ri_method requestItem
        +:+ inApply returnType +:+ "(" +:+ JS.join ", " callArguments +:+ ")";
      "}";
      "" ].

End Item.

Section Document.

Variable pascalCase : string -> string.
Variable docOptions : DocConfig.
(** The translator instance once [parsePaths] has run. *)
Variable ps : State.

(** [createTypeTemplate(name, type, inResponseRoot)]; [type in refs]
    asks for the key, own or inherited. *)
Definition createTypeTemplate (name type : string) (inResponseRoot : bool)
    : string :=
  let type :=
    if isSome (refs ps !! type) || JS.inherited type
    then "API." +:+ scopeName pascalCase docOptions +:+ "." +:+ type
    else type in
  if inResponseRoot then
    String "010" "type " +:+ name +:+ " = API."
    +:+ scopeName pascalCase docOptions +:+ "."
    +:+ TYPE_NAME_SUFFIXES.resRoot +:+ "<" +:+ type +:+ ">"
    +:+ String "010" ""
  else if JS.startsWith "{" type && JS.endsWith "}" type
          && negb (JS.testCloseAmpOpen type) then
    String "010" "interface " +:+ name +:+ " " +:+ type +:+ String "010" ""
  else
    String "010" "type " +:+ name +:+ " = " +:+ type +:+ String "010" "".

(** What one request item adds to [dtsTemplate]. *)
Definition appendItemTypes (dtsTemplate : string) (requestItem : RequestItem)
    : string :=
  let scopeRefName := scopeRefName pascalCase requestItem in
  let dtsTemplate :=
    if JS.truthy (ri_requestPathType requestItem)
    then dtsTemplate +:+
         createTypeTemplate (scopeRefName +:+ TYPE_NAME_SUFFIXES.pathParams)
           (ri_requestPathType requestItem) false
    else dtsTemplate in
  let dtsTemplate :=
    if JS.truthy (ri_requestQueryType requestItem)
    then dtsTemplate +:+
         createTypeTemplate (scopeRefName +:+ TYPE_NAME_SUFFIXES.params)
           (ri_requestQueryType requestItem) false
    else dtsTemplate in
  let dtsTemplate :=
    if JS.truthy (ri_requestBodyType requestItem)
    then dtsTemplate +:+
         createTypeTemplate (scopeRefName +:+ TYPE_NAME_SUFFIXES.data)
           (ri_requestBodyType requestItem) false
    else dtsTemplate in
  dtsTemplate +:+
  createTypeTemplate (scopeRefName +:+ TYPE_NAME_SUFFIXES.res)
    (JS.or (ri_responseType requestItem) "any")
    (isSome (cfg_responseRootInterface docOptions)).





(** The text of the declaration file of the whole document, written
    once for every group. *)
Definition documentTypesTemplate : string :=
  let template :=
    match cfg_responseRootInterface docOptions with
    | Some resRoot =>
        List.fold_left
          (fun template '(prop, type) =>
             template +:+ "  " +:+ prop +:+ ": " +:+ type
             +:+ String "010" "")
          resRoot
          ("interface " +:+ TYPE_NAME_SUFFIXES.resRoot +:+ "<T> {"
           +:+ String "010" "")
        +:+ "}" +:+ String "010" ""
    | None => ""
    end in
  let template := template +:+ typesTemplate ps in
  let template := template +:+ interfacesTemplate ps in
  JS.join (String "010" "")
    [ "declare namespace API {";
      "namespace " +:+ scopeName pascalCase docOptions +:+ " {";
      "";
      template;
      "}}";
      "" ].

End Document.

(** [generate] picks the translator by ['swagger' in doc]. *)
Definition parsePaths (pascalCase : string -> string)
    (regExpReplace : string -> string -> option string)
    (docOptions : DocConfig) (doc : Document) : M unit :=
  if isSome (doc_swagger doc)
  then ParseSchemasV2.parsePaths pascalCase doc docOptions
  else ParseSchemas.parsePaths pascalCase regExpReplace doc docOptions.

End Generator.

(** ** A model of [pascalCase] to run examples with

    The function of change-case on ASCII input: the input is cut into
    words where a lower-case letter or digit meets an upper-case letter,
    before the last capital of a run of capitals that a lower-case letter
    follows, and at every run of characters that are neither letters nor
    digits; each word is written with its first letter in upper case and
    the rest in lower case (a word after the first that starts with a
    digit gets an underscore before it). The general results take
    [pascalCase] as a parameter; this model only evaluates examples. *)

Module ChangeCase.

Definition isAlnum (c : ascii) : bool :=
  JS.isLower c || JS.isUpper c || JS.isDigit c.

(** Cut [s] into words; [cur] is the word being read, reversed. *)
Fixpoint splitWords (s : string) (cur : list ascii) (acc : list (list ascii))
    : list (list ascii) :=
  let flush := match cur with [] => acc | _ => acc ++ [rev cur] end in
  match s with
  | EmptyString => flush
  | String c r =>
      if negb (isAlnum c) then splitWords r [] flush
      else
        let boundary :=
          match cur with
          | [] => false
          | p :: _ =>
              JS.isUpper c &&
              ((JS.isLower p || JS.isDigit p) ||
               (JS.isUpper p &&
                match r with
                | String n _ => JS.isLower n
                | EmptyString => false
                end))
          end in
        if boundary then splitWords r [c] flush
        else splitWords r (c :: cur) acc
  end.

Definition transformWord (index : nat) (word : list ascii) : string :=
  match word with
  | [] => ""
  | c :: rest =>
      let initial :=
        if (0 <? index)%nat && JS.isDigit c then String "_" (String c "")
        else String (JS.toUpperCaseChar c) "" in
      initial +:+ JS.toLowerCase (string_of_list_ascii rest)
  end.

Definition pascalCase (input : string) : string :=
  JS.join "" (imap transformWord (splitWords input [] [])).

End ChangeCase.

(** ** A model of [regExpReplace] to run examples with

    It reads the patterns [(tag_)?(method)?] that the translator builds
    from a tag and a method that are literal patterns. Both groups are
    optional, so the first match is at index 0: the first group takes
    [tag_] when the source starts with it, letters compared without
    case, and there the second takes [method] when it follows. Another
    pattern it does not read, and answers as for a malformed one. The
    general results take [regExpReplace] as a parameter; this model only
    evaluates examples. *)

Module LiteralRegExp.

(** [s] up to its first [c], and what follows that [c]. *)
Fixpoint upTo (c : ascii) (s : string) : option (string * string) :=
  match s with
  | EmptyString => None
  | String d r =>
      if Ascii.eqb d c then Some (EmptyString, r)
      else match upTo c r with
           | Some (before, after) => Some (String d before, after)
           | None => None
           end
  end.

(** The groups [g1] and [g2] of a pattern [(g1)?(g2)?]. *)
Definition groups (pattern : string) : option (string * string) :=
  rest ← JS.stripPrefix "(" pattern;
  '(g1, rest) ← upTo ")" rest;
  rest ← JS.stripPrefix "?(" rest;
  '(g2, rest) ← upTo ")" rest;
  if String.eqb rest "?" then Some (g1, g2) else None.

(** [s] without the prefix [p], compared without case, if it has it. *)
Definition without (p s : string) : string :=
  match JS.stripPrefixCI p s with
  | Some rest => rest
  | None => s
  end.

Definition regExpReplace (pattern source : string) : option string :=
  match groups pattern with
  | Some (g1, g2) =>
      if JS.isLiteralPattern g1 && JS.isLiteralPattern g2
      then Some (without g2 (without g1 source))
      else None
  | None => None
  end.

End LiteralRegExp.

(** ** Sample inputs *)

Module Samples.

(** A configuration with nothing but a name. *)
Definition config : DocConfig :=
  {| cfg_name := "demo"; cfg_ssr := None;
     cfg_importRequestFromPath := None; cfg_importAxiosTypesFromPath := None;
     cfg_include := None;
     cfg_exclude := None; cfg_urlPrefix := None; cfg_removeUrlPrefix := None;
     cfg_responseRootInterface := None; cfg_customResponseReturnPath := None;
     cfg_propKeyReplacer := None; cfg_urlToNameReplacer := None;
     cfg_getTag := None; cfg_manualTypes := ∅ |}.

(** [{ include: [] }] *)
Definition configEmptyInclude : DocConfig :=
  {| cfg_name := "demo"; cfg_ssr := None;
     cfg_importRequestFromPath := None; cfg_importAxiosTypesFromPath := None;
     cfg_include := Some [];
     cfg_exclude := None; cfg_urlPrefix := None; cfg_removeUrlPrefix := None;
     cfg_responseRootInterface := None; cfg_customResponseReturnPath := None;
     cfg_propKeyReplacer := None; cfg_urlToNameReplacer := None;
     cfg_getTag := None; cfg_manualTypes := ∅ |}.

(** [{ include: ['Article'], exclude: ['draft'] }] *)
Definition configArticle : DocConfig :=
  {| cfg_name := "demo"; cfg_ssr := None;
     cfg_importRequestFromPath := None; cfg_importAxiosTypesFromPath := None;
     cfg_include := Some ["Article"];
     cfg_exclude := Some ["draft"]; cfg_urlPrefix := None;
     cfg_removeUrlPrefix := None; cfg_responseRootInterface := None;
     cfg_customResponseReturnPath := None; cfg_propKeyReplacer := None;
     cfg_urlToNameReplacer := None; cfg_getTag := None;
     cfg_manualTypes := ∅ |}.

(** [{ $ref: ref }] *)
Definition refNode (ref : string) : Schema :=
  {| s_ref := Some ref; s_description := None; s_deprecated := false;
     s_allOf := None; s_oneOf := None; s_anyOf := None; s_type := TypeAbsent;
     s_enum := None; s_items := ItemsAbsent; s_properties := None;
     s_additionalProperties := AdditionalAbsent |}.

(** [{ type: t }] *)
Definition typed (t : string) : Schema :=
  {| s_ref := None; s_description := None; s_deprecated := false;
     s_allOf := None; s_oneOf := None; s_anyOf := None; s_type := TypeName t;
     s_enum := None; s_items := ItemsAbsent; s_properties := None;
     s_additionalProperties := AdditionalAbsent |}.

(** [{ type: 'string', enum: values }] *)
Definition enumOf (values : list string) : Schema :=
  {| s_ref := None; s_description := None; s_deprecated := false;
     s_allOf := None; s_oneOf := None; s_anyOf := None;
     s_type := TypeName "string"; s_enum := Some values;
     s_items := ItemsAbsent; s_properties := None;
     s_additionalProperties := AdditionalAbsent |}.

(** [{ type: 'array', items: item }] *)
Definition arrayOf (item : Schema) : Schema :=
  {| s_ref := None; s_description := None; s_deprecated := false;
     s_allOf := None; s_oneOf := None; s_anyOf := None;
     s_type := TypeName "array"; s_enum := None; s_items := ItemsOne item;
     s_properties := None; s_additionalProperties := AdditionalAbsent |}.

(** [{ type: 'object', properties: props }] *)
Definition objectOf (props : list (string * Schema)) : Schema :=
  {| s_ref := None; s_description := None; s_deprecated := false;
     s_allOf := None; s_oneOf := None; s_anyOf := None;
     s_type := TypeName "object"; s_enum := None; s_items := ItemsAbsent;
     s_properties := Some props; s_additionalProperties := AdditionalAbsent |}.

(** [{ oneOf: members }] *)
Definition oneOf (members : list Schema) : Schema :=
  {| s_ref := None; s_description := None; s_deprecated := false;
     s_allOf := None; s_oneOf := Some members; s_anyOf := None;
     s_type := TypeAbsent; s_enum := None; s_items := ItemsAbsent;
     s_properties := None; s_additionalProperties := AdditionalAbsent |}.

(** An OpenAPI 3 parameter [{ name, in, schema }]. *)
Definition param (name location : string) (schema : Schema) : Param :=
  {| p_name := name; p_in := location; p_schema := Some schema;
     p_node := emptySchema |}.

(** A Swagger 2 parameter [{ name, in, type }]. *)
Definition paramV2 (name location type : string) : Param :=
  {| p_name := name; p_in := location; p_schema := None;
     p_node := typed type |}.

(** A parameter given as [{ $ref: ref }]. *)
Definition paramRef (ref : string) : Param :=
  {| p_name := ""; p_in := ""; p_schema := None; p_node := refNode ref |}.

(** An operation with parameters and a 200 response. *)
Definition operation (operationId : option string) (parameters : list Param)
    (response : option Response) : Operation :=
  {| op_tags := None; op_operationId := operationId; op_description := None;
     op_parameters := Some parameters; op_requestBody := None;
     op_response200 := response |}.

(** An OpenAPI 3 document with one path. *)
Definition docV3 (url : string) (pathItem : PathItem)
    (schemas : gmap string Schema) : Document :=
  {| doc_swagger := None; doc_paths := Some [(url, pathItem)];
     doc_schemas := Some schemas; doc_definitions := None |}.

(** A Swagger 2 document with one path. *)
Definition docV2 (url : string) (pathItem : PathItem)
    (definitions : gmap string Schema) : Document :=
  {| doc_swagger := Some "2.0"; doc_paths := Some [(url, pathItem)];
     doc_schemas := None; doc_definitions := Some definitions |}.

(** A response [{ content: { 'application/json': { schema } } }]. *)
Definition jsonResponse (schema : Schema) : Response :=
  {| res_ref := None; res_jsonSchema := Some schema; res_schema := None |}.

(** [GET /users] with [operationId: getUser], no tags. *)
Definition getUser : Operation := operation (Some "getUser") [] None.

Definition usersV3 : Document := docV3 "/users" [("get", getUser)] ∅.
Definition usersV2 : Document := docV2 "/users" [("get", getUser)] ∅.

(** [POST /upload] of Swagger 2 with two form-data fields. *)
Definition upload : Operation :=
  operation None
    [paramV2 "file" "formData" "file"; paramV2 "title" "formData" "string"]
    None.

Definition uploadV2 : Document := docV2 "/upload" [("post", upload)] ∅.

(** A schema that refers to itself, read by two operations; a third
    operation sits under [patch]. *)
Definition pet : Schema :=
  objectOf [("name", typed "string");
            ("parent", refNode "#/components/schemas/api.Pet")].

Definition petRef : string := "#/components/schemas/api.Pet".

Definition getPet : Operation :=
  operation (Some "getPet")
    [param "petId" "path" (typed "integer")]
    (Some (jsonResponse (refNode petRef))).

Definition listPets : Operation :=
  operation (Some "listPets") []
    (Some (jsonResponse (arrayOf (refNode petRef)))).

Definition petsV3 : Document :=
  {| doc_swagger := None;
     doc_paths :=
       Some [("/pets/{petId}", [("get", getPet); ("patch", getPet)]);
             ("/pets", [("get", listPets)])];
     doc_schemas := Some (<["api.Pet" := pet]> ∅);
     doc_definitions := None |}.

End Samples.


(** ** Predicates of the statements *)

Module Statements.

(** [P] holds of every node directly under [s]. *)
Definition ForallSub (P : Schema -> Prop) (s : Schema) : Prop :=
  match s_allOf s with Some l => Forall P l | None => True end /\
  match s_oneOf s with Some l => Forall P l | None => True end /\
  match s_anyOf s with Some l => Forall P l | None => True end /\
  match s_items s with
  | ItemsAbsent => True
  | ItemsOne item => P item
  | ItemsMany items => Forall P items
  end /\
  match s_properties s with
  | Some props => Forall (fun kv => P (snd kv)) props
  | None => True
  end /\
  match s_additionalProperties s with
  | AdditionalSchema node => P node
  | _ => True
  end.

(** A node that is an array of one item node: no [$ref], no
    combinator, [type: 'array'], [items] an object. *)
Definition ArrayOf (s item : Schema) : Prop :=
  Common.isRef (s_ref s) = false /\
  s_allOf s = None /\ s_oneOf s = None /\ s_anyOf s = None /\
  s_type s = TypeName "array" /\ s_items s = ItemsOne item.

(** From a state in [P], [m] does not run out of fuel, and a state it
    ends in is related to the one it started from. *)
Definition respects (P : State -> Prop) (R : State -> State -> Prop)
    {A : Type} (m : M A) : Prop :=
  forall st, P st ->
    match m st with
    | Ok _ st' => R st st'
    | Fail e => e <> FuelExhausted
    end.

(** No condition on the state a method starts from. *)
Definition anyState (st : State) : Prop := True.

(** What the pattern [(tag_)?(method)?] removes from [source] when
    [tag] and [method] are literal patterns: a leading [tag_] if there
    is one, and then a leading [method] if there is one, letters
    compared without case (both groups are optional, so the first match
    is at index 0, and each group is greedy). *)
Definition withoutDuplicatePrefix (tag method source : string) : string :=
  let afterTag :=
    match JS.stripPrefixCI (tag +:+ "_") source with
    | Some rest => rest
    | None => source
    end in
  match JS.stripPrefixCI method afterTag with
  | Some rest => rest
  | None => afterTag
  end.


(** What an entry of the history added to each template. *)
Definition interfaceText (e : Appended) : string :=
  match e with
  | AppendedComment text => text
  | AppendedDeclaration DeclInterface _ text => text
  | AppendedDeclaration DeclType _ _ => ""
  end.

Definition typeText (e : Appended) : string :=
  match e with
  | AppendedDeclaration DeclType _ text => text
  | _ => ""
  end.

(** The templates hold what the history says was appended to them. *)
Definition Linked (st : State) : Prop :=
  interfacesTemplate st = renderInterfaces (appended st) /\
  typesTemplate st = renderTypes (appended st).

(** The text of a declaration as [refSchema] writes it. *)
Definition declarationText (kind : DeclKind) (typeName schemaType : string)
    : string :=
  match kind with
  | DeclInterface =>
      String "010" "interface " +:+ typeName +:+ " " +:+ schemaType
  | DeclType => String "010" "type " +:+ typeName +:+ " = " +:+ schemaType
  end.

(** An entry of the history that is a declaration holds the text of a
    declaration of its name. *)
Definition Formed (e : Appended) : Prop :=
  match e with
  | AppendedComment _ => True
  | AppendedDeclaration kind typeName text =>
      exists schemaType, text = declarationText kind typeName schemaType
  end.

(** What a run does to the registry and to the templates: registered
    names stay registered; the run appends texts to the templates, and
    the declarations among them are well formed and bear, each once,
    the names that the run registered. *)
Record Pass (st st' : State) : Prop :=
  mkPass {
    pass_refs : forall T, refSeen st T = true -> refSeen st' T = true;
    pass_declared :
      exists new,
        appended st' = appended st ++ new /\
        Forall Formed new /\
        NoDup (declaredIn new) /\
        forall T, T ∈ declaredIn new <->
                  refSeen st T = false /\ refSeen st' T = true;
    pass_linked : Linked st -> Linked st'
  }.

(** A run of the translators of nodes also leaves the groups and the
    console alone. *)
Definition Core (st st' : State) : Prop :=
  tags st' = tags st /\ console st' = console st /\ Pass st st'.

(** A run of the loop over the parameters leaves the groups alone. *)
Definition Loop (st st' : State) : Prop :=
  tags st' = tags st /\ Pass st st'.

(** The schemas whose type name is not registered yet. *)
Definition unseen (pascalCase : string -> string)
    (schemas : option (gmap string Schema)) (st : State) : gset string :=
  filter (fun name =>
            refSeen st (Common.formatSchemaName pascalCase name) = false)
         (dom (default ∅ schemas)).

(** [fuel] covers the references that can still be entered, and one
    more. *)
Definition Fuel (pascalCase : string -> string)
    (schemas : option (gmap string Schema)) (fuel : nat) (st : State) : Prop :=
  size (unseen pascalCase schemas st) < fuel.



(** The lines that a loop over [params] writes to the console: one for
    each parameter given as a reference, in order. *)
Definition warnings (params : list Param) : list LogEntry :=
  List.map LogParamRef
    (List.filter (fun paramItem => Common.isRef (p_ref paramItem)) params).

(** What it is for the loop of [parseParamsSchema] to skip the parameter
    [p] of the list [before ++ p :: after] with a warning; [parseParam]
    is an iteration of the loop, [start] the buffers it starts from,
    [close] what follows it and [run] the method on the operation.
    - The iteration at [p] never fails: it hands back the buffers it
      got, writes one line to the console and nothing else.
    - A run that returns went through the parameters of [before],
      through [p], and through those of [after] from the buffers and the
      instance that [before] left, but for the line on the console; the
      console holds one line for each parameter given as a reference.
    - A run goes through whenever the parameters of [before] and of
      [after] do; one that fails fails at one of them. *)
Definition SkippedWithWarning {B R : Type} (parseParam : B -> Param -> M B)
    (run : M R) (start : B) (close : B -> R) (before after : list Param)
    (p : Param) : Prop :=
  (forall b st, exists st',
      parseParam b p st = Ok b st' /\
      console st' = console st ++ [LogParamRef p] /\
      tags st' = tags st /\ refs st' = refs st /\
      typesTemplate st' = typesTemplate st /\
      interfacesTemplate st' = interfacesTemplate st) /\
  (forall st r st',
      run st = Ok r st' ->
      exists b1 st1 st1' b2,
        foldM parseParam start before st = Ok b1 st1 /\
        parseParam b1 p st1 = Ok b1 st1' /\
        foldM parseParam b1 after st1' = Ok b2 st' /\
        r = close b2 /\
        console st' = console st ++ warnings (before ++ p :: after)) /\
  (forall st b1 st1 st1' b2 st',
      foldM parseParam start before st = Ok b1 st1 ->
      parseParam b1 p st1 = Ok b1 st1' ->
      foldM parseParam b1 after st1' = Ok b2 st' ->
      run st = Ok (close b2) st') /\
  (forall st e,
      run st = Fail e ->
      foldM parseParam start before st = Fail e \/
      exists b1 st1 st1',
        foldM parseParam start before st = Ok b1 st1 /\
        parseParam b1 p st1 = Ok b1 st1' /\
        foldM parseParam b1 after st1' = Fail e).

(** Every item of every group satisfies [Q]. *)
Definition AllItems (Q : RequestItem -> Prop) (st : State) : Prop :=
  forall tag items, tags st !! tag = Some items -> Forall Q items.

(** The item comes from a key of a path item of the document that is
    an HTTP method in upper case. *)
Definition FromDocument (doc : Document) (item : RequestItem) : Prop :=
  Utils.inHttpMethods (JS.toUpperCase (ri_method item)) = true /\
  exists pathItem operationItem,
    (ri_url item, pathItem) ∈ default [] (doc_paths doc) /\
    (ri_method item, operationItem) ∈ (pathItem : PathItem).

(** The body buffer once a form-data field was written to it. *)
Definition FormDataStarted (b : ParseSchemasV2.Buffers) : Prop :=
  ParseSchemasV2.isFormDataBody b = true /\
  exists rest, ParseSchemasV2.body b = String "{" rest.

(** A parameter that writes nothing to the body buffer: a reference,
    or one that is neither a form-data field nor the body [root]. *)
Definition LeavesBody (p : Param) : Prop :=
  ParseSchemasV2.isRef (p_ref p) = true \/
  (p_in p <> "formData" /\ ~ (p_in p = "body" /\ p_name p = "root")).

(** The same item with another form-data flag. *)
Definition withFormDataFlag (flag : option bool) (item : RequestItem)
    : RequestItem :=
  {| ri_name := ri_name item; ri_url := ri_url item;
     ri_method := ri_method item; ri_description := ri_description item;
     ri_requestPathType := ri_requestPathType item;
     ri_requestQueryType := ri_requestQueryType item;
     ri_requestBodyType := ri_requestBodyType item;
     ri_requestBodyTypeIsFormData := flag;
     ri_responseType := ri_responseType item |}.

(** The text of one field of a record type of [jsonToType]. *)
Definition fieldText (kv : string * Json) : string :=
  Utils.toSafePropKey (fst kv) +:+ ": "
  +:+ RequestResponseType.jsonToType (snd kv) +:+ ";".

End Statements.

Import Statements.


(** ** Predicates and inputs of the further properties *)

Module Predicates.

(** No line terminator in [s]. *)
Definition singleLine (s : string) : bool :=
  Utils.allChars (fun c => negb (Generator.isLineTerminator c)) s.

(** No reference node in [s], at any depth. *)
Fixpoint refFree (s : Schema) : bool :=
  negb (Common.isRef (s_ref s))
  && match s_allOf s with Some l => forallb refFree l | None => true end
  && match s_oneOf s with Some l => forallb refFree l | None => true end
  && match s_anyOf s with Some l => forallb refFree l | None => true end
  && match s_items s with
     | ItemsAbsent => true
     | ItemsOne item => refFree item
     | ItemsMany items => forallb refFree items
     end
  && match s_properties s with
     | Some props => forallb (fun kv => refFree (snd kv)) props
     | None => true
     end
  && match s_additionalProperties s with
     | AdditionalSchema node => refFree node
     | _ => true
     end.

(** A run that hands back [a] and leaves the state alone, or stops
    with a [TypeError]. *)
Definition outcome {A : Type} (r : option A) (st : State) : Res A :=
  match r with
  | Some a => Ok a st
  | None => Fail TypeError
  end.

(** A family of runs that all end alike and leave the state alone. *)
Definition Alike {I A : Type} (m : I -> M A) : Prop :=
  exists r, forall i st, m i st = outcome r st.

(** A parameter written out in the operation (not a reference) whose
    [in] is [location]. *)
Definition inlineIn (location : string) (p : Param) : bool :=
  negb (Common.isRef (p_ref p)) && String.eqb (p_in p) location.

(** A type that is a block of lines between braces when [selected],
    and empty otherwise. *)
Definition Block (selected : bool) (type : string) : Prop :=
  if selected
  then exists fields, type = "{" +:+ String "010" "" +:+ fields +:+ "}"
  else type = "".

(** The URL and the method of an item. *)
Definition itemKey (item : RequestItem) : string * string :=
  (ri_url item, ri_method item).

(** Whether an operation is filed under [group]: its key is an HTTP
    method, the tag [tagOf] gives it passes the filter of [config],
    and that tag is [group]. *)
Definition filed (config : DocConfig)
    (tagOf : string -> string -> Operation -> string) (group url : string)
    (entry : string * Operation) : bool :=
  Utils.inHttpMethods (JS.toUpperCase (fst entry))
  && TagValidator.validate (TagValidator.new config)
       (tagOf url (fst entry) (snd entry))
  && String.eqb (tagOf url (fst entry) (snd entry)) group.

(** The URL and the key of every operation of a path item, and of
    the document, that is filed under [group], in the order of the
    document. *)
Definition filedOfPath (config : DocConfig)
    (tagOf : string -> string -> Operation -> string) (group : string)
    (path : string * PathItem) : list (string * string) :=
  List.map (fun entry => (fst path, fst entry))
    (List.filter (filed config tagOf group (fst path)) (snd path)).

Definition filedUnder (config : DocConfig)
    (tagOf : string -> string -> Operation -> string) (group : string)
    (doc : Document) : list (string * string) :=
  flat_map (filedOfPath config tagOf group) (default [] (doc_paths doc)).

(** The keys of the items of a group, if the group exists. *)
Definition keysOf (st : State) (group : string)
    : option (list (string * string)) :=
  List.map itemKey <$> tags st !! group.

(** A group after more items were filed under it. *)
Definition extend (o : option (list (string * string)))
    (more : list (string * string)) : option (list (string * string)) :=
  match more with
  | [] => o
  | _ :: _ => Some (default [] o ++ more)
  end.

(** [item[k]] for a key of [manualTypes]. *)
Definition getField (k : TypeField) (item : RequestItem) : string :=
  match k with
  | RequestQueryType => ri_requestQueryType item
  | RequestPathType => ri_requestPathType item
  | RequestBodyType => ri_requestBodyType item
  | ResponseType => ri_responseType item
  end.

(** [mergeManualTypes] from the middle of its first loop: the item
    as it is then, the tasks that wait, the entries still to read. *)
Definition settle (manualTypes : list (TypeField * ManualType))
    (item : RequestItem) (pending : list (TypeField * ManualValue))
    : RequestItem :=
  let started :=
    List.fold_left
      (fun '(item, pending) '(k, t) =>
         match t with
         | ManualGiven v =>
             if ParseSchemasV2.manualTruthy v
             then (ParseSchemasV2.setField k
                     (ParseSchemasV2.manualResolve v) item, pending)
             else (item, pending)
         | ManualFunction f => (item, pending ++ [(k, f item)])
         end)
      manualTypes (item, pending) in
  List.fold_left
    (fun item '(k, v) =>
       ParseSchemasV2.setField k (ParseSchemasV2.manualResolve v) item)
    (snd started) (fst started).

(** Where the declaration of [schemaItem] under [typeName] and its
    comment stand once [refSchema] has written them: an interface
    ends [interfacesTemplate] with its comment before it; a type
    alias ends [typesTemplate] and its comment ends
    [interfacesTemplate]. *)
Definition Placed (schemaItem : Schema) (typeName : string) (st : State)
    : Prop :=
  exists schemaType,
    if Common.isInterface schemaItem
    then JS.endsWith (Common.getSchemaItemComment schemaItem
                      +:+ declarationText DeclInterface typeName schemaType)
           (interfacesTemplate st) = true
    else JS.endsWith (declarationText DeclType typeName schemaType)
           (typesTemplate st) = true /\
         JS.endsWith (Common.getSchemaItemComment schemaItem)
           (interfacesTemplate st) = true.

End Predicates.

Import Predicates.

(** ** Further sample inputs *)

Module Cases.

(** [{ removeUrlPrefix: '/api', urlPrefix: '/v2' }] *)
Definition configPrefixes : DocConfig :=
  {| cfg_name := "demo"; cfg_ssr := None;
     cfg_importRequestFromPath := None; cfg_importAxiosTypesFromPath := None;
     cfg_include := None;
     cfg_exclude := None; cfg_urlPrefix := Some "/v2";
     cfg_removeUrlPrefix := Some "/api";
     cfg_responseRootInterface := None;
     cfg_customResponseReturnPath := None; cfg_propKeyReplacer := None;
     cfg_urlToNameReplacer := None; cfg_getTag := None;
     cfg_manualTypes := ∅ |}.

(** Two schemas whose keys format to the same type name. *)
Definition twoPets : Document :=
  {| doc_swagger := None; doc_paths := None;
     doc_schemas :=
       Some (<["api.Pet" := Samples.pet]>
               (<["Pet" := Samples.typed "string"]> ∅));
     doc_definitions := None |}.

(** [{ type: 'object', properties: { name: { type: 'string' } } }] *)
Definition named : Schema :=
  Samples.objectOf [("name", Samples.typed "string")].

(** A Swagger 2 operation with a path parameter and a body [root]. *)
Definition rename : Operation :=
  Samples.operation None
    [Samples.paramV2 "id" "path" "integer";
     Samples.param "root" "body" (Samples.arrayOf (Samples.typed "string"))]
    None.

(** A request item as [parsePaths] stores it. *)
Definition item : RequestItem :=
  {| ri_name := "getUsers"; ri_url := "/users"; ri_method := "get";
     ri_description := ""; ri_requestPathType := "";
     ri_requestQueryType := ""; ri_requestBodyType := "";
     ri_requestBodyTypeIsFormData := Some false;
     ri_responseType := "User[]" |}.

(** [{ responseType: 'Blob', requestQueryType: '',
       requestBodyType: { id: 1 } }] *)
Definition manual : list (TypeField * ManualType) :=
  [(ResponseType, ManualGiven (ManualString "Blob"));
   (RequestQueryType, ManualGiven (ManualString ""));
   (RequestBodyType,
    ManualGiven (ManualData (JObject [("id", JNumber 1)])))].


(** A schema that is not an object, with a description. *)
Definition status : Schema :=
  {| s_ref := None; s_description := Some "state of an order";
     s_deprecated := false; s_allOf := None; s_oneOf := None;
     s_anyOf := None; s_type := TypeName "string";
     s_enum := Some ["open"; "done"]; s_items := ItemsAbsent;
     s_properties := None; s_additionalProperties := AdditionalAbsent |}.

Definition orders : Document :=
  {| doc_swagger := None; doc_paths := None;
     doc_schemas := Some (<["Status" := status]> ∅);
     doc_definitions := None |}.

(** A Swagger 2 operation whose body parameter is named [body]. *)
Definition create : Operation :=
  Samples.operation None
    [Samples.param "body" "body" named] None.

(** A parameter given as [{ $ref: '#/components/parameters/Page' }]
    between two inline parameters, in OpenAPI 3 and in Swagger 2. *)
Definition page : Param := Samples.paramRef "#/components/parameters/Page".

Definition paged : Operation :=
  Samples.operation None
    [Samples.param "id" "path" (Samples.typed "integer");
     page;
     Samples.param "q" "query" (Samples.typed "string")] None.

Definition pagedV2 : Operation :=
  Samples.operation None
    [Samples.paramV2 "id" "path" "integer";
     page;
     Samples.paramV2 "q" "query" "string"] None.

End Cases.

(** * Properties *)

(** ** Strings *)

Module StringFacts.

Lemma append_cons (c : ascii) (s t : string) :
  String c s +:+ t = String c (s +:+ t).
Proof. reflexivity. Qed.

Lemma append_nil_l (s : string) : "" +:+ s = s.
Proof. reflexivity. Qed.

Lemma append_nil_r (s : string) : s +:+ "" = s.
Proof.
  induction s as [|c s IH]; [reflexivity|]. by rewrite append_cons, IH.
Qed.

Lemma append_assoc (a b c : string) : (a +:+ b) +:+ c = a +:+ (b +:+ c).
Proof.
  induction a as [|x a IH]; [reflexivity|]. by rewrite !append_cons, IH.
Qed.

Lemma length_append (a b : string) :
  String.length (a +:+ b) = String.length a + String.length b.
Proof.
  induction a as [|c a IH]; [reflexivity|].
  rewrite append_cons. simpl. by rewrite IH.
Qed.

Lemma prefix_append (p s : string) : String.prefix p (p +:+ s) = true.
Proof.
  induction p as [|c p IH]; [by destruct s|].
  rewrite append_cons. simpl. destruct (ascii_dec c c); [exact IH | done].
Qed.

Lemma concat_empty_cons (x : string) (xs : list string) :
  String.concat "" (x :: xs) = x +:+ String.concat "" xs.
Proof. destruct xs; simpl; [by rewrite append_nil_r | reflexivity]. Qed.

Lemma truthy_append_l (a b : string) :
  JS.truthy a = true -> JS.truthy (a +:+ b) = true.
Proof. by destruct a. Qed.

End StringFacts.

(** ** Members inherited from [Object.prototype] *)

Module InheritedFacts.

Lemma inherited_name (key : string) :
  JS.inherited key = true -> key ∈ JS.objectPrototypeKeys.
Proof.
  unfold JS.inherited. rewrite existsb_exists.
  intros (name & Hin & E). apply String.eqb_eq in E. subst name.
  by apply list_elem_of_In.
Qed.

(** Each of the names holds the letter [t] or the letter [e]. *)
Lemma inherited_letter (key : string) :
  JS.inherited key = true ->
  JS.occurs "t" key = true \/ JS.occurs "e" key = true.
Proof.
  intros H. apply inherited_name in H. unfold JS.objectPrototypeKeys in H.
  repeat (apply elem_of_cons in H as [->|H]; [vm_compute; auto|]).
  by apply elem_of_nil in H.
Qed.

Lemma occurs_mapChars (f : ascii -> ascii) (c : ascii) (s : string) :
  (forall d, Ascii.eqb (f d) c = false) ->
  JS.occurs c (JS.mapChars f s) = false.
Proof.
  intros Hf. induction s as [|d s IH]; [reflexivity|].
  cbn [JS.mapChars JS.occurs]. by rewrite Hf, IH.
Qed.

Lemma toUpperCaseChar_upper (d : ascii) :
  JS.isLower (JS.toUpperCaseChar d) = false.
Proof. by destruct d as [[] [] [] [] [] [] [] []]. Qed.

Lemma toUpperCaseChar_not_lower (d c : ascii) :
  JS.isLower c = true -> Ascii.eqb (JS.toUpperCaseChar d) c = false.
Proof.
  intros Hc. destruct (Ascii.eqb_spec (JS.toUpperCaseChar d) c) as [E|];
    [|reflexivity].
  rewrite <- E, toUpperCaseChar_upper in Hc. discriminate Hc.
Qed.

(** No text in upper case is the name of an inherited member. *)
Lemma inherited_upper (key : string) :
  JS.inherited (JS.toUpperCase key) = false.
Proof.
  destruct (JS.inherited (JS.toUpperCase key)) eqn:E; [|reflexivity].
  apply inherited_letter in E. unfold JS.toUpperCase in E.
  rewrite !occurs_mapChars in E
    by (intros d; by apply toUpperCaseChar_not_lower).
  by destruct E.
Qed.

(** [key in HttpMethods] for a key in upper case asks for the four
    own properties. *)
Lemma inHttpMethods_upper (key : string) :
  Utils.inHttpMethods (JS.toUpperCase key)
  = existsb (String.eqb (JS.toUpperCase key)) Utils.HttpMethods.
Proof.
  unfold Utils.inHttpMethods. by rewrite inherited_upper, orb_false_r.
Qed.

(** The names start with a letter or with [_], and end with a letter
    or with [_]. *)
Lemma inherited_start (c : ascii) (rest : string) :
  Utils.isIdentStart c = false -> JS.inherited (String c rest) = false.
Proof.
  intros Hc. destruct (JS.inherited (String c rest)) eqn:E; [|reflexivity].
  apply inherited_name in E. unfold JS.objectPrototypeKeys in E.
  repeat (apply elem_of_cons in E as [E|E];
          [injection E as -> _; discriminate Hc|]).
  by apply elem_of_nil in E.
Qed.

Lemma inherited_end (key : string) (c : ascii) (rest : string) :
  Utils.isIdentStart c = false ->
  JS.endsWith (String c rest) key = true -> JS.inherited key = false.
Proof.
  intros Hc Hend.
  destruct (JS.inherited key) eqn:H; [|reflexivity].
  apply inherited_name in H. unfold JS.objectPrototypeKeys in H.
  assert (forall s, Utils.allChars Utils.isIdentStart s = true ->
                    JS.endsWith (String c rest) s = false) as none.
  { induction s as [|d s IH]; [reflexivity|].
    cbn [Utils.allChars JS.endsWith String.eqb]. intros Hs.
    apply andb_true_iff in Hs as [Hd Hs]. rewrite (IH Hs), orb_false_r.
    destruct (Ascii.eqb_spec c d) as [->|]; [congruence | reflexivity]. }
  repeat (apply elem_of_cons in H as [->|H];
          [rewrite none in Hend by reflexivity; discriminate Hend|]).
  by apply elem_of_nil in H.
Qed.

End InheritedFacts.

(** ** The tag filter *)

Module TagValidatorFacts.
Import TagValidator.

Lemma indexOf_range (l : list string) (x : string) :
  (-1 <= JS.indexOf l x)%Z.
Proof.
  induction l as [|y r IH]; simpl; [lia|].
  destruct (String.eqb y x); [lia|].
  destruct (JS.indexOf r x <? 0)%Z eqn:E; lia.
Qed.

Lemma indexOf_found (l : list string) (x : string) :
  (0 <= JS.indexOf l x)%Z <-> x ∈ l.
Proof.
  induction l as [|y r IH]; simpl.
  - split; [lia | intros H; inversion H].
  - destruct (String.eqb_spec y x) as [->|Hne].
    + split; [intros _; left | lia].
    + destruct (JS.indexOf r x <? 0)%Z eqn:E.
      * apply Z.ltb_lt in E. split; [lia|].
        intros H. apply elem_of_cons in H as [H|H]; [congruence|].
        apply IH in H. lia.
      * apply Z.ltb_ge in E. split; [|lia].
        intros _. right. by apply IH.
Qed.

Section Over.

Variable toUpperCase : string -> string.

Lemma indexOf_upper (l : list string) (tag : string) :
  (0 <= JS.indexOf (List.map (upperCaseOver toUpperCase) l)
                   (upperCaseOver toUpperCase tag))%Z <->
  exists x, x ∈ l /\ toUpperCase x = toUpperCase tag.
Proof.
  rewrite indexOf_found.
  change (List.map (upperCaseOver toUpperCase) l)
    with (upperCaseOver toUpperCase <$> l).
  rewrite list_elem_of_fmap. unfold upperCaseOver. split.
  - intros (x & E & H). eauto.
  - intros (x & H & E). eauto.
Qed.

(** The tag filter as the code decides it: a configured include
    list rejects every tag outside it, the empty list included. *)
Lemma validate_policy (config : DocConfig) (tag : string) :
  validateOver toUpperCase (newOver toUpperCase config) tag = true <->
  match cfg_include config with
  | Some inc => exists x, x ∈ inc /\ toUpperCase x = toUpperCase tag
  | None => True
  end /\
  match cfg_exclude config with
  | Some exc => ~ exists x, x ∈ exc /\ toUpperCase x = toUpperCase tag
  | None => True
  end.
Proof.
  unfold validateOver, newOver; simpl.
  destruct (cfg_include config) as [inc|], (cfg_exclude config) as [exc|];
    simpl.
  all: repeat match goal with
         | |- context [(?a <? 0)%Z] => destruct (Z.ltb_spec a 0)
         | |- context [(?a >=? 0)%Z] =>
             rewrite (Z.geb_leb a 0); destruct (Z.leb_spec 0 a)
         end.
  all: rewrite <- ?indexOf_upper.
  all: try (split; [discriminate | lia]).
  all: try (split; [intros _; split; (lia || trivial) | reflexivity]).
  all: try (split; [discriminate | intros [? ?]; lia]).
Qed.

End Over.

(** C2 (as amended). Whatever function folds the case
    ([String.prototype.toUpperCase] in the code, which the class calls
    on the tag and on every entry of the lists and of which it reads
    nothing else), [validate] accepts a tag exactly when it is in the
    include list, if one is configured, and not in the exclude list,
    if one is configured, both compared by their upper case; tags of
    the same upper case get the same answer, ["Article"] and
    ["ARTICLE"] among them; with neither list configured every tag is
    accepted. *)
Theorem validate_configured_lists (toUpperCase : string -> string)
    (config : DocConfig) (tag : string) :
  (validateOver toUpperCase (newOver toUpperCase config) tag = true <->
   match cfg_include config with
   | Some inc => exists x, x ∈ inc /\ toUpperCase x = toUpperCase tag
   | None => True
   end /\
   match cfg_exclude config with
   | Some exc => ~ exists x, x ∈ exc /\ toUpperCase x = toUpperCase tag
   | None => True
   end) /\
  (forall tag', toUpperCase tag' = toUpperCase tag ->
                validateOver toUpperCase (newOver toUpperCase config) tag'
                = validateOver toUpperCase (newOver toUpperCase config) tag) /\
  validate (new config) "Article" = validate (new config) "ARTICLE" /\
  (cfg_include config = None -> cfg_exclude config = None ->
   validateOver toUpperCase (newOver toUpperCase config) tag = true).
Proof.
  split; [apply validate_policy|].
  split; [|split].
  - intros tag' E. unfold validateOver, upperCaseOver. by rewrite E.
  - reflexivity.
  - intros Hi He. apply validate_policy. by rewrite Hi, He.
Qed.

(** C2 as stated fails, whatever function folds the case: under
    [include: []] the include set is empty, so the stated policy
    accepts ["Article"], and the code rejects it. *)
Lemma validate_empty_include_rejects :
  ~ exists toUpperCase : string -> string,
      forall (config : DocConfig) (tag : string),
        validateOver toUpperCase (newOver toUpperCase config) tag = true <->
        (default [] (cfg_include config) = [] \/
         exists x, x ∈ default [] (cfg_include config)
                   /\ toUpperCase x = toUpperCase tag) /\
        ~ (default [] (cfg_exclude config) <> [] /\
           exists x, x ∈ default [] (cfg_exclude config)
                     /\ toUpperCase x = toUpperCase tag).
Proof.
  intros (toUpperCase & claim).
  destruct (claim Samples.configEmptyInclude "Article") as [_ accept].
  assert (validateOver toUpperCase
            (newOver toUpperCase Samples.configEmptyInclude) "Article"
          = true) as H.
  { apply accept. simpl. split; [by left | intros [ne _]; by apply ne]. }
  cbv in H. discriminate H.
Qed.

End TagValidatorFacts.

(** ** The key sanitizer *)

Module UtilsFacts.
Import Utils.

Lemma quoted_differs (key : string) : "'" +:+ key +:+ "'" <> key.
Proof.
  intros E. apply (f_equal String.length) in E.
  rewrite !StringFacts.length_append in E. simpl in E. lia.
Qed.

(** The key comes back unchanged exactly when it matches the pattern,
    which asks for two characters at least. *)
Lemma toSafePropKey_unchanged_iff (key : string) :
  toSafePropKey key = key <-> safeKeyPattern key = true.
Proof.
  unfold toSafePropKey. destruct (safeKeyPattern key); split; try done.
  intros E. by apply quoted_differs in E.
Qed.

Lemma toSafePropKey_quoted (key : string) :
  safeKeyPattern key = false -> toSafePropKey key = "'" +:+ key +:+ "'".
Proof. unfold toSafePropKey. by intros ->. Qed.

Lemma safeKeyPattern_one_character (c : ascii) :
  safeKeyPattern (String c "") = false.
Proof. unfold safeKeyPattern. simpl. by rewrite andb_false_r. Qed.

(** C7, where the code departs from it. The comment above the function
    calls a key safe when it starts with a letter, [$] or [_] and holds
    only letters, digits, [$] and [_]; the [+] of the pattern asks for a
    second character, so the one-letter key [a] is quoted, as is every
    key of one character. A quote inside the key is not escaped, so
    [it's] gives a token that ends after [it]. *)
Theorem toSafePropKey_one_character_quoted :
  toSafePropKey "a" = "'a'" /\
  (forall c : ascii, toSafePropKey (String c "") = String "'" (String c "'")) /\
  toSafePropKey "it's" = "'it's'".
Proof.
  split; [reflexivity|]. split; [|reflexivity].
  intros c. by rewrite toSafePropKey_quoted by apply safeKeyPattern_one_character.
Qed.

End UtilsFacts.

(** ** The ad-hoc inferencer *)

Module RequestResponseTypeFacts.
Import RequestResponseType.

Lemma jsonToType_null : jsonToType JNull = "any".
Proof. reflexivity. Qed.

Lemma jsonToType_undefined : jsonToType JUndefined = "any".
Proof. reflexivity. Qed.

Lemma jsonToType_array (elems : list Json) :
  jsonToType (JArray elems) = jsonToType (first elems) +:+ "[]".
Proof. by destruct elems. Qed.

Lemma jsonToType_empty_object : jsonToType (JObject []) = "{[P:string]: any}".
Proof. reflexivity. Qed.

Lemma jsonToType_object (members : list (string * Json)) :
  members <> [] ->
  jsonToType (JObject members) =
  "{" +:+ String.concat "" (List.map fieldText members) +:+ "}".
Proof.
  intros nonempty.
  pose (fields := fix fields (kv : list (string * Json)) : string :=
                    match kv with
                    | [] => ""
                    | (key, v) :: r =>
                        Utils.toSafePropKey key +:+ ": " +:+ jsonToType v
                        +:+ ";" +:+ fields r
                    end).
  assert (forall kv, String.concat "" (List.map fieldText kv) = fields kv)
    as fields_eq.
  { induction kv as [|[k w] kv IH]; [reflexivity|].
    cbn [List.map]. rewrite StringFacts.concat_empty_cons, IH.
    unfold fieldText. cbn [fields fst snd].
    by rewrite !StringFacts.append_assoc. }
  rewrite fields_eq. by destruct members.
Qed.

(** A primitive that is truthy has the name [typeof] gives it. *)
Lemma jsonToType_truthy_primitive (d : Json) :
  truthy d = true ->
  (forall l, d <> JArray l) -> (forall kv, d <> JObject kv) ->
  jsonToType d = typeofPrimitive d.
Proof.
  intros Ht Ha Ho. destruct d; simpl in *; try done.
  - by rewrite Ht.
  - by rewrite Ht.
  - by rewrite Ht.
  - by destruct (Ha elems).
  - by destruct (Ho members).
Qed.

(** C8, where the code departs from it. The guard [if (data)] sends
    every falsy value to ['any'], so the primitives [0], [''] and
    [false] do not get the names [number], [string] and [boolean] that
    [typeof] gives them; inside an object the field of such a value is
    typed [any]. *)
Theorem jsonToType_falsy_primitives :
  jsonToType (JNumber 0) = "any" /\
  jsonToType (JString "") = "any" /\
  jsonToType (JBool false) = "any" /\
  jsonToType (JObject [("count", JNumber 0)]) = "{count: any;}".
Proof. repeat split. Qed.

End RequestResponseTypeFacts.

(** ** The monad and its loops *)

Module MonadFacts.

Lemma bind_run {A B : Type} (m : M A) (f : A -> M B) (st : State) :
  (m ≫= f) st = match m st with
                | Ok a st' => f a st'
                | Fail e => Fail e
                end.
Proof. reflexivity. Qed.

Lemma bind_Ok {A B : Type} (m : M A) (f : A -> M B) (st st' : State) (b : B) :
  (m ≫= f) st = Ok b st' <->
  exists a st1, m st = Ok a st1 /\ f a st1 = Ok b st'.
Proof.
  rewrite bind_run. destruct (m st) as [a st1|e].
  - split; [eauto | by intros (? & ? & [= <- <-] & ?)].
  - split; [discriminate | by intros (? & ? & ? & ?)].
Qed.

Lemma foldM_nil {A B : Type} (f : B -> A -> M B) (acc : B) :
  foldM f acc [] = mret acc.
Proof. reflexivity. Qed.

Lemma foldM_cons {A B : Type} (f : B -> A -> M B) (acc : B) (x : A)
    (l : list A) :
  foldM f acc (x :: l) = (f acc x ≫= fun acc' => foldM f acc' l).
Proof. reflexivity. Qed.

Lemma foldM_app {A B : Type} (f : B -> A -> M B) (l1 l2 : list A) (acc : B)
    (st : State) :
  foldM f acc (l1 ++ l2) st =
  (foldM f acc l1 ≫= fun acc' => foldM f acc' l2) st.
Proof.
  revert acc st. induction l1 as [|x l1 IH]; intros acc st; [reflexivity|].
  rewrite <- app_comm_cons, !foldM_cons, !bind_run.
  destruct (f acc x st) as [acc' st'|e]; [|reflexivity].
  by rewrite IH, bind_run.
Qed.

(** A step that returns its accumulator and leaves the state alone can
    be dropped from a loop. *)
Lemma foldM_skip {A B : Type} (f : B -> A -> M B) (l1 l2 : list A) (x : A)
    (acc : B) (st : State) :
  (forall acc st, f acc x st = Ok acc st) ->
  foldM f acc (l1 ++ x :: l2) st = foldM f acc (l1 ++ l2) st.
Proof.
  intros skip. rewrite !foldM_app, !bind_run.
  destruct (foldM f acc l1 st) as [acc' st'|e]; [|reflexivity].
  by rewrite foldM_cons, bind_run, skip.
Qed.

End MonadFacts.


(** ** Arrays of unions *)

Module ArrayFacts.

(** The Swagger 2 translator puts the item type of an array in
    parentheses when it holds [|] or [&]. *)
Lemma parseSchemaItem_array_V2 pascalCase doc config (s item : Schema)
    (st : State) :
  ArrayOf s item ->
  ParseSchemasV2.parseSchemaItem pascalCase doc config s st
  = (t ← ParseSchemasV2.parseSchemaItem pascalCase doc config item;
     let t := JS.dropFinalNewline t in
     mret ((if JS.testPipeOrAmp t then "(" +:+ t +:+ ")" else t) +:+ "[]")) st.
Proof.
  intros (ref & allOf & oneOf & anyOf & type & items).
  destruct s as [r d dep a o y ty en it pr ad]. cbn in * |-. subst.
  unfold ParseSchemasV2.parseSchemaItem.
  cbn [ParseSchemasV2.parseSchemaItemWith s_ref s_allOf s_oneOf s_anyOf s_type
       s_items firstSome].
  unfold ParseSchemasV2.isRef. rewrite ref.
  cbn [String.eqb Ascii.eqb Bool.eqb]. rewrite !MonadFacts.bind_run.
  by destruct (ParseSchemasV2.parseSchemaItemWith _ _ _ _).
Qed.

Lemma parseSchemaItem_array_parenthesized_V2 pascalCase doc config
    (s item : Schema) (t : string) (st st' : State) :
  ArrayOf s item ->
  ParseSchemasV2.parseSchemaItem pascalCase doc config item st = Ok t st' ->
  JS.testPipeOrAmp (JS.dropFinalNewline t) = true ->
  ParseSchemasV2.parseSchemaItem pascalCase doc config s st
  = Ok (("(" +:+ JS.dropFinalNewline t +:+ ")") +:+ "[]") st'.
Proof.
  intros array run union.
  rewrite (parseSchemaItem_array_V2 _ _ _ _ _ _ array), MonadFacts.bind_run, run.
  cbn zeta. rewrite union. reflexivity.
Qed.

(** The OpenAPI 3 translator appends the suffix to the item type as it
    is, whatever the item type holds. *)
Lemma parseSchemaItem_array_V3 pascalCase doc config (s item : Schema)
    (st : State) :
  ArrayOf s item ->
  ParseSchemas.parseSchemaItem pascalCase doc config s st
  = (t ← ParseSchemas.parseSchemaItem pascalCase doc config item;
     mret (t +:+ "[]")) st.
Proof.
  intros (ref & allOf & oneOf & anyOf & type & items).
  destruct s as [r d dep a o y ty en it pr ad]. cbn in * |-. subst.
  unfold ParseSchemas.parseSchemaItem.
  cbn [ParseSchemas.parseSchemaItemWith s_ref s_allOf s_oneOf s_anyOf s_type
       s_items firstSome].
  unfold ParseSchemas.isRef. by rewrite ref.
Qed.

(** C3, where the code departs from it. For an array of the string
    enum [a], [b] the item type is ['a' | 'b']: [ParseSchemasV2] gives
    [('a' | 'b')[]], [ParseSchemas] gives ['a' | 'b'[]], and for an
    array of a [oneOf] it gives [(number | string) | null[]]. *)
Theorem parseSchemaItem_array_of_union_V3 pascalCase doc config (st : State) :
  ParseSchemas.parseSchemaItem pascalCase doc config
    (Samples.arrayOf (Samples.enumOf ["a"; "b"])) st
  = Ok "'a' | 'b'[]" st /\
  ParseSchemas.parseSchemaItem pascalCase doc config
    (Samples.arrayOf
       (Samples.oneOf [Samples.typed "integer"; Samples.typed "string"])) st
  = Ok "(number | string) | null[]" st /\
  ParseSchemasV2.parseSchemaItem pascalCase doc config
    (Samples.arrayOf (Samples.enumOf ["a"; "b"])) st
  = Ok "('a' | 'b')[]" st.
Proof. repeat split. Qed.

End ArrayFacts.

(** ** The body parameter [root] *)

Module RootBodyFacts.
Import MonadFacts.

(** What one [root] parameter in the body does to the buffer. *)
Lemma parseParam_root pascalCase doc config (b b' : ParseSchemasV2.Buffers)
    (p : Param) (st st' : State) :
  ParseSchemasV2.isRef (p_ref p) = false ->
  p_in p = "body" -> p_name p = "root" ->
  ParseSchemasV2.parseParam pascalCase doc config b p st = Ok b' st' ->
  exists t st1,
    ParseSchemasV2.parseSchemaItemOpt pascalCase doc config (p_schema p) st1
    = Ok t st' /\
    ParseSchemasV2.body b' =
      ParseSchemasV2.body b +:+
      (JS.and (ParseSchemasV2.body b) (ParseSchemasV2.body b +:+ " & ") +:+ t).
Proof.
  intros ref loc name. unfold ParseSchemasV2.parseParam.
  rewrite ref, loc, name. cbn [String.eqb Ascii.eqb Bool.eqb].
  rewrite bind_run.
  destruct (ParseSchemasV2.parseSchemaItem _ _ _ _ st) as [t0 st1|e];
    [|discriminate].
  rewrite bind_run.
  destruct (ParseSchemasV2.parseSchemaItemOpt _ _ _ _ st1) as [t st2|e] eqn:E;
    [|discriminate].
  intros [= <- <-]. exists t, st1. by split.
Qed.

(** With nothing in the buffer the translation is the body type. *)
Lemma root_body_first (t : string) : "" +:+ (JS.and "" ("" +:+ " & ") +:+ t) = t.
Proof. reflexivity. Qed.

(** With [prior] in the buffer, [prior] is written twice. *)
Lemma root_body_next (prior t : string) :
  JS.truthy prior = true ->
  prior +:+ (JS.and prior (prior +:+ " & ") +:+ t)
  = prior +:+ prior +:+ " & " +:+ t.
Proof.
  intros nonempty. unfold JS.and. rewrite nonempty.
  by rewrite !StringFacts.append_assoc.
Qed.

(** C4, where the code departs from it. [body += (body && body + ' & ')
    + type] adds the old buffer to itself: two [root] parameters of
    types [integer] and [string] give [numbernumber & string], not
    [number & string]; after a form-data field the field is written
    twice as well. *)
Theorem parseParamsSchema_root_duplicates_prior pascalCase doc config
    (st : State) :
  ParseSchemasV2.parseParamsSchema pascalCase doc config
    (Samples.operation None
       [Samples.param "root" "body" (Samples.typed "integer");
        Samples.param "root" "body" (Samples.typed "string")] None) st
  = Ok {| ParseSchemasV2.ps_path := ""; ParseSchemasV2.ps_query := "";
          ParseSchemasV2.ps_body := "numbernumber & string";
          ParseSchemasV2.ps_isFormDataBody := false |} st /\
  ParseSchemasV2.parseParamsSchema pascalCase doc config
    (Samples.operation None
       [Samples.param "root" "body" (Samples.typed "integer")] None) st
  = Ok {| ParseSchemasV2.ps_path := ""; ParseSchemasV2.ps_query := "";
          ParseSchemasV2.ps_body := "number";
          ParseSchemasV2.ps_isFormDataBody := false |} st.
Proof. split; reflexivity. Qed.

End RootBodyFacts.

(** ** Induction on schema nodes *)

Module SchemaFacts.

(** Induction on a node with the property at hand for every node
    directly under it. *)
Lemma Schema_nested_ind (P : Schema -> Prop) :
  (forall s, ForallSub P s -> P s) -> forall s, P s.
Proof.
  intros step.
  exact (fix induct (s : Schema) : P s :=
    let all :=
      fix all (l : list Schema) : Forall P l :=
        match l with
        | [] => ListDef.Forall_nil P
        | x :: r => ListDef.Forall_cons P x r (induct x) (all r)
        end in
    let allProps :=
      fix allProps (l : list (string * Schema))
          : Forall (fun kv => P (snd kv)) l :=
        match l with
        | [] => ListDef.Forall_nil _
        | (k, v) :: r =>
            ListDef.Forall_cons (fun kv => P (snd kv)) (k, v) r
              (induct v) (allProps r)
        end in
    step s
      match s as s0 return ForallSub P s0 with
      | mkSchema _ _ _ allOf oneOf anyOf _ _ items props add =>
          let some (o : option (list Schema))
              : match o with Some l => Forall P l | None => True end :=
            match o with Some l => all l | None => I end in
          conj (some allOf)
         (conj (some oneOf)
         (conj (some anyOf)
         (conj match items as i
                 return match i with
                        | ItemsAbsent => True
                        | ItemsOne item => P item
                        | ItemsMany l => Forall P l
                        end with
               | ItemsAbsent => I
               | ItemsOne item => induct item
               | ItemsMany l => all l
               end
         (conj match props as o
                 return match o with
                        | Some l => Forall (fun kv => P (snd kv)) l
                        | None => True
                        end with
               | Some l => allProps l
               | None => I
               end
               match add as a
                 return match a with
                        | AdditionalSchema node => P node
                        | _ => True
                        end with
               | AdditionalSchema node => induct node
               | _ => I
               end))))
      end).
Qed.

End SchemaFacts.

(** ** Rules for runs that keep a relation between states *)

Module Hoare.

Lemma respects_weaken (P P' : State -> Prop) (R R' : State -> State -> Prop)
    {A : Type} (m : M A) :
  (forall st, P' st -> P st) ->
  (forall st st', R st st' -> R' st st') ->
  respects P R m -> respects P' R' m.
Proof.
  intros HP HR Hm st Hst. specialize (Hm st (HP st Hst)).
  destruct (m st); [by apply HR | done].
Qed.

Section Rules.

Variable P : State -> Prop.
Variable R : State -> State -> Prop.
Hypothesis R_refl : forall st, R st st.
Hypothesis R_trans : forall a b c, R a b -> R b c -> R a c.
Hypothesis P_step : forall st st', P st -> R st st' -> P st'.

Lemma respects_ret {A : Type} (a : A) : respects P R (mret a).
Proof. intros st _. apply R_refl. Qed.

Lemma respects_get : respects P R get.
Proof. intros st _. apply R_refl. Qed.

Lemma respects_throw {A : Type} (e : Failure) :
  e <> FuelExhausted -> respects P R (throw e : M A).
Proof. by intros ne st _. Qed.

Lemma respects_modify (f : State -> State) :
  (forall st, P st -> R st (f st)) -> respects P R (modify f).
Proof. intros Hf st Hst. by apply Hf. Qed.

Lemma respects_bind {A B : Type} (m : M A) (f : A -> M B) :
  respects P R m -> (forall a, respects P R (f a)) ->
  respects P R (m ≫= f).
Proof.
  intros Hm Hf st Hst. rewrite MonadFacts.bind_run.
  specialize (Hm st Hst). destruct (m st) as [a st1|e]; [|done].
  specialize (Hf a st1 (P_step _ _ Hst Hm)).
  destruct (f a st1) as [b st2|e]; [|done].
  by apply (R_trans _ st1).
Qed.

Lemma respects_foldM {A B : Type} (f : B -> A -> M B) (l : list A) :
  Forall (fun x => forall acc, respects P R (f acc x)) l ->
  forall acc, respects P R (foldM f acc l).
Proof.
  induction 1 as [|x l Hx _ IH]; intros acc.
  - apply respects_ret.
  - rewrite MonadFacts.foldM_cons. apply respects_bind; [apply Hx | apply IH].
Qed.

Lemma respects_mapM {A B : Type} (f : A -> M B) (l : list A) :
  Forall (fun x => respects P R (f x)) l -> respects P R (mapM f l).
Proof.
  induction 1 as [|x l Hx _ IH].
  - apply respects_ret.
  - change (mapM f (x :: l))
      with (f x ≫= fun y => mapM f l ≫= fun ys => mret (y :: ys)).
    apply respects_bind; [exact Hx|]. intros y.
    apply respects_bind; [exact IH|]. intros ys. apply respects_ret.
Qed.

(** The node translators keep what their [parseRef] keeps. *)
Lemma parseSchemaItemObjectWith_respects (config : DocConfig)
    (parseSchemaItem : Schema -> M string) (s : Schema) :
  match s_properties s with
  | Some props =>
      Forall (fun kv => respects P R (parseSchemaItem (snd kv))) props
  | None => True
  end ->
  respects P R (Common.parseSchemaItemObjectWith config parseSchemaItem s).
Proof.
  intros Hprops. unfold Common.parseSchemaItemObjectWith.
  apply respects_bind; [|intros; apply respects_ret].
  destruct (s_properties s) as [props|].
  - apply respects_foldM. eapply Forall_impl; [exact Hprops|].
    intros [key propItem] Hkv acc. cbn in Hkv |- *.
    apply respects_bind; [exact Hkv|]. intros; apply respects_ret.
  - apply respects_ret.
Qed.

Lemma parseSchemaItemWith_respects_V3 (config : DocConfig)
    (parseRef : string -> M string) :
  (forall ref, respects P R (parseRef ref)) ->
  forall s, respects P R (ParseSchemas.parseSchemaItemWith config parseRef s).
Proof.
  intros Href.
  induction s as [s (HallOf & HoneOf & HanyOf & Hitems & Hprops & Hadd)]
    using SchemaFacts.Schema_nested_ind.
  destruct s as [ref desc dep allOf oneOf anyOf ty enum items props add].
  cbn in HallOf, HoneOf, HanyOf, Hitems, Hprops, Hadd.
  cbn [ParseSchemas.parseSchemaItemWith s_ref s_allOf s_oneOf s_anyOf s_type
       s_enum s_items].
  destruct (ParseSchemas.isRef ref); [apply Href|].
  assert (forall (sep : string) l, Forall (fun x => respects P R
            (ParseSchemas.parseSchemaItemWith config parseRef x)) l ->
          respects P R
            (types ← mapM (ParseSchemas.parseSchemaItemWith config parseRef) l;
             let combineType := JS.join sep types in
             mret (JS.and combineType ("(" +:+ combineType +:+ ") | null"))))
    as Hcombine.
  { intros sep l Hl. apply respects_bind; [by apply respects_mapM|].
    intros; apply respects_ret. }
  destruct allOf as [l|]; [by apply Hcombine|].
  destruct oneOf as [l|]; [by apply Hcombine|].
  destruct anyOf as [l|]; [by apply Hcombine|].
  cbn [firstSome].
  destruct ty as [|t|ts]; try apply respects_ret.
  repeat match goal with
         | |- respects _ _ (if ?c then _ else _) => destruct c
         | |- respects _ _ (mret _) => apply respects_ret
         | |- respects _ _ (match ?o with Some _ => _ | None => _ end) =>
             destruct o
         end.
  - destruct items as [|item|l].
    + by apply respects_throw.
    + apply respects_bind; [exact Hitems|]. intros; apply respects_ret.
    + apply respects_ret.
  - apply respects_bind.
    { by apply parseSchemaItemObjectWith_respects. }
    intros obj. apply respects_bind; [|intros; apply respects_ret].
    unfold ParseSchemas.parseSchemaItemAdditionalWith.
    cbn [s_additionalProperties]. destruct add as [| |node];
      try apply respects_ret.
    apply respects_bind; [exact Hadd|]. intros; apply respects_ret.
Qed.

Lemma parseSchemaItemWith_respects_V2 (config : DocConfig)
    (parseRef : string -> M string) :
  (forall ref, respects P R (parseRef ref)) ->
  forall s, respects P R (ParseSchemasV2.parseSchemaItemWith config parseRef s).
Proof.
  intros Href.
  induction s as [s (HallOf & HoneOf & HanyOf & Hitems & Hprops & Hadd)]
    using SchemaFacts.Schema_nested_ind.
  destruct s as [ref desc dep allOf oneOf anyOf ty enum items props add].
  cbn in HallOf, HoneOf, HanyOf, Hitems, Hprops, Hadd.
  cbn [ParseSchemasV2.parseSchemaItemWith s_ref s_allOf s_oneOf s_anyOf
       s_type s_enum s_items].
  destruct (ParseSchemasV2.isRef ref); [apply Href|].
  assert (forall (sep : string) l, Forall (fun x => respects P R
            (ParseSchemasV2.parseSchemaItemWith config parseRef x)) l ->
          respects P R
            (types ← mapM (ParseSchemasV2.parseSchemaItemWith config parseRef) l;
             let combineType := JS.join sep types in
             mret (JS.and combineType ("(" +:+ combineType +:+ ") | null"))))
    as Hcombine.
  { intros sep l Hl. apply respects_bind; [by apply respects_mapM|].
    intros; apply respects_ret. }
  destruct allOf as [l|]; [by apply Hcombine|].
  destruct oneOf as [l|]; [by apply Hcombine|].
  destruct anyOf as [l|]; [by apply Hcombine|].
  cbn [firstSome].
  destruct ty as [|t|ts]; try apply respects_ret.
  repeat match goal with
         | |- respects _ _ (if ?c then _ else _) => destruct c
         | |- respects _ _ (mret _) => apply respects_ret
         | |- respects _ _ (match ?o with Some _ => _ | None => _ end) =>
             destruct o
         end.
  - apply respects_bind; [|intros; apply respects_ret].
    destruct items as [|item|l].
    + apply respects_ret.
    + apply respects_bind; [exact Hitems|]. intros; apply respects_ret.
    + apply respects_bind; [by apply respects_mapM|].
      intros; apply respects_ret.
  - apply respects_bind.
    { by apply parseSchemaItemObjectWith_respects. }
    intros obj. apply respects_bind; [|intros; apply respects_ret].
    unfold ParseSchemasV2.parseSchemaItemAdditional.
    cbn [s_additionalProperties]. destruct add as [| |node];
      try apply respects_ret.
    destruct (s_properties node) as [properties|]; [|apply respects_ret].
    apply respects_bind; [|intros; apply respects_ret].
    unfold ParseSchemasV2.parsePropertiesAsSchemaItem.
    repeat match goal with
           | |- respects _ _ (if ?c then _ else _) => destruct c
           | |- respects _ _ (mret _) => apply respects_ret
           | |- respects _ _ (throw _) => by apply respects_throw
           end.
Qed.

End Rules.

End Hoare.

(** ** The registry of references and the history of declarations *)

Module RegistryFacts.
Import Hoare.

Lemma declaredIn_app (a b : list Appended) :
  declaredIn (a ++ b) = declaredIn a ++ declaredIn b.
Proof. apply omap_app. Qed.

Lemma Pass_refl (st : State) : Pass st st.
Proof.
  split; [done | | done]. exists []. rewrite app_nil_r.
  split; [done|]. split; [constructor|]. split; [constructor|].
  intros T. split.
  - intros H. inversion H.
  - intros [H1 H2]. congruence.
Qed.

Lemma Pass_trans (a b c : State) : Pass a b -> Pass b c -> Pass a c.
Proof.
  intros [ab_refs (new1 & ab_decl & ab_formed & ab_nodup & ab_new) ab_link]
         [bc_refs (new2 & bc_decl & bc_formed & bc_nodup & bc_new) bc_link].
  split; [auto | | auto].
  exists (new1 ++ new2). split; [by rewrite bc_decl, ab_decl, app_assoc|].
  split; [by apply Forall_app|]. rewrite declaredIn_app. split.
  - apply NoDup_app. split; [done|]. split; [|done].
    intros T H1 H2. apply ab_new in H1 as [_ H1]. apply bc_new in H2 as [H2 _].
    congruence.
  - intros T. rewrite elem_of_app, ab_new, bc_new. split.
    + intros [[Ha Hb]|[Hb Hc]]; [auto|]. split; [|done].
      destruct (refSeen a T) eqn:E; [|done]. apply ab_refs in E. congruence.
    + intros [Ha Hc]. destruct (refSeen b T) eqn:E; auto.
Qed.

Lemma Core_refl (st : State) : Core st st.
Proof. split; [done|]. split; [done | apply Pass_refl]. Qed.

Lemma Core_trans (a b c : State) : Core a b -> Core b c -> Core a c.
Proof.
  intros (t1 & c1 & p1) (t2 & c2 & p2).
  split; [congruence|]. split; [congruence|]. by apply (Pass_trans a b c).
Qed.

Lemma Core_Pass (st st' : State) : Core st st' -> Pass st st'.
Proof. by intros (_ & _ & p). Qed.

Lemma Loop_refl (st : State) : Loop st st.
Proof. split; [done | apply Pass_refl]. Qed.

Lemma Loop_trans (a b c : State) : Loop a b -> Loop b c -> Loop a c.
Proof.
  intros (t1 & p1) (t2 & p2).
  split; [congruence|]. by apply (Pass_trans a b c).
Qed.


Lemma Core_Loop (st st' : State) : Core st st' -> Loop st st'.
Proof. by intros (t & _ & p). Qed.

(** A change of the groups or of the console is a [Pass]. *)
Lemma Pass_frame (st st' : State) :
  refs st' = refs st -> appended st' = appended st ->
  typesTemplate st' = typesTemplate st ->
  interfacesTemplate st' = interfacesTemplate st ->
  Pass st st'.
Proof.
  intros Hr Ha Ht Hi. split.
  - unfold refSeen. by rewrite Hr.
  - exists []. rewrite Ha, app_nil_r.
    split; [done|]. split; [constructor|]. split; [constructor|].
    intros T. unfold refSeen.
    rewrite Hr. split; [intros H; inversion H | intros [? ?]; congruence].
  - unfold Linked. by rewrite Ha, Ht, Hi.
Qed.

Lemma refSeen_setRef (T X : string) (st : State) :
  refSeen (setRef T st) X = if decide (T = X) then true else refSeen st X.
Proof.
  unfold refSeen, setRef; cbn. rewrite lookup_insert. by destruct (decide _).
Qed.

Lemma concat_empty_app (l1 l2 : list string) :
  String.concat "" (l1 ++ l2) = String.concat "" l1 +:+ String.concat "" l2.
Proof.
  induction l1 as [|x l1 IH]; [reflexivity|].
  rewrite <- app_comm_cons, !StringFacts.concat_empty_cons, IH.
  by rewrite StringFacts.append_assoc.
Qed.

Lemma renderInterfaces_app (a b : list Appended) :
  renderInterfaces (a ++ b) = renderInterfaces a +:+ renderInterfaces b.
Proof. unfold renderInterfaces. by rewrite omap_app, concat_empty_app. Qed.

Lemma renderTypes_app (a b : list Appended) :
  renderTypes (a ++ b) = renderTypes a +:+ renderTypes b.
Proof. unfold renderTypes. by rewrite omap_app, concat_empty_app. Qed.

Lemma renderInterfaces_cons (e : Appended) (h : list Appended) :
  renderInterfaces (e :: h) = interfaceText e +:+ renderInterfaces h.
Proof.
  unfold renderInterfaces.
  change (e :: h) with ([e] ++ h). rewrite omap_app, concat_empty_app.
  f_equal. by destruct e as [text|[] T text].
Qed.

Lemma renderTypes_cons (e : Appended) (h : list Appended) :
  renderTypes (e :: h) = typeText e +:+ renderTypes h.
Proof.
  unfold renderTypes.
  change (e :: h) with ([e] ++ h). rewrite omap_app, concat_empty_app.
  f_equal. by destruct e as [text|[] T text].
Qed.

Lemma renderInterfaces_snoc (h : list Appended) (e : Appended) :
  renderInterfaces (h ++ [e]) = renderInterfaces h +:+ interfaceText e.
Proof.
  rewrite renderInterfaces_app, renderInterfaces_cons.
  by rewrite StringFacts.append_nil_r.
Qed.

Lemma renderTypes_snoc (h : list Appended) (e : Appended) :
  renderTypes (h ++ [e]) = renderTypes h +:+ typeText e.
Proof.
  rewrite renderTypes_app, renderTypes_cons.
  by rewrite StringFacts.append_nil_r.
Qed.

Lemma Linked_appendComment (text : string) (st : State) :
  Linked st -> Linked (appendComment text st).
Proof.
  intros [Hi Ht]. unfold Linked, appendComment.
  cbn [interfacesTemplate typesTemplate appended].
  rewrite renderInterfaces_snoc, renderTypes_snoc.
  cbn [interfaceText typeText]. rewrite StringFacts.append_nil_r.
  by rewrite Hi, Ht.
Qed.

Lemma Linked_appendInterface (T text : string) (st : State) :
  Linked st -> Linked (appendInterface T text st).
Proof.
  intros [Hi Ht]. unfold Linked, appendInterface.
  cbn [interfacesTemplate typesTemplate appended].
  rewrite renderInterfaces_snoc, renderTypes_snoc.
  cbn [interfaceText typeText]. rewrite StringFacts.append_nil_r.
  by rewrite Hi, Ht.
Qed.

Lemma Linked_appendType (T text : string) (st : State) :
  Linked st -> Linked (appendType T text st).
Proof.
  intros [Hi Ht]. unfold Linked, appendType.
  cbn [interfacesTemplate typesTemplate appended].
  rewrite renderInterfaces_snoc, renderTypes_snoc.
  cbn [interfaceText typeText]. rewrite StringFacts.append_nil_r.
  by rewrite Hi, Ht.
Qed.

(** The step of [refSchema] around the translation of the schema:
    register [T] before it, append the comment and the declaration
    after it. *)
Lemma Core_declare (T comment schemaType : string) (interface : bool)
    (st st2 : State) :
  refSeen st T = false ->
  Core (setRef T st) st2 ->
  Core st ((if interface
            then appendInterface T (declarationText DeclInterface T schemaType)
            else appendType T (declarationText DeclType T schemaType))
             (appendComment comment st2)).
Proof.
  intros fresh (Htags & Hconsole
                & [Hrefs (new & Hdecl & Hformed & Hnodup & Hnew) Hlink]).
  set (st4 := (if interface then _ else _) _).
  set (kind := if interface then DeclInterface else DeclType).
  set (entry := AppendedDeclaration kind T (declarationText kind T schemaType)).
  assert (refs st4 = refs st2) as Hrefs4 by (unfold st4; by destruct interface).
  assert (forall X, refSeen st4 X = refSeen st2 X) as Hseen4
    by (intros X; unfold refSeen; by rewrite Hrefs4).
  assert (appended st4 = appended st2 ++ [AppendedComment comment; entry])
    as Happ4.
  { unfold st4, entry, kind. destruct interface; cbn; by rewrite <- app_assoc. }
  split; [unfold st4; by destruct interface|].
  split; [unfold st4; by destruct interface|].
  split.
  - intros X HX. rewrite Hseen4. apply Hrefs. rewrite refSeen_setRef.
    by destruct (decide _).
  - exists (new ++ [AppendedComment comment; entry]).
    split; [rewrite Happ4, Hdecl; cbn [setRef appended]; by rewrite app_assoc|].
    split.
    { apply Forall_app. split; [done|]. repeat constructor.
      by exists schemaType. }
    rewrite declaredIn_app.
    change (declaredIn [AppendedComment comment; entry]) with [T].
    split.
    + apply NoDup_app. split; [done|]. split; [|apply NoDup_singleton].
      intros X HX HT. apply list_elem_of_singleton in HT as ->.
      apply Hnew in HX as [HX _]. rewrite refSeen_setRef in HX.
      by destruct (decide _).
    + intros X. rewrite elem_of_app, list_elem_of_singleton, Hnew, Hseen4.
      rewrite refSeen_setRef. destruct (decide (T = X)) as [<-|ne].
      * split; [|auto]. intros _. split; [done|]. apply Hrefs.
        rewrite refSeen_setRef. by destruct (decide _).
      * split; [intros [?|?]; [done | congruence] | intros ?; by left].
  - intros L. unfold st4.
    assert (Linked st2) as L2 by (apply Hlink; exact L).
    destruct interface;
      [apply Linked_appendInterface | apply Linked_appendType];
      by apply Linked_appendComment.
Qed.

(** Where [container?.[name]] finds a schema: among the own properties
    of the container, or among those it inherits. *)
Lemma schemaAt_found (schemas : option (gmap string Schema)) (name : string)
    (schemaItem : Schema) :
  schemaAt schemas name = Some schemaItem ->
  default ∅ schemas !! name = Some schemaItem \/ schemaItem = emptySchema.
Proof.
  unfold schemaAt. destruct schemas as [m|]; [|discriminate].
  change (default ∅ (Some m)) with m.
  destruct (m !! name) as [s|]; [intros [= <-]; by left|].
  destruct (JS.inherited name); [intros [= <-]; by right | discriminate].
Qed.

Section Registry.

Variable pascalCase : string -> string.
Variable schemas : option (gmap string Schema).
Variable parseSchemaItemWith : (string -> M string) -> Schema -> M string.

Hypothesis parseSchemaItemWith_respects :
  forall (P : State -> Prop) (R : State -> State -> Prop),
    (forall st, R st st) ->
    (forall a b c, R a b -> R b c -> R a c) ->
    (forall st st', P st -> R st st' -> P st') ->
    forall parseRef, (forall ref, respects P R (parseRef ref)) ->
    forall s, respects P R (parseSchemaItemWith parseRef s).

(** The object [{}] holds no reference: its translation is the
    empty text, whatever [parseRef] is. *)
Hypothesis parseSchemaItemWith_empty :
  forall parseRef st, parseSchemaItemWith parseRef emptySchema st = Ok "" st.

Lemma Fuel_Pass (fuel : nat) (st st' : State) :
  Fuel pascalCase schemas fuel st -> Pass st st' ->
  Fuel pascalCase schemas fuel st'.
Proof.
  intros Hf [Hrefs _ _]. unfold Fuel in *.
  eapply Nat.le_lt_trans; [|exact Hf]. apply subseteq_size. intros name.
  unfold unseen. rewrite !elem_of_filter. intros [Hn Hd]. split; [|done].
  destruct (refSeen st _) eqn:E; [|done]. apply Hrefs in E. congruence.
Qed.

Lemma Fuel_Core (fuel : nat) (st st' : State) :
  Fuel pascalCase schemas fuel st -> Core st st' ->
  Fuel pascalCase schemas fuel st'.
Proof. intros Hf Hc. eapply Fuel_Pass; [exact Hf | by apply Core_Pass]. Qed.

Lemma Fuel_size (st : State) :
  Fuel pascalCase schemas (Common.fuelFor schemas) st.
Proof.
  unfold Fuel, Common.fuelFor. apply Nat.lt_succ_r.
  rewrite <- size_dom. apply subseteq_size.
  intros name. unfold unseen. rewrite elem_of_filter. by intros [_ ?].
Qed.

Lemma Fuel_positive (fuel : nat) (st : State) :
  Fuel pascalCase schemas fuel st -> exists fuel', fuel = S fuel'.
Proof.
  unfold Fuel. destruct fuel as [|fuel']; [lia | by exists fuel'].
Qed.

(** Registering the type name of a schema of the container frees one
    unit of fuel. *)
Lemma Fuel_setRef (fuel' : nat) (name : string) (schemaItem : Schema)
    (st : State) :
  default ∅ schemas !! name = Some schemaItem ->
  refSeen st (Common.formatSchemaName pascalCase name) = false ->
  Fuel pascalCase schemas (S fuel') st ->
  Fuel pascalCase schemas fuel'
    (setRef (Common.formatSchemaName pascalCase name) st).
Proof.
  intros Hin fresh Hf. unfold Fuel in *.
  set (T := Common.formatSchemaName pascalCase name) in *.
  assert (unseen pascalCase schemas (setRef T st)
          ⊂ unseen pascalCase schemas st) as Hsub.
  { split.
    - intros n. unfold unseen. rewrite !elem_of_filter, refSeen_setRef.
      intros [Hn Hd]. split; [|done]. by destruct (decide _).
    - intros Hsup. assert (name ∈ unseen pascalCase schemas (setRef T st)) as Hname.
      { apply Hsup. unfold unseen. rewrite elem_of_filter.
        split; [exact fresh|]. apply elem_of_dom. by eexists. }
      unfold unseen in Hname. rewrite elem_of_filter, refSeen_setRef in Hname.
      destruct Hname as [Hname _]. fold T in Hname.
      by destruct (decide (T = T)). }
  apply subset_size in Hsub. lia.
Qed.

(** The translation of a schema that [refSchema] found, once its
    type name is registered, with the fuel that is left. *)
Lemma found_respects (fuel' : nat) (name : string) (schemaItem : Schema)
    (st : State) :
  (forall ref,
     respects (Fuel pascalCase schemas fuel') Core
       (Common.parseRefFuel pascalCase schemas parseSchemaItemWith
          fuel' ref)) ->
  schemaAt schemas name = Some schemaItem ->
  refSeen st (Common.formatSchemaName pascalCase name) = false ->
  Fuel pascalCase schemas (S fuel') st ->
  match parseSchemaItemWith
          (Common.parseRefFuel pascalCase schemas parseSchemaItemWith fuel')
          schemaItem
          (setRef (Common.formatSchemaName pascalCase name) st) with
  | Ok _ st2 =>
      Core (setRef (Common.formatSchemaName pascalCase name) st) st2
  | Fail e => e <> FuelExhausted
  end.
Proof.
  intros IH Hin fresh Hf.
  destruct (schemaAt_found _ _ _ Hin) as [Hown | ->].
  - exact (parseSchemaItemWith_respects
             (Fuel pascalCase schemas fuel') Core Core_refl
             Core_trans (Fuel_Core fuel') _ IH schemaItem _
             (Fuel_setRef fuel' name schemaItem st Hown fresh Hf)).
  - rewrite parseSchemaItemWith_empty. apply Core_refl.
Qed.

Lemma refSchemaWith_respects (fuel : nat) (name : string) :
  (forall fuel' ref, fuel = S fuel' ->
     respects (Fuel pascalCase schemas fuel') Core
       (Common.parseRefFuel pascalCase schemas parseSchemaItemWith
          fuel' ref)) ->
  respects (Fuel pascalCase schemas fuel) Core
    (Common.refSchemaWith schemas
       match fuel with
       | 0 => fun _ => throw FuelExhausted
       | S fuel' =>
           parseSchemaItemWith
             (Common.parseRefFuel pascalCase schemas parseSchemaItemWith fuel')
       end name (Common.formatSchemaName pascalCase name)).
Proof.
  intros IH st Hf. unfold Common.refSchemaWith.
  destruct (schemaAt schemas name) as [schemaItem|] eqn:Hin;
    [|apply Core_refl].
  rewrite MonadFacts.bind_run. cbn [get].
  destruct (refSeen st _) eqn:fresh; [apply Core_refl|].
  destruct (Fuel_positive fuel st Hf) as (fuel' & ->).
  pose proof (found_respects fuel' name schemaItem st
                (fun ref => IH fuel' ref eq_refl) Hin fresh Hf) as Hrun.
  rewrite !MonadFacts.bind_run. cbn [modify].
  rewrite !MonadFacts.bind_run.
  destruct (parseSchemaItemWith _ schemaItem _) as [schemaType st2|e];
    [|exact Hrun].
  rewrite !MonadFacts.bind_run. cbn [modify].
  pose proof (Core_declare _ (Common.getSchemaItemComment schemaItem)
                schemaType true st st2 fresh Hrun) as Hi.
  pose proof (Core_declare _ (Common.getSchemaItemComment schemaItem)
                schemaType false st st2 fresh Hrun) as Ht.
  destruct (Common.isInterface schemaItem); [exact Hi | exact Ht].
Qed.

(** [parseRef] with fuel for the references still to enter does not
    run out of it, and keeps [Core]. *)
Lemma parseRefFuel_respects (fuel : nat) (ref : string) :
  respects (Fuel pascalCase schemas fuel) Core
    (Common.parseRefFuel pascalCase schemas parseSchemaItemWith fuel ref).
Proof.
  revert ref. induction fuel as [|fuel IH]; intros ref.
  - cbn [Common.parseRefFuel].
    apply (respects_bind _ _ Core_trans (Fuel_Core 0));
      [|intros; apply respects_ret, Core_refl].
    apply (refSchemaWith_respects 0). intros fuel' ref' [=].
  - cbn [Common.parseRefFuel].
    apply (respects_bind _ _ Core_trans (Fuel_Core (S fuel)));
      [|intros; apply respects_ret, Core_refl].
    apply (refSchemaWith_respects (S fuel)). by intros fuel' ref' [= <-].
Qed.

(** The name [parseRef] returns is computed from the last segment of
    the reference alone. *)
Lemma parseRefFuel_name (fuel : nat) (ref t : string) (st st' : State) :
  Common.parseRefFuel pascalCase schemas parseSchemaItemWith fuel ref st
  = Ok t st' ->
  t = Common.formatSchemaName pascalCase (Common.getRefName ref).
Proof.
  destruct fuel; cbn [Common.parseRefFuel]; rewrite MonadFacts.bind_run;
    destruct (Common.refSchemaWith _ _ _ _ _); by intros [= <- _].
Qed.

(** On a registered name [parseRef] changes nothing. *)
Lemma parseRefFuel_seen (fuel : nat) (ref : string) (st : State) :
  refSeen st (Common.formatSchemaName pascalCase (Common.getRefName ref))
  = true ->
  Common.parseRefFuel pascalCase schemas parseSchemaItemWith fuel ref st
  = Ok (Common.formatSchemaName pascalCase (Common.getRefName ref)) st.
Proof.
  intros seen.
  assert (forall item,
            Common.refSchemaWith schemas item (Common.getRefName ref)
              (Common.formatSchemaName pascalCase (Common.getRefName ref)) st
            = Ok tt st) as early.
  { intros item. unfold Common.refSchemaWith.
    destruct (schemaAt schemas _); [|reflexivity].
    rewrite MonadFacts.bind_run. cbn [get]. by rewrite seen. }
  destruct fuel; cbn [Common.parseRefFuel]; rewrite MonadFacts.bind_run;
    by rewrite early.
Qed.

(** After [parseRef] on a name at which the container holds a schema
    the type name is registered. *)
Lemma parseRefFuel_registers (fuel : nat) (ref t : string)
    (schemaItem : Schema) (st st' : State) :
  Fuel pascalCase schemas fuel st ->
  schemaAt schemas (Common.getRefName ref) = Some schemaItem ->
  Common.parseRefFuel pascalCase schemas parseSchemaItemWith fuel ref st
  = Ok t st' ->
  refSeen st' (Common.formatSchemaName pascalCase (Common.getRefName ref))
  = true.
Proof.
  intros Hf Hin.
  set (name := Common.getRefName ref) in *.
  set (T := Common.formatSchemaName pascalCase name).
  destruct (refSeen st T) eqn:fresh.
  { rewrite parseRefFuel_seen by exact fresh. by intros [= _ <-]. }
  destruct (Fuel_positive fuel st Hf) as (fuel' & ->).
  pose proof (found_respects fuel' name schemaItem st
                (parseRefFuel_respects fuel') Hin fresh Hf) as Hrun.
  cbn [Common.parseRefFuel]. fold name. fold T. fold T in Hrun.
  rewrite MonadFacts.bind_run. unfold Common.refSchemaWith. rewrite Hin.
  rewrite MonadFacts.bind_run. cbn [get]. rewrite fresh.
  rewrite !MonadFacts.bind_run. cbn [modify].
  rewrite !MonadFacts.bind_run.
  destruct (parseSchemaItemWith _ schemaItem _) as [schemaType st2|e];
    [|discriminate].
  destruct Hrun as (_ & _ & [Hrefs _ _]).
  assert (refSeen st2 T = true) as seen2.
  { apply Hrefs. rewrite refSeen_setRef. by destruct (decide _). }
  rewrite !MonadFacts.bind_run. cbn [modify].
  destruct (Common.isInterface schemaItem); cbn [modify];
    intros [= _ <-]; exact seen2.
Qed.

End Registry.

(** ** A pass from a fresh instance *)






End RegistryFacts.

(** ** The methods of both translators keep the registry in step with
    the history *)

Module MethodFacts.
Import Hoare RegistryFacts.

Lemma anyState_step (R : State -> State -> Prop) (st st' : State) :
  anyState st -> R st st' -> anyState st'.
Proof. done. Qed.

Lemma Core_ret {A : Type} (a : A) : respects anyState Core (mret a).
Proof. apply respects_ret, Core_refl. Qed.

Lemma Core_bind {A B : Type} (m : M A) (f : A -> M B) :
  respects anyState Core m -> (forall a, respects anyState Core (f a)) ->
  respects anyState Core (m ≫= f).
Proof. apply respects_bind; [apply Core_trans | apply anyState_step]. Qed.




Lemma Loop_ret {A : Type} (a : A) : respects anyState Loop (mret a).
Proof. apply respects_ret, Loop_refl. Qed.

Lemma Loop_bind {A B : Type} (m : M A) (f : A -> M B) :
  respects anyState Loop m -> (forall a, respects anyState Loop (f a)) ->
  respects anyState Loop (m ≫= f).
Proof. apply respects_bind; [apply Loop_trans | apply anyState_step]. Qed.

Lemma Core_to_Loop {A : Type} (m : M A) :
  respects anyState Core m -> respects anyState Loop m.
Proof. apply respects_weaken; [done | apply Core_Loop]. Qed.


Lemma Loop_log (entry : LogEntry) : respects anyState Loop (modify (log entry)).
Proof. intros st _. split; [done | by apply Pass_frame]. Qed.





Lemma Loop_foldM {A B : Type} (f : B -> A -> M B) (l : list A) (acc : B) :
  (forall acc x, respects anyState Loop (f acc x)) ->
  respects anyState Loop (foldM f acc l).
Proof.
  intros Hf. apply respects_foldM;
    [apply Loop_refl | apply Loop_trans | apply anyState_step|].
  apply Forall_forall. intros x _ acc'. apply Hf.
Qed.

(** *** [ParseSchemas] *)

Section V3.

Variable pascalCase : string -> string.
Variable regExpReplace : string -> string -> option string.
Variable doc : Document.
Variable config : DocConfig.

Lemma parseRef_Core_V3 (ref : string) :
  respects anyState Core (ParseSchemas.parseRef pascalCase doc config ref).
Proof.
  eapply respects_weaken;
    [| |apply (parseRefFuel_respects pascalCase (doc_schemas doc)
                 (ParseSchemas.parseSchemaItemWith config))].
  - intros st _. apply Fuel_size.
  - done.
  - exact (fun P R rf tr step =>
             Hoare.parseSchemaItemWith_respects_V3 P R rf tr step config).
  - reflexivity.
Qed.

Lemma parseSchemaItem_Core_V3 (s : Schema) :
  respects anyState Core (ParseSchemas.parseSchemaItem pascalCase doc config s).
Proof.
  apply Hoare.parseSchemaItemWith_respects_V3;
    [apply Core_refl | apply Core_trans | apply anyState_step|].
  apply parseRef_Core_V3.
Qed.

Lemma parseParam_Loop_V3 (b : ParseSchemas.Buffers) (p : Param) :
  respects anyState Loop (ParseSchemas.parseParam pascalCase doc config b p).
Proof.
  unfold ParseSchemas.parseParam. destruct (ParseSchemas.isRef _).
  - apply Loop_bind; [apply Loop_log | intros; apply Loop_ret].
  - apply Loop_bind; [apply Core_to_Loop, parseSchemaItem_Core_V3|].
    intros t.
    repeat match goal with
           | |- respects _ _ (if ?c then _ else _) => destruct c
           | |- respects _ _ (mret _) => apply Loop_ret
           end.
Qed.

Lemma parseParamsSchema_Loop_V3 (operationItem : Operation) :
  respects anyState Loop
    (ParseSchemas.parseParamsSchema pascalCase doc config operationItem).
Proof.
  unfold ParseSchemas.parseParamsSchema.
  apply Loop_bind; [|intros; apply Loop_ret].
  apply Loop_foldM. intros; apply parseParam_Loop_V3.
Qed.

Lemma parseRequestBodySchema_Core_V3 (operationItem : Operation) :
  respects anyState Core
    (ParseSchemas.parseRequestBodySchema pascalCase doc config operationItem).
Proof.
  unfold ParseSchemas.parseRequestBodySchema.
  destruct (op_requestBody operationItem) as [body|];
    [destruct (ParseSchemas.isRef _)|];
    first [apply parseRef_Core_V3 | apply parseSchemaItem_Core_V3].
Qed.

Lemma parseResponseSchema_Core_V3 (operationItem : Operation) :
  respects anyState Core
    (ParseSchemas.parseResponseSchema pascalCase doc config operationItem).
Proof.
  unfold ParseSchemas.parseResponseSchema.
  destruct (op_response200 operationItem) as [res|];
    [destruct (ParseSchemas.isRef _)|];
    first [apply parseRef_Core_V3 | apply parseSchemaItem_Core_V3].
Qed.






End V3.

(** *** [ParseSchemasV2] *)

Section V2.

Variable pascalCase : string -> string.
Variable doc : Document.
Variable config : DocConfig.

Lemma parseRef_Core_V2 (ref : string) :
  respects anyState Core (ParseSchemasV2.parseRef pascalCase doc config ref).
Proof.
  eapply respects_weaken;
    [| |apply (parseRefFuel_respects pascalCase (doc_definitions doc)
                 (ParseSchemasV2.parseSchemaItemWith config))].
  - intros st _. apply Fuel_size.
  - done.
  - exact (fun P R rf tr step =>
             Hoare.parseSchemaItemWith_respects_V2 P R rf tr step config).
  - reflexivity.
Qed.

Lemma parseSchemaItem_Core_V2 (s : Schema) :
  respects anyState Core
    (ParseSchemasV2.parseSchemaItem pascalCase doc config s).
Proof.
  apply Hoare.parseSchemaItemWith_respects_V2;
    [apply Core_refl | apply Core_trans | apply anyState_step|].
  apply parseRef_Core_V2.
Qed.

Lemma parseSchemaItemOpt_Core_V2 (schemaItem : option Schema) :
  respects anyState Core
    (ParseSchemasV2.parseSchemaItemOpt pascalCase doc config schemaItem).
Proof.
  unfold ParseSchemasV2.parseSchemaItemOpt.
  destruct schemaItem; [apply parseSchemaItem_Core_V2 | apply Core_ret].
Qed.

Lemma parseParam_Loop_V2 (b : ParseSchemasV2.Buffers) (p : Param) :
  respects anyState Loop (ParseSchemasV2.parseParam pascalCase doc config b p).
Proof.
  unfold ParseSchemasV2.parseParam. destruct (ParseSchemasV2.isRef _).
  - apply Loop_bind; [apply Loop_log | intros; apply Loop_ret].
  - apply Loop_bind; [apply Core_to_Loop, parseSchemaItem_Core_V2|].
    intros t.
    repeat match goal with
           | |- respects _ _ (if ?c then _ else _) => destruct c
           | |- respects _ _ (mret _) => apply Loop_ret
           end.
    apply Loop_bind; [|intros; apply Loop_ret].
    apply Core_to_Loop, parseSchemaItemOpt_Core_V2.
Qed.

Lemma parseParamsSchema_Loop_V2 (operationItem : Operation) :
  respects anyState Loop
    (ParseSchemasV2.parseParamsSchema pascalCase doc config operationItem).
Proof.
  unfold ParseSchemasV2.parseParamsSchema.
  apply Loop_bind; [|intros; apply Loop_ret].
  apply Loop_foldM. intros; apply parseParam_Loop_V2.
Qed.

Lemma parseResponseSchema_Core_V2 (operationItem : Operation) :
  respects anyState Core
    (ParseSchemasV2.parseResponseSchema pascalCase doc config operationItem).
Proof.
  unfold ParseSchemasV2.parseResponseSchema.
  destruct (op_response200 operationItem) as [res|];
    [destruct (ParseSchemasV2.isRef _)|];
    first [apply parseRef_Core_V2 | apply parseSchemaItem_Core_V2].
Qed.





End V2.

End MethodFacts.

(** ** Parameters given as references *)

Module ParamFacts.
Import Hoare RegistryFacts MethodFacts MonadFacts.

Lemma ran {A : Type} (R : State -> State -> Prop) (m : M A)
    (st st' : State) (a : A) :
  respects anyState R m -> m st = Ok a st' -> R st st'.
Proof. intros Hm E. specialize (Hm st I). by rewrite E in Hm. Qed.

Lemma warnings_app (l1 l2 : list Param) :
  warnings (l1 ++ l2) = warnings l1 ++ warnings l2.
Proof. unfold warnings. by rewrite List.filter_app, List.map_app. Qed.

(** A loop whose iterations write their warnings, and whose
    iteration at [p] only writes its own, skips [p]. *)
Lemma loop_skips {B R : Type} (parseParam : B -> Param -> M B) (run : M R)
    (start : B) (close : B -> R) (before after : list Param) (p : Param) :
  Common.isRef (p_ref p) = true ->
  (forall st, run st = (b ← foldM parseParam start (before ++ p :: after);
                        mret (close b)) st) ->
  (forall b st, parseParam b p st = Ok b (log (LogParamRef p) st)) ->
  (forall b q st b' st',
      parseParam b q st = Ok b' st' ->
      console st' = console st ++ warnings [q]) ->
  SkippedWithWarning parseParam run start close before after p.
Proof.
  intros ref Hrun Hstep Hconsole.
  assert (forall l b st b' st',
            foldM parseParam b l st = Ok b' st' ->
            console st' = console st ++ warnings l) as Hloop.
  { induction l as [|q l IH]; intros b st b' st' run'.
    - injection run' as _ <-. unfold warnings. cbn. by rewrite app_nil_r.
    - rewrite foldM_cons in run'.
      apply bind_Ok in run' as (b1 & st1 & run1 & run').
      rewrite (IH _ _ _ _ run'), (Hconsole _ _ _ _ _ run1).
      change (q :: l) with ([q] ++ l).
      by rewrite warnings_app, app_assoc. }
  split; [|split; [|split]].
  - intros b st. exists (log (LogParamRef p) st). by rewrite Hstep.
  - intros st r st' run'. rewrite Hrun in run'.
    apply bind_Ok in run' as (b2 & st2 & loop & [= <- <-]).
    pose proof (Hloop _ _ _ _ _ loop) as Hc.
    rewrite foldM_app in loop.
    apply bind_Ok in loop as (b1 & st1 & run1 & loop).
    rewrite foldM_cons in loop.
    apply bind_Ok in loop as (b1' & st1' & runp & loop).
    rewrite Hstep in runp. injection runp as <- <-.
    exists b1, st1, (log (LogParamRef p) st1), b2.
    by rewrite Hstep.
  - intros st b1 st1 st1' b2 st' run1 runp run2.
    rewrite Hrun, bind_run, foldM_app, bind_run, run1.
    by rewrite foldM_cons, bind_run, runp, run2.
  - intros st e run'. rewrite Hrun, bind_run, foldM_app, bind_run in run'.
    destruct (foldM parseParam start before st) as [b1 st1|e1] eqn:run1;
      [|left; by injection run' as <-].
    right. exists b1, st1, (log (LogParamRef p) st1).
    split; [done|]. split; [by rewrite Hstep|].
    rewrite foldM_cons, bind_run, Hstep in run'.
    destruct (foldM parseParam b1 after _) as [b2 st2|e2];
      [discriminate | by injection run' as <-].
Qed.

Section Loops.

Variable pascalCase : string -> string.
Variable doc : Document.
Variable config : DocConfig.

Lemma parseParam_reference_V3 (b : ParseSchemas.Buffers) (p : Param)
    (st : State) :
  Common.isRef (p_ref p) = true ->
  ParseSchemas.parseParam pascalCase doc config b p st
  = Ok b (log (LogParamRef p) st).
Proof.
  intros ref. unfold ParseSchemas.parseParam, ParseSchemas.isRef.
  by rewrite ref.
Qed.

Lemma parseParam_reference_V2 (b : ParseSchemasV2.Buffers) (p : Param)
    (st : State) :
  Common.isRef (p_ref p) = true ->
  ParseSchemasV2.parseParam pascalCase doc config b p st
  = Ok b (log (LogParamRef p) st).
Proof.
  intros ref. unfold ParseSchemasV2.parseParam, ParseSchemasV2.isRef.
  by rewrite ref.
Qed.

(** An iteration writes to the console for a reference only. *)
Lemma parseParam_console_V3 (b b' : ParseSchemas.Buffers) (q : Param)
    (st st' : State) :
  ParseSchemas.parseParam pascalCase doc config b q st = Ok b' st' ->
  console st' = console st ++ warnings [q].
Proof.
  unfold warnings. cbn [List.filter].
  destruct (Common.isRef (p_ref q)) eqn:ref.
  - rewrite parseParam_reference_V3 by exact ref. by intros [= _ <-].
  - cbn [List.map]. rewrite app_nil_r.
    unfold ParseSchemas.parseParam, ParseSchemas.isRef. rewrite ref.
    intros run. apply bind_Ok in run as (t & st1 & run1 & run).
    apply (ran _ _ _ _ _ (parseSchemaItem_Core_V3 _ _ _ _)) in run1
      as (_ & Hc & _).
    repeat match type of run with
           | context [if ?c then _ else _] => destruct c
           end; by injection run as _ <-.
Qed.

Lemma parseParam_console_V2 (b b' : ParseSchemasV2.Buffers) (q : Param)
    (st st' : State) :
  ParseSchemasV2.parseParam pascalCase doc config b q st = Ok b' st' ->
  console st' = console st ++ warnings [q].
Proof.
  unfold warnings. cbn [List.filter].
  destruct (Common.isRef (p_ref q)) eqn:ref.
  - rewrite parseParam_reference_V2 by exact ref. by intros [= _ <-].
  - cbn [List.map]. rewrite app_nil_r.
    unfold ParseSchemasV2.parseParam, ParseSchemasV2.isRef. rewrite ref.
    intros run. apply bind_Ok in run as (t & st1 & run1 & run).
    apply (ran _ _ _ _ _ (parseSchemaItem_Core_V2 _ _ _ _)) in run1
      as (_ & Hc & _).
    repeat match type of run with
           | context [if ?c then _ else _] => destruct c
           end; try by injection run as _ <-.
    apply bind_Ok in run as (t' & st2 & run2 & run).
    apply (ran _ _ _ _ _ (parseSchemaItemOpt_Core_V2 _ _ _ _)) in run2
      as (_ & Hc2 & _).
    injection run as _ <-. congruence.
Qed.

End Loops.

(** C9. A parameter given as a reference object makes the loop of
    [parseParamsSchema], in both translators, write a warning to the
    console and go on: the iteration never fails, hands back the
    buffers of the path, the query and the body as it got them and
    changes nothing of the instance but the console; the parameters
    before and after it are processed as they would be without it,
    and a failure of the method is the failure of one of them. The
    console ends with one line for each reference among the
    parameters. *)
Theorem parseParamsSchema_reference_skipped (pascalCase : string -> string)
    (doc : Document) (config : DocConfig) (operationItem : Operation)
    (before after : list Param) (p : Param) :
  op_parameters operationItem = Some (before ++ p :: after) ->
  Common.isRef (p_ref p) = true ->
  SkippedWithWarning
    (ParseSchemas.parseParam pascalCase doc config)
    (ParseSchemas.parseParamsSchema pascalCase doc config operationItem)
    {| ParseSchemas.path := ""; ParseSchemas.query := "" |}
    ParseSchemas.closeBuffers before after p /\
  SkippedWithWarning
    (ParseSchemasV2.parseParam pascalCase doc config)
    (ParseSchemasV2.parseParamsSchema pascalCase doc config operationItem)
    {| ParseSchemasV2.isFormDataBody := false; ParseSchemasV2.path := "";
       ParseSchemasV2.query := ""; ParseSchemasV2.body := "" |}
    ParseSchemasV2.closeBuffers before after p.
Proof.
  intros params ref. split.
  - apply loop_skips; [exact ref | | |].
    + intros st. unfold ParseSchemas.parseParamsSchema. by rewrite params.
    + intros b st. by apply parseParam_reference_V3.
    + intros b q st b' st'. apply parseParam_console_V3.
  - apply loop_skips; [exact ref | | |].
    + intros st. unfold ParseSchemasV2.parseParamsSchema. by rewrite params.
    + intros b st. by apply parseParam_reference_V2.
    + intros b q st b' st'. apply parseParam_console_V2.
Qed.

(** The theorem at a parameter list with a reference between two
    inline parameters, in OpenAPI 3 and in Swagger 2. *)
Lemma parseParamsSchema_reference_skipped_witness :
  match ParseSchemas.parseParamsSchema ChangeCase.pascalCase
          Samples.usersV3 Samples.config Cases.paged initialState with
  | Ok paramsSchema st' =>
      paramsSchema
      = {| ParseSchemas.ps_path := "{" +:+ String "010" "  id: number"
                                   +:+ String "010" "}";
           ParseSchemas.ps_query := "{" +:+ String "010" "  'q': string"
                                    +:+ String "010" "}" |} /\
      console st' = [LogParamRef Cases.page]
  | Fail _ => False
  end /\
  match ParseSchemasV2.parseParamsSchema ChangeCase.pascalCase
          Samples.usersV2 Samples.config Cases.pagedV2 initialState with
  | Ok paramsSchema st' =>
      ParseSchemasV2.ps_path paramsSchema
      = "{" +:+ String "010" "  id: number" +:+ String "010" "}" /\
      ParseSchemasV2.ps_query paramsSchema
      = "{" +:+ String "010" "  'q': string" +:+ String "010" "}" /\
      ParseSchemasV2.ps_body paramsSchema = "" /\
      console st' = [LogParamRef Cases.page]
  | Fail _ => False
  end.
Proof.
  split.
  - destruct (parseParamsSchema_reference_skipped ChangeCase.pascalCase
                Samples.usersV3 Samples.config Cases.paged
                [Samples.param "id" "path" (Samples.typed "integer")]
                [Samples.param "q" "query" (Samples.typed "string")]
                Cases.page eq_refl eq_refl) as [(_ & returns & _) _].
    destruct (ParseSchemas.parseParamsSchema _ Samples.usersV3 Samples.config
                Cases.paged initialState) as [paramsSchema st'|e] eqn:run;
      [|vm_compute in run; discriminate run].
    destruct (returns _ _ _ run) as (b1 & st1 & st1' & b2 & _ & _ & _ & _ & Hc).
    split; [|exact Hc].
    vm_compute in run. by injection run as <- _.
  - destruct (parseParamsSchema_reference_skipped ChangeCase.pascalCase
                Samples.usersV2 Samples.config Cases.pagedV2
                [Samples.paramV2 "id" "path" "integer"]
                [Samples.paramV2 "q" "query" "string"]
                Cases.page eq_refl eq_refl) as [_ (_ & returns & _)].
    destruct (ParseSchemasV2.parseParamsSchema _ Samples.usersV2
                Samples.config Cases.pagedV2 initialState)
      as [paramsSchema st'|e] eqn:run;
      [|vm_compute in run; discriminate run].
    destruct (returns _ _ _ run) as (b1 & st1 & st1' & b2 & _ & _ & _ & _ & Hc).
    split; [|split; [|split; [|exact Hc]]];
      vm_compute in run; by injection run as <- _.
Defined.

End ParamFacts.

(** ** References are named alike and declared once *)

Module ReferenceFacts.
Import Hoare RegistryFacts MethodFacts.

Section Registry.

Variable pascalCase : string -> string.
Variable schemas : option (gmap string Schema).
Variable parseSchemaItemWith : (string -> M string) -> Schema -> M string.

Hypothesis parseSchemaItemWith_respects :
  forall (P : State -> Prop) (R : State -> State -> Prop),
    (forall st, R st st) ->
    (forall a b c, R a b -> R b c -> R a c) ->
    (forall st st', P st -> R st st' -> P st') ->
    forall parseRef, (forall ref, respects P R (parseRef ref)) ->
    forall s, respects P R (parseSchemaItemWith parseRef s).

Hypothesis parseSchemaItemWith_empty :
  forall parseRef st, parseSchemaItemWith parseRef emptySchema st = Ok "" st.

(** [parseRef] with the fuel the classes give it. *)
Local Abbreviation parseRef :=
  (Common.parseRefFuel pascalCase schemas parseSchemaItemWith
     (Common.fuelFor schemas)).


End Registry.


End ReferenceFacts.

(** ** What [parsePaths] stores *)

Module OperationFacts.
Import Hoare RegistryFacts MethodFacts MonadFacts.

Lemma ran_Core {A : Type} (m : M A) (st st' : State) (a : A) :
  respects anyState Core m -> m st = Ok a st' -> tags st' = tags st.
Proof. intros Hm E. specialize (Hm st I). rewrite E in Hm. apply Hm. Qed.

Lemma ran_Loop {A : Type} (m : M A) (st st' : State) (a : A) :
  respects anyState Loop m -> m st = Ok a st' -> tags st' = tags st.
Proof. intros Hm E. specialize (Hm st I). rewrite E in Hm. apply Hm. Qed.

(** The group of [tag] after [ensureGroup] and a [pushItem] that
    returns: the tag is not the name of a member that [tags]
    inherits, unless [tags] has a group of that name. *)
Lemma tags_pushItem (tag : string) (item : RequestItem)
    (requestItems : RequestItems) (st st1 st2 st' : State) :
  ensureGroup tag st = Ok requestItems st1 ->
  tags st2 = tags st1 ->
  pushItem requestItems item st2 = Ok tt st' ->
  tags st' = <[tag := default [] (tags st !! tag) ++ [item]]> (tags st) /\
  (is_Some (tags st !! tag) \/ JS.inherited tag = false).
Proof.
  unfold ensureGroup. intros Hensure E Hpush.
  destruct (tags st !! tag) as [items|] eqn:Hg.
  - injection Hensure as <- <-. cbn in Hpush. injection Hpush as <-.
    split; [|left; by eexists]. cbn [setTags tags]. by rewrite E, Hg.
  - destruct (JS.inherited tag); injection Hensure as <- <-;
      [discriminate Hpush|].
    cbn in Hpush. injection Hpush as <-. split; [|by right].
    cbn [setTags tags]. rewrite E. cbn [setTags tags].
    by rewrite lookup_insert_eq, insert_insert_eq.
Qed.

(** [mergeManualTypes] writes the four type fields only. *)
Lemma mergeManualTypes_keeps (Q : RequestItem -> Prop) :
  (forall k t i, Q i -> Q (ParseSchemasV2.setField k t i)) ->
  forall manual item, Q item -> Q (ParseSchemasV2.mergeManualTypes item manual).
Proof.
  intros Qset manual item Qi. unfold ParseSchemasV2.mergeManualTypes.
  cbn zeta.
  match goal with
  | |- Q (fold_left ?g (snd (fold_left ?h _ _)) _) =>
      set (store := g); set (start := h)
  end.
  enough (forall manual cur pending,
            Q cur ->
            Q (fold_left store (snd (fold_left start manual (cur, pending)))
                 (fst (fold_left start manual (cur, pending))))) by auto.
  clear manual item Qi.
  induction manual as [|[k t] manual IH]; intros cur pending Qc.
  - cbn [fold_left fst snd]. revert cur Qc.
    induction pending as [|[k v] pending IH]; intros cur Qc; [exact Qc|].
    cbn [fold_left]. apply IH. by apply Qset.
  - cbn [fold_left]. destruct t as [v|f].
    + replace (start (cur, pending) (k, ManualGiven v))
        with (if ParseSchemasV2.manualTruthy v
              then (ParseSchemasV2.setField k
                      (ParseSchemasV2.manualResolve v) cur, pending)
              else (cur, pending)) by reflexivity.
      destruct (ParseSchemasV2.manualTruthy v); apply IH; auto.
    + replace (start (cur, pending) (k, ManualFunction f))
        with (cur, pending ++ [(k, f cur)]) by reflexivity.
      by apply IH.
Qed.

Section Operation.

Variable pascalCase : string -> string.
Variable regExpReplace : string -> string -> option string.
Variable doc : Document.
Variable config : DocConfig.

(** An operation under a key that is not an HTTP method, or under a
    tag the filter rejects, leaves the instance as it is. *)
Lemma parseOperation_skips_V3 (url key : string) (operationItem : Operation)
    (st : State) :
  Utils.inHttpMethods (JS.toUpperCase key) = false ->
  ParseSchemas.parseOperation pascalCase regExpReplace doc config url key
    operationItem st
  = Ok tt st.
Proof. intros E. unfold ParseSchemas.parseOperation. by rewrite E. Qed.

Lemma parseOperation_skips_V2 (url key : string) (operationItem : Operation)
    (st : State) :
  Utils.inHttpMethods (JS.toUpperCase key) = false ->
  ParseSchemasV2.parseOperation pascalCase doc config url key operationItem st
  = Ok tt st.
Proof. intros E. unfold ParseSchemasV2.parseOperation. by rewrite E. Qed.

(** A run of [parseOperation] that returns either leaves the
    instance alone or appends one item to the group of the tag. *)
Lemma parseOperation_stores_V3 (url key : string) (operationItem : Operation)
    (st st' : State) :
  ParseSchemas.parseOperation pascalCase regExpReplace doc config url key
    operationItem st
  = Ok tt st' ->
  let tag := firstTagOrMain operationItem in
  if Utils.inHttpMethods (JS.toUpperCase key)
     && TagValidator.validate (TagValidator.new config) tag
  then exists item rest,
      regExpReplace (duplicatePrefixPattern tag key)
        (JS.orOpt (op_operationId operationItem) (urlName config url))
      = Some rest /\
      tags st' = <[tag := default [] (tags st !! tag) ++ [item]]> (tags st) /\
      (is_Some (tags st !! tag) \/ JS.inherited tag = false) /\
      ri_name item = key +:+ pascalCase rest /\
      ri_url item = url /\ ri_method item = key
  else st' = st.
Proof.
  unfold ParseSchemas.parseOperation, ParseSchemas._tagValidator. cbn zeta.
  destruct (Utils.inHttpMethods _); cbn [negb andb]; [|by intros [= <-]].
  destruct (TagValidator.validate _ _); cbn [negb]; [|by intros [= <-]].
  intros run.
  apply bind_Ok in run as (name & st0 & runn & run).
  unfold ParseSchemas.operationName in runn.
  destruct (regExpReplace _ _) as [rest|] eqn:Hrest; [|discriminate].
  injection runn as <- <-.
  apply bind_Ok in run as (requestItems & st1 & rune & run).
  apply bind_Ok in run as (paramsSchema & st2 & run1 & run).
  apply bind_Ok in run as (body & st3 & run2 & run).
  apply bind_Ok in run as (res & st4 & run3 & run).
  eapply tags_pushItem in run as [Htags Hown]; [|exact rune|].
  { eexists _, rest. split; [reflexivity|]. split; [exact Htags|].
    split; [exact Hown|]. by repeat split. }
  rewrite (ran_Core _ _ _ _ (parseResponseSchema_Core_V3 _ _ _ _) run3).
  rewrite (ran_Core _ _ _ _ (parseRequestBodySchema_Core_V3 _ _ _ _) run2).
  by rewrite (ran_Loop _ _ _ _ (parseParamsSchema_Loop_V3 _ _ _ _) run1).
Qed.

Lemma parseOperation_stores_V2 (url key : string) (operationItem : Operation)
    (st st' : State) :
  ParseSchemasV2.parseOperation pascalCase doc config url key operationItem st
  = Ok tt st' ->
  let tag := ParseSchemasV2.operationTag config url key operationItem in
  if Utils.inHttpMethods (JS.toUpperCase key)
     && TagValidator.validate (TagValidator.new config) tag
  then exists item paramsSchema st1 st2,
      ParseSchemasV2.parseParamsSchema pascalCase doc config operationItem st1
      = Ok paramsSchema st2 /\
      tags st' = <[tag := default [] (tags st !! tag) ++ [item]]> (tags st) /\
      ri_name item = key +:+ pascalCase (urlName config url) /\
      ri_url item = url /\ ri_method item = key /\
      ri_requestBodyTypeIsFormData item
      = Some (ParseSchemasV2.ps_isFormDataBody paramsSchema) /\
      (ParseSchemasV2.manualTypesOf config url key = None ->
       ri_requestBodyType item = ParseSchemasV2.ps_body paramsSchema)
  else st' = st.
Proof.
  unfold ParseSchemasV2.parseOperation, ParseSchemasV2._tagValidator.
  cbn zeta.
  destruct (Utils.inHttpMethods _); cbn [negb andb]; [|by intros [= <-]].
  destruct (TagValidator.validate _ _); cbn [negb]; [|by intros [= <-]].
  intros run.
  apply bind_Ok in run as (requestItems & st0 & rune & run).
  apply bind_Ok in run as (paramsSchema & st1 & run1 & run).
  apply bind_Ok in run as (res & st2 & run2 & run).
  eapply tags_pushItem in run as [Htags _]; [|exact rune|].
  2: { rewrite (ran_Core _ _ _ _ (parseResponseSchema_Core_V2 _ _ _ _) run2).
       by rewrite (ran_Loop _ _ _ _ (parseParamsSchema_Loop_V2 _ _ _ _) run1). }
  eexists _, paramsSchema, _, st1. split; [exact run1|].
  split; [exact Htags|].
  destruct (ParseSchemasV2.manualTypesOf config url key) as [manual|].
  - pose proof (mergeManualTypes_keeps
      (fun i => ri_name i = key +:+ pascalCase (urlName config url) /\
                ri_url i = url /\ ri_method i = key /\
                ri_requestBodyTypeIsFormData i
                = Some (ParseSchemasV2.ps_isFormDataBody paramsSchema))
      (fun k t i Qi => Qi) manual) as kept.
    match goal with
    | |- context [ParseSchemasV2.mergeManualTypes ?item manual] =>
        destruct (kept item) as (k1 & k2 & k3 & k4); [done|]
    end.
    repeat split; try done.
  - by repeat split.
Qed.

Lemma AllItems_store (Q : RequestItem -> Prop) (tag : string)
    (item : RequestItem) (st st' : State) :
  AllItems Q st ->
  tags st' = <[tag := default [] (tags st !! tag) ++ [item]]> (tags st) ->
  Q item -> AllItems Q st'.
Proof.
  intros all E Qi tag' items. rewrite E, lookup_insert.
  destruct (decide (tag = tag')) as [<-|ne]; [|apply all].
  intros [= <-]. apply Forall_app. split; [|by constructor].
  destruct (tags st !! tag) as [old|] eqn:Hg; [by apply (all tag)|constructor].
Qed.

Lemma foldM_invariant {A B : Type} (Inv : State -> Prop)
    (f : B -> A -> M B) (l : list A) :
  (forall acc x st b st',
      x ∈ l -> Inv st -> f acc x st = Ok b st' -> Inv st') ->
  forall acc st b st', Inv st -> foldM f acc l st = Ok b st' -> Inv st'.
Proof.
  induction l as [|x l IH]; intros step acc st b st' HI run.
  - by injection run as _ <-.
  - rewrite foldM_cons in run.
    apply bind_Ok in run as (acc' & st1 & run1 & run).
    eapply (IH (fun acc x st b st' Hx => step acc x st b st'
                  (list_elem_of_further _ _ _ Hx))); [|exact run].
    eapply step; [left | exact HI | exact run1].
Qed.

Lemma parsePaths_items_V3 (st st' : State) :
  AllItems (FromDocument doc) st ->
  ParseSchemas.parsePaths pascalCase regExpReplace doc config st = Ok tt st' ->
  AllItems (FromDocument doc) st'.
Proof.
  unfold ParseSchemas.parsePaths. intros all run.
  eapply (foldM_invariant (AllItems (FromDocument doc))); [|exact all|exact run].
  intros [] [url pathItem] st1 [] st2 Hurl all1 run1.
  eapply (foldM_invariant (AllItems (FromDocument doc))); [|exact all1|exact run1].
  intros [] [key operationItem] st3 [] st4 Hkey all3 run3.
  apply parseOperation_stores_V3 in run3. cbn zeta in run3.
  destruct (Utils.inHttpMethods _) eqn:Hm; cbn [andb] in run3;
    [|by subst st4].
  destruct (TagValidator.validate _ _); [|by subst st4].
  destruct run3 as (item & rest & _ & Htags & _ & _ & Hu & Hk).
  eapply AllItems_store; [exact all3 | exact Htags|].
  split; [by rewrite Hk|]. exists pathItem, operationItem.
  by rewrite Hu, Hk.
Qed.

Lemma parsePaths_items_V2 (st st' : State) :
  AllItems (FromDocument doc) st ->
  ParseSchemasV2.parsePaths pascalCase doc config st = Ok tt st' ->
  AllItems (FromDocument doc) st'.
Proof.
  unfold ParseSchemasV2.parsePaths. intros all run.
  eapply (foldM_invariant (AllItems (FromDocument doc))); [|exact all|exact run].
  intros [] [url pathItem] st1 [] st2 Hurl all1 run1.
  eapply (foldM_invariant (AllItems (FromDocument doc))); [|exact all1|exact run1].
  intros [] [key operationItem] st3 [] st4 Hkey all3 run3.
  apply parseOperation_stores_V2 in run3. cbn zeta in run3.
  destruct (Utils.inHttpMethods _) eqn:Hm; cbn [andb] in run3;
    [|by subst st4].
  destruct (TagValidator.validate _ _); [|by subst st4].
  destruct run3 as (item & ps & sa & sb & _ & Htags & _ & Hu & Hk & _).
  eapply AllItems_store; [exact all3 | exact Htags|].
  split; [by rewrite Hk|]. exists pathItem, operationItem.
  by rewrite Hu, Hk.
Qed.

(** C10. In both translators an operation under a key whose upper
    case is not [GET], [PUT], [POST] or [DELETE] ([patch], [head] and
    [options] among them) leaves the instance as it is: no group, no
    declaration, no warning; and every item that [parsePaths] stores
    on a fresh instance, whichever translator [generate] picks, comes
    from a key of a path item whose upper case is one of the four. *)
Theorem parsePaths_only_http_methods :
  (forall (url key : string) (operationItem : Operation) (st : State),
      Utils.inHttpMethods (JS.toUpperCase key) = false ->
      ParseSchemas.parseOperation pascalCase regExpReplace doc config url
        key operationItem st = Ok tt st /\
      ParseSchemasV2.parseOperation pascalCase doc config url key
        operationItem st = Ok tt st) /\
  (forall key, Utils.inHttpMethods (JS.toUpperCase key) = true <->
               JS.toUpperCase key ∈ ["GET"; "PUT"; "POST"; "DELETE"]) /\
  Forall (fun key => Utils.inHttpMethods (JS.toUpperCase key) = false)
         ["patch"; "head"; "options"; "trace"; "parameters"; "summary"] /\
  (forall (st' : State) (tag : string) (items : list RequestItem)
          (item : RequestItem),
      Generator.parsePaths pascalCase regExpReplace config doc initialState
      = Ok tt st' ->
      tags st' !! tag = Some items -> item ∈ items ->
      FromDocument doc item).
Proof.
  split; [|split; [|split]].
  - intros url key operationItem st E.
    by rewrite parseOperation_skips_V3, parseOperation_skips_V2.
  - intros key. rewrite InheritedFacts.inHttpMethods_upper.
    unfold Utils.HttpMethods. rewrite existsb_exists. split.
    + intros (x & Hx & E). apply String.eqb_eq in E. subst x.
      by apply list_elem_of_In.
    + intros H. exists (JS.toUpperCase key).
      split; [by apply list_elem_of_In | apply String.eqb_refl].
  - by repeat constructor.
  - intros st' tag items item run Hg Hi.
    assert (AllItems (FromDocument doc) initialState) as all0.
    { intros t l. cbn. by rewrite lookup_empty. }
    assert (AllItems (FromDocument doc) st') as all.
    { unfold Generator.parsePaths in run. destruct (isSome _).
      - by apply (parsePaths_items_V2 initialState).
      - by apply (parsePaths_items_V3 initialState). }
    specialize (all tag items Hg). rewrite Forall_forall in all.
    by apply all.
Qed.

End Operation.

End OperationFacts.

(** ** Patterns without pattern syntax *)

Module LiteralFacts.









End LiteralFacts.

(** ** The name of a request function *)

Module NameFacts.
Import OperationFacts MonadFacts.

Lemma stored_last (tag : string) (item : RequestItem) (st st' : State) :
  tags st' = <[tag := default [] (tags st !! tag) ++ [item]]> (tags st) ->
  tags st' !! tag = Some (default [] (tags st !! tag) ++ [item]).
Proof. intros ->. apply lookup_insert_eq. Qed.

(** The prefix goes before [pascalCase] sees the name: [getUser] filed
    under [main] and read by [get] is named [get] + [User], not [get] +
    [GetUser]; under the tag [user] the operation id [User_GetInfo]
    loses [User_Get]. *)
Lemma withoutDuplicatePrefix_examples :
  withoutDuplicatePrefix "main" "get" "getUser" = "User" /\
  withoutDuplicatePrefix "user" "get" "User_GetInfo" = "Info" /\
  withoutDuplicatePrefix "user" "get" "listUsers" = "listUsers".
Proof. repeat split. Qed.



End NameFacts.

(** ** Form data *)

Module FormDataFacts.
Import OperationFacts MonadFacts.

Lemma parseParam_formData pascalCase doc config (b b' : ParseSchemasV2.Buffers)
    (p : Param) (st st' : State) :
  ParseSchemasV2.isRef (p_ref p) = false -> p_in p = "formData" ->
  ParseSchemasV2.body b = "" \/ FormDataStarted b ->
  ParseSchemasV2.parseParam pascalCase doc config b p st = Ok b' st' ->
  FormDataStarted b'.
Proof.
  intros inline loc start. unfold ParseSchemasV2.parseParam.
  rewrite inline, loc. cbn [String.eqb Ascii.eqb Bool.eqb].
  rewrite bind_run.
  destruct (ParseSchemasV2.parseSchemaItem _ _ _ _ st) as [t st1|e];
    [|discriminate].
  intros [= <- <-]. split; [reflexivity|]. cbn [ParseSchemasV2.body].
  destruct start as [-> | (_ & rest & ->)]; eexists; reflexivity.
Qed.

(** Once a form-data field is in the buffer, no parameter takes the
    flag back or the brace from the front. *)
Lemma parseParam_keeps_formData pascalCase doc config
    (b b' : ParseSchemasV2.Buffers) (p : Param) (st st' : State) :
  FormDataStarted b ->
  ParseSchemasV2.parseParam pascalCase doc config b p st = Ok b' st' ->
  FormDataStarted b'.
Proof.
  intros (flag & rest & E). unfold ParseSchemasV2.parseParam.
  destruct (ParseSchemasV2.isRef _).
  { intros [= <- _]. by split; [|exists rest]. }
  rewrite bind_run.
  destruct (ParseSchemasV2.parseSchemaItem _ _ _ _ st) as [t st1|e];
    [|discriminate].
  repeat match goal with
         | |- context [if ?c then _ else _] => destruct c
         end;
    try (intros [= <- _]; split; [done|]; cbn [ParseSchemasV2.body];
         rewrite ?E; eexists; reflexivity).
  rewrite bind_run.
  destruct (ParseSchemasV2.parseSchemaItemOpt _ _ _ _ st1) as [t' st2|e];
    [|discriminate].
  intros [= <- _]. split; [done|]. cbn [ParseSchemasV2.body]. rewrite E.
  eexists; reflexivity.
Qed.

Lemma parseParam_leaves_body pascalCase doc config
    (b b' : ParseSchemasV2.Buffers) (p : Param) (st st' : State) :
  LeavesBody p ->
  ParseSchemasV2.parseParam pascalCase doc config b p st = Ok b' st' ->
  ParseSchemasV2.body b' = ParseSchemasV2.body b.
Proof.
  intros leaves. unfold ParseSchemasV2.parseParam.
  destruct (ParseSchemasV2.isRef _) eqn:ref; [by intros [= <- _]|].
  destruct leaves as [|[notForm notRoot]]; [congruence|].
  rewrite bind_run.
  destruct (ParseSchemasV2.parseSchemaItem _ _ _ _ st) as [t st1|e];
    [|discriminate].
  destruct (String.eqb_spec (p_in p) "path"); [by intros [= <- _]|].
  destruct (String.eqb_spec (p_in p) "query"); [by intros [= <- _]|].
  destruct (String.eqb_spec (p_in p) "formData"); [done|].
  destruct (String.eqb_spec (p_in p) "body"); [|by intros [= <- _]].
  destruct (String.eqb_spec (p_name p) "root"); [by destruct notRoot|].
  by intros [= <- _].
Qed.

Lemma parseParams_leave_body pascalCase doc config (params : list Param) :
  Forall LeavesBody params ->
  forall b b' st st',
    foldM (ParseSchemasV2.parseParam pascalCase doc config) b params st
    = Ok b' st' ->
    ParseSchemasV2.body b' = ParseSchemasV2.body b.
Proof.
  induction 1 as [|p params leaves _ IH]; intros b b' st st' run.
  - by injection run as <- _.
  - rewrite foldM_cons in run. apply bind_Ok in run as (b1 & st1 & run1 & run).
    rewrite (IH _ _ _ _ run).
    by apply (parseParam_leaves_body _ _ _ _ _ _ _ _ leaves run1).
Qed.

Lemma parseParams_keep_formData pascalCase doc config (params : list Param) :
  forall b b' st st',
    FormDataStarted b ->
    foldM (ParseSchemasV2.parseParam pascalCase doc config) b params st
    = Ok b' st' ->
    FormDataStarted b'.
Proof.
  induction params as [|p params IH]; intros b b' st st' started run.
  - by injection run as <- _.
  - rewrite foldM_cons in run. apply bind_Ok in run as (b1 & st1 & run1 & run).
    eapply IH; [|exact run].
    by apply (parseParam_keeps_formData _ _ _ _ _ _ _ _ started run1).
Qed.

(** The loop over a list that holds a form-data field with nothing
    written to the body before it. *)
Lemma parseParams_formData pascalCase doc config
    (before after : list Param) (p : Param) :
  Forall LeavesBody before ->
  ParseSchemasV2.isRef (p_ref p) = false -> p_in p = "formData" ->
  forall b b' st st',
    ParseSchemasV2.body b = "" ->
    foldM (ParseSchemasV2.parseParam pascalCase doc config) b
      (before ++ p :: after) st = Ok b' st' ->
    FormDataStarted b'.
Proof.
  intros leaves inline loc b b' st st' empty run.
  rewrite foldM_app in run. apply bind_Ok in run as (b1 & st1 & run1 & run).
  rewrite foldM_cons in run. apply bind_Ok in run as (b2 & st2 & run2 & run).
  eapply parseParams_keep_formData; [|exact run].
  eapply parseParam_formData; [exact inline | exact loc | | exact run2].
  left. rewrite <- empty. by apply (parseParams_leave_body _ _ _ before leaves
                                      _ _ _ _ run1).
Qed.

Lemma closeBuffers_formData (b : ParseSchemasV2.Buffers) :
  FormDataStarted b ->
  String.prefix "FormData | {"
    (ParseSchemasV2.ps_body (ParseSchemasV2.closeBuffers b)) = true /\
  ParseSchemasV2.ps_isFormDataBody (ParseSchemasV2.closeBuffers b) = true.
Proof.
  intros (flag & rest & E). unfold ParseSchemasV2.closeBuffers.
  cbn [ParseSchemasV2.ps_body ParseSchemasV2.ps_isFormDataBody].
  rewrite flag, E. split; [|reflexivity].
  change ("FormData | " +:+ String "{" rest +:+ "}")
    with ("FormData | {" +:+ (rest +:+ "}")).
  apply StringFacts.prefix_append.
Qed.

(** [data] is among the arguments of the call exactly when there is a
    body type and the method starts with [post] or [put]. *)
Lemma callArguments_data (docOptions : DocConfig) (item : RequestItem) :
  "options.data" ∈ Generator.callArguments docOptions item <->
  JS.truthy (ri_requestBodyType item) = true /\
  Generator.isPostOrPut (ri_method item) = true.
Proof.
  unfold Generator.callArguments, Generator.applyArgsData.
  rewrite <- andb_true_iff.
  destruct (JS.truthy (ri_requestBodyType item)
            && Generator.isPostOrPut (ri_method item)).
  - split; [done|]. intros _. cbn [filter]. 
    apply list_elem_of_In, filter_In. split; [|reflexivity].
    right. by left.
  - split; [|done]. intros H. apply list_elem_of_In, filter_In in H as [H _].
    destruct H as [H|[H|[H|[]]]]; [discriminate H| discriminate H|].
    by destruct (JS.truthy (ri_requestQueryType item)).
Qed.

(** C6 (as amended). An operation of [ParseSchemasV2] whose parameters
    hold a form-data field (two, or any number from one up), with no
    body parameter [root] before the first of them and with no manual
    type configured, is stored with a body type that begins with
    [FormData | {] and with the form-data flag set. The generator does
    not read the flag: the function it writes is the same whatever the
    flag, and [options.data] is an argument of the call exactly when
    the method begins with [post] or [put]. *)
Theorem formData_body (pascalCase : string -> string) (doc : Document)
    (config : DocConfig) (url key : string) (operationItem : Operation)
    (before after : list Param) (p : Param) (st st' : State) :
  op_parameters operationItem = Some (before ++ p :: after) ->
  Forall LeavesBody before ->
  ParseSchemasV2.isRef (p_ref p) = false -> p_in p = "formData" ->
  Utils.inHttpMethods (JS.toUpperCase key) = true ->
  TagValidator.validate (TagValidator.new config)
    (ParseSchemasV2.operationTag config url key operationItem) = true ->
  ParseSchemasV2.manualTypesOf config url key = None ->
  ParseSchemasV2.parseOperation pascalCase doc config url key operationItem st
  = Ok tt st' ->
  exists item,
    tags st' !! ParseSchemasV2.operationTag config url key operationItem
    = Some (default []
              (tags st !! ParseSchemasV2.operationTag config url key
                            operationItem)
            ++ [item]) /\
    String.prefix "FormData | {" (ri_requestBodyType item) = true /\
    ri_requestBodyTypeIsFormData item = Some true /\
    ("options.data" ∈ Generator.callArguments config item <->
     Generator.isPostOrPut key = true) /\
    (forall flag tag ssr,
        Generator.createFunctionTemplate pascalCase config tag
          (withFormDataFlag flag item) ssr
        = Generator.createFunctionTemplate pascalCase config tag item ssr).
Proof.
  intros Hparams leaves inline loc method valid manual run.
  apply parseOperation_stores_V2 in run. cbn zeta in run.
  rewrite method, valid in run.
  destruct run as (item & ps & sa & sb & runp & Htags & _ & _ & Hkey & Hflag
                   & Hbody).
  specialize (Hbody manual).
  unfold ParseSchemasV2.parseParamsSchema in runp. rewrite Hparams in runp.
  cbn [default] in runp. apply bind_Ok in runp as (b & s1 & runf & close).
  injection close as <- _.
  assert (FormDataStarted b) as started.
  { refine (parseParams_formData _ _ _ before after p leaves inline loc
              _ b _ _ _ runf). reflexivity. }
  destruct (closeBuffers_formData b started) as [Hprefix Hset].
  exists item. split; [by apply NameFacts.stored_last|].
  split; [by rewrite Hbody|]. split; [by rewrite Hflag, Hset|]. split.
  - rewrite callArguments_data, Hkey, Hbody. split; [by intros [_ ?]|].
    intros ?. split; [|done].
    destruct (ParseSchemasV2.ps_body _); [discriminate Hprefix | done].
  - reflexivity.
Qed.

End FormDataFacts.

(** ** The theorems at sample inputs *)

Module SampleFacts.
Import Samples.




(** C6 at [POST /upload] with two form-data fields. *)
Lemma formData_body_witness :
  match ParseSchemasV2.parseOperation ChangeCase.pascalCase uploadV2 config
          "/upload" "post" upload initialState with
  | Ok _ st' =>
      exists item,
        tags st' !! "main" = Some [item] /\
        String.prefix "FormData | {" (ri_requestBodyType item) = true /\
        ri_requestBodyTypeIsFormData item = Some true /\
        "options.data" ∈ Generator.callArguments config item
  | Fail _ => False
  end.
Proof.
  destruct (ParseSchemasV2.parseOperation _ uploadV2 config _ _ _ _)
    as [[] st'|e] eqn:run; [|vm_compute in run; discriminate run].
  destruct (FormDataFacts.formData_body ChangeCase.pascalCase uploadV2 config
              "/upload" "post" upload
              [] [paramV2 "title" "formData" "string"]
              (paramV2 "file" "formData" "file")
              initialState st' eq_refl)
    as (item & stored & starts & flag & data & _);
    [constructor | reflexivity | reflexivity | reflexivity | reflexivity
    | reflexivity | exact run |].
  exists item. repeat split; [exact stored | exact starts | exact flag|].
  by apply data.
Defined.

(** C6 as stated fails: the operation [POST /upload] with two form-data
    fields is stored with the flag set, and the request function the
    generator writes for it passes [options.data] to the call. *)
Lemma formData_body_argument_kept :
  exists st item,
    ParseSchemasV2.parsePaths ChangeCase.pascalCase uploadV2 config initialState
    = Ok tt st /\
    tags st !! "main" = Some [item] /\
    ri_requestBodyTypeIsFormData item = Some true /\
    Generator.callArguments config item
    = ["`/upload`"; "options.data"; "options.config"] /\
    Generator.createFunctionTemplate ChangeCase.pascalCase config "main" item
      false
    = String "010"
        ("export function postUpload(options: { "
         +:+ "data: Partial<API.Demo.Main.PostUploadRequest>; "
         +:+ "config?: AxiosRequestConfig }) {")
      +:+ String "010"
        ("  return httpClient.post<API.Demo.Main.PostUploadResponse>"
         +:+ "(`/upload`, options.data, options.config)")
      +:+ String "010" "}" +:+ String "010" "".
Proof.
  eexists _, _. split; [vm_compute; reflexivity|].
  split; [vm_compute; reflexivity|]. by repeat split.
Qed.

(** C10 at [petsV3], where [getPet] also sits under [patch]: the items
    stored are the two under [get]. *)
Lemma parsePaths_only_http_methods_witness :
  match Generator.parsePaths ChangeCase.pascalCase
          LiteralRegExp.regExpReplace config petsV3 initialState
  with
  | Ok _ st' =>
      (forall tag items item,
          tags st' !! tag = Some items -> item ∈ items ->
          FromDocument petsV3 item) /\
      List.map ri_name (default [] (tags st' !! "main"))
      = ["getPet"; "getListPets"]
  | Fail _ => False
  end.
Proof.
  destruct (Generator.parsePaths _ _ config petsV3 initialState)
    as [[] st'|e] eqn:run; [|vm_compute in run; discriminate run].
  split.
  - intros tag items item.
    exact (proj2 (proj2 (proj2 (OperationFacts.parsePaths_only_http_methods
                                  ChangeCase.pascalCase
                                  LiteralRegExp.regExpReplace petsV3
                                  config)))
             st' tag items item run).
  - vm_compute in run. by injection run as <-.
Defined.

(** C2 at [{ include: ['Article'], exclude: ['draft'] }]. *)
Lemma validate_sample_lists :
  TagValidator.validate (TagValidator.new configArticle) "ARTICLE" = true /\
  TagValidator.validate (TagValidator.new configArticle) "Draft" = false /\
  TagValidator.validate (TagValidator.new config) "anything" = true.
Proof. repeat split. Qed.

End SampleFacts.


(** * Further properties of the code *)

(** ** Ends of texts *)

Module TextFacts.

Lemma endsWith_append (suffix s : string) :
  JS.endsWith suffix (s +:+ suffix) = true.
Proof.
  induction s as [|c s IH].
  - change ("" +:+ suffix) with suffix.
    destruct suffix; cbn [JS.endsWith]; by rewrite String.eqb_refl.
  - rewrite StringFacts.append_cons. cbn [JS.endsWith]. rewrite IH.
    apply orb_true_r.
Qed.

(** No text that ends in [c] ends in the one character [d]. *)
Lemma endsWith_other (c d : ascii) (s : string) :
  c <> d -> JS.endsWith (String d "") (s +:+ String c "") = false.
Proof.
  intros ne. induction s as [|x s IH].
  - change ("" +:+ String c "") with (String c ""). cbn.
    destruct (Ascii.eqb_spec d c); [congruence | reflexivity].
  - rewrite StringFacts.append_cons. cbn [JS.endsWith]. rewrite IH.
    rewrite orb_false_r. cbn [String.eqb].
    destruct (Ascii.eqb d x); [|reflexivity].
    by destruct s.
Qed.

End TextFacts.

(** ** The last segment of a reference, and references at the edges *)

Module SegmentFacts.

Lemma split_without_separator (sep : ascii) (s : string) :
  JS.occurs sep s = false -> JS.split sep s = [s].
Proof.
  induction s as [|c s IH]; [reflexivity|].
  cbn [JS.occurs JS.split]. intros H. apply orb_false_elim in H as [Hc Hs].
  by rewrite Hc, IH.
Qed.

Lemma split_nonempty (sep : ascii) (s : string) : JS.split sep s <> [].
Proof.
  destruct s as [|c s]; [done|]. cbn [JS.split].
  destruct (Ascii.eqb c sep); [done|]. by destruct (JS.split sep s).
Qed.

(** The segments of [p + sep + n], for [n] without the separator,
    are segments of [p] and then [n]. *)
Lemma split_append (sep : ascii) (p n : string) :
  JS.occurs sep n = false ->
  exists segments, segments <> [] /\
    JS.split sep (p +:+ String sep n) = segments ++ [n].
Proof.
  intros Hn. induction p as [|c p (segments & Hne & IH)].
  - exists [""]. split; [done|].
    change ("" +:+ String sep n) with (String sep n). cbn [JS.split].
    by rewrite Ascii.eqb_refl, split_without_separator.
  - rewrite StringFacts.append_cons. cbn [JS.split]. rewrite IH.
    destruct (Ascii.eqb c sep).
    + exists ("" :: segments). by split.
    + destruct segments as [|w ws]; [done|].
      exists (String c w :: ws). by split.
Qed.

(** X1. [getRefName] reads the last segment of a reference: what
    follows the last [/], and the whole reference when it has none. *)
Theorem getRefName_last_segment :
  (forall prefix name : string,
      JS.occurs "/" name = false ->
      Common.getRefName (prefix +:+ "/" +:+ name) = name) /\
  (forall ref : string,
      JS.occurs "/" ref = false -> Common.getRefName ref = ref).
Proof.
  split.
  - intros prefix name Hn. unfold Common.getRefName, JS.pop.
    change ("/" +:+ name) with (String "/" name).
    destruct (split_append "/" prefix name Hn) as (segments & _ & ->).
    apply last_last.
  - intros ref Hr. unfold Common.getRefName.
    by rewrite split_without_separator.
Qed.

Lemma getRefName_last_segment_witness :
  Common.getRefName "#/components/schemas/Pet" = "Pet" /\
  Common.getRefName "Pet" = "Pet".
Proof.
  destruct getRefName_last_segment as [slash none]. split.
  - apply (slash "#/components/schemas" "Pet"). reflexivity.
  - apply (none "Pet"). reflexivity.
Defined.

End SegmentFacts.

Module ReferenceEdgeFacts.
Import Hoare RegistryFacts MethodFacts MonadFacts.

(** X3. Schemas are told apart by their formatted type name, not by
    their key: once a reference to one schema is translated, a
    reference whose last segment formats to the same name gives that
    name and changes nothing, so a second schema of that name (as
    [Pet] beside [api.Pet]) gets no declaration. *)
Theorem parseRef_same_type_name (pascalCase : string -> string)
    (doc : Document) (config : DocConfig) (ref1 ref2 t1 : string)
    (schemaItem : Schema) (st st1 : State) :
  Common.formatSchemaName pascalCase (Common.getRefName ref2)
  = Common.formatSchemaName pascalCase (Common.getRefName ref1) ->
  (schemaAt (doc_schemas doc) (Common.getRefName ref1) = Some schemaItem ->
   ParseSchemas.parseRef pascalCase doc config ref1 st = Ok t1 st1 ->
   ParseSchemas.parseRef pascalCase doc config ref2 st1 = Ok t1 st1) /\
  (schemaAt (doc_definitions doc) (Common.getRefName ref1)
   = Some schemaItem ->
   ParseSchemasV2.parseRef pascalCase doc config ref1 st = Ok t1 st1 ->
   ParseSchemasV2.parseRef pascalCase doc config ref2 st1 = Ok t1 st1).
Proof.
  intros same. split; intros Hin run.
  - unfold ParseSchemas.parseRef, ParseSchemas.parseRefFuel in *.
    pose proof (parseRefFuel_name _ _ _ _ _ _ _ _ run) as ->.
    rewrite <- same. apply parseRefFuel_seen. rewrite same.
    eapply (parseRefFuel_registers pascalCase (doc_schemas doc)
              (ParseSchemas.parseSchemaItemWith config));
      [|reflexivity | apply Fuel_size | exact Hin | exact run].
    exact (fun P R rf tr step =>
             Hoare.parseSchemaItemWith_respects_V3 P R rf tr step config).
  - unfold ParseSchemasV2.parseRef, ParseSchemasV2.parseRefFuel in *.
    pose proof (parseRefFuel_name _ _ _ _ _ _ _ _ run) as ->.
    rewrite <- same. apply parseRefFuel_seen. rewrite same.
    eapply (parseRefFuel_registers pascalCase (doc_definitions doc)
              (ParseSchemasV2.parseSchemaItemWith config));
      [|reflexivity | apply Fuel_size | exact Hin | exact run].
    exact (fun P R rf tr step =>
             Hoare.parseSchemaItemWith_respects_V2 P R rf tr step config).
Qed.

Lemma parseRef_same_type_name_witness :
  match ParseSchemas.parseRef ChangeCase.pascalCase Cases.twoPets
          Samples.config Samples.petRef initialState with
  | Ok t1 st1 =>
      ParseSchemas.parseRef ChangeCase.pascalCase Cases.twoPets
        Samples.config "#/components/schemas/Pet" st1 = Ok t1 st1 /\
      t1 = "Pet" /\ declaredNames st1 = ["Pet"]
  | Fail _ => False
  end.
Proof.
  destruct (ParseSchemas.parseRef _ Cases.twoPets Samples.config
              Samples.petRef initialState) as [t1 st1|e] eqn:run;
    [|vm_compute in run; discriminate run].
  split.
  - exact (proj1 (parseRef_same_type_name ChangeCase.pascalCase
                    Cases.twoPets Samples.config Samples.petRef
                    "#/components/schemas/Pet" t1 Samples.pet
                    initialState st1 eq_refl) eq_refl run).
  - vm_compute in run. by injection run as <- <-.
Defined.

End ReferenceEdgeFacts.

(** ** Nodes without references *)

Module PureFacts.
Import MonadFacts.

Lemma Alike_ret {I A : Type} (a : A) : Alike (fun _ : I => mret a).
Proof. by exists (Some a). Qed.

Lemma Alike_throw {I A : Type} : Alike (fun _ : I => throw TypeError : M A).
Proof. by exists None. Qed.

Lemma Alike_bind {I A B : Type} (m : I -> M A) (f : I -> A -> M B) :
  Alike m -> (forall a, Alike (fun i => f i a)) ->
  Alike (fun i => m i ≫= f i).
Proof.
  intros [[a|] Hm] Hf.
  - destruct (Hf a) as [r Hr]. exists r. intros i st.
    rewrite bind_run, Hm. apply Hr.
  - exists None. intros i st. by rewrite bind_run, Hm.
Qed.

Lemma Alike_mapM {I A B : Type} (f : I -> A -> M B) (l : list A) :
  Forall (fun x => Alike (fun i => f i x)) l ->
  Alike (fun i => mapM (f i) l).
Proof.
  induction 1 as [|x l Hx _ IH]; [apply Alike_ret|].
  change (Alike (fun i => f i x ≫= fun y =>
                   mapM (f i) l ≫= fun ys => mret (y :: ys))).
  apply Alike_bind; [exact Hx|]. intros y.
  apply (Alike_bind (fun i => mapM (f i) l)); [exact IH|].
  intros ys. apply Alike_ret.
Qed.

Lemma Alike_foldM {I A B : Type} (f : I -> B -> A -> M B) (l : list A) :
  Forall (fun x => forall acc, Alike (fun i => f i acc x)) l ->
  forall acc, Alike (fun i => foldM (f i) acc l).
Proof.
  induction 1 as [|x l Hx _ IH]; intros acc; [apply Alike_ret|].
  change (Alike (fun i => f i acc x ≫= fun acc' => foldM (f i) acc' l)).
  apply Alike_bind; [apply Hx | apply IH].
Qed.

Lemma Alike_object (config : DocConfig)
    (parseSchemaItem : (string -> M string) -> Schema -> M string)
    (s : Schema) :
  match s_properties s with
  | Some props =>
      Forall (fun kv => Alike (fun i => parseSchemaItem i (snd kv))) props
  | None => True
  end ->
  Alike (fun i => Common.parseSchemaItemObjectWith config
                    (parseSchemaItem i) s).
Proof.
  intros Hprops. unfold Common.parseSchemaItemObjectWith.
  destruct (s_properties s) as [props|].
  - apply Alike_bind; [|intros; apply Alike_ret].
    apply Alike_foldM. eapply Forall_impl; [exact Hprops|].
    intros [key propItem] Hkv acc. cbn in Hkv |- *.
    apply Alike_bind; [exact Hkv|]. intros; apply Alike_ret.
  - apply Alike_bind; [apply Alike_ret | intros; apply Alike_ret].
Qed.

Lemma Forall_refFree (P : Schema -> Prop) (l : list Schema) :
  Forall (fun x => refFree x = true -> P x) l ->
  forallb refFree l = true -> Forall P l.
Proof.
  induction 1 as [|x l Hx _ IH]; [constructor|].
  cbn [forallb]. intros H. apply andb_true_iff in H as [Hx' Hl].
  constructor; auto.
Qed.

Lemma Alike_V3 (config : DocConfig) (s : Schema) :
  refFree s = true ->
  Alike (fun parseRef => ParseSchemas.parseSchemaItemWith config parseRef s).
Proof.
  induction s as [s (HallOf & HoneOf & HanyOf & Hitems & Hprops & Hadd)]
    using SchemaFacts.Schema_nested_ind.
  destruct s as [ref desc dep allOf oneOf anyOf ty enum items props add].
  cbn in HallOf, HoneOf, HanyOf, Hitems, Hprops, Hadd.
  cbn [refFree s_ref s_allOf s_oneOf s_anyOf s_items s_properties
       s_additionalProperties].
  intros Hfree.
  repeat (apply andb_true_iff in Hfree as [Hfree ?]).
  apply negb_true_iff in Hfree.
  cbn [ParseSchemas.parseSchemaItemWith s_ref s_allOf s_oneOf s_anyOf s_type
       s_enum s_items].
  unfold ParseSchemas.isRef. rewrite Hfree.
  assert (forall (sep : string) l,
            Forall (fun x => refFree x = true -> Alike (fun parseRef =>
              ParseSchemas.parseSchemaItemWith config parseRef x)) l ->
            forallb refFree l = true ->
            Alike (fun parseRef =>
              types ← mapM (ParseSchemas.parseSchemaItemWith config parseRef) l;
              let combineType := JS.join sep types in
              mret (JS.and combineType ("(" +:+ combineType +:+ ") | null"))))
    as Hcombine.
  { intros sep l Hl Hfl. apply Alike_bind; [|intros; apply Alike_ret].
    apply Alike_mapM. by apply Forall_refFree. }
  destruct allOf as [l|]; [by apply Hcombine|].
  destruct oneOf as [l|]; [by apply Hcombine|].
  destruct anyOf as [l|]; [by apply Hcombine|].
  cbn [firstSome].
  destruct ty as [|t|ts]; try apply Alike_ret.
  repeat match goal with
         | |- Alike (fun _ => if ?c then _ else _) => destruct c
         | |- Alike (fun _ => mret _) => apply Alike_ret
         | |- Alike (fun _ => match ?o with Some _ => _ | None => _ end) =>
             destruct o
         end.
  - destruct items as [|item|l].
    + apply Alike_throw.
    + apply Alike_bind; [by apply Hitems|]. intros; apply Alike_ret.
    + apply Alike_ret.
  - apply Alike_bind.
    { apply Alike_object. cbn [s_properties].
      destruct props as [props|]; [|done].
      match goal with
      | Hp : forallb _ props = true |- _ => revert Hp
      end.
      induction Hprops as [|[k v] props Hv _ IH]; [constructor|].
      cbn [forallb snd]. intros Hp. apply andb_true_iff in Hp as [Hv' Hp].
      constructor; [by apply Hv | by apply IH]. }
    intros obj. apply Alike_bind; [|intros; apply Alike_ret].
    unfold ParseSchemas.parseSchemaItemAdditionalWith.
    cbn [s_additionalProperties]. destruct add as [| |node];
      try apply Alike_ret.
    apply Alike_bind; [by apply Hadd|]. intros; apply Alike_ret.
Qed.

Lemma Alike_V2 (config : DocConfig) (s : Schema) :
  refFree s = true ->
  Alike (fun parseRef =>
           ParseSchemasV2.parseSchemaItemWith config parseRef s).
Proof.
  induction s as [s (HallOf & HoneOf & HanyOf & Hitems & Hprops & Hadd)]
    using SchemaFacts.Schema_nested_ind.
  destruct s as [ref desc dep allOf oneOf anyOf ty enum items props add].
  cbn in HallOf, HoneOf, HanyOf, Hitems, Hprops, Hadd.
  cbn [refFree s_ref s_allOf s_oneOf s_anyOf s_items s_properties
       s_additionalProperties].
  intros Hfree.
  repeat (apply andb_true_iff in Hfree as [Hfree ?]).
  apply negb_true_iff in Hfree.
  cbn [ParseSchemasV2.parseSchemaItemWith s_ref s_allOf s_oneOf s_anyOf
       s_type s_enum s_items].
  unfold ParseSchemasV2.isRef. rewrite Hfree.
  assert (forall (sep : string) l,
            Forall (fun x => refFree x = true -> Alike (fun parseRef =>
              ParseSchemasV2.parseSchemaItemWith config parseRef x)) l ->
            forallb refFree l = true ->
            Alike (fun parseRef =>
              types ← mapM (ParseSchemasV2.parseSchemaItemWith config
                              parseRef) l;
              let combineType := JS.join sep types in
              mret (JS.and combineType ("(" +:+ combineType +:+ ") | null"))))
    as Hcombine.
  { intros sep l Hl Hfl. apply Alike_bind; [|intros; apply Alike_ret].
    apply Alike_mapM. by apply Forall_refFree. }
  destruct allOf as [l|]; [by apply Hcombine|].
  destruct oneOf as [l|]; [by apply Hcombine|].
  destruct anyOf as [l|]; [by apply Hcombine|].
  cbn [firstSome].
  destruct ty as [|t|ts]; try apply Alike_ret.
  repeat match goal with
         | |- Alike (fun _ => if ?c then _ else _) => destruct c
         | |- Alike (fun _ => mret _) => apply Alike_ret
         | |- Alike (fun _ => match ?o with Some _ => _ | None => _ end) =>
             destruct o
         end.
  - apply Alike_bind; [|intros; apply Alike_ret].
    destruct items as [|item|l].
    + apply Alike_ret.
    + apply Alike_bind; [by apply Hitems|]. intros; apply Alike_ret.
    + apply Alike_bind; [|intros; apply Alike_ret].
      apply Alike_mapM. by apply Forall_refFree.
  - apply Alike_bind.
    { apply Alike_object. cbn [s_properties].
      destruct props as [props|]; [|done].
      match goal with
      | Hp : forallb _ props = true |- _ => revert Hp
      end.
      induction Hprops as [|[k v] props Hv _ IH]; [constructor|].
      cbn [forallb snd]. intros Hp. apply andb_true_iff in Hp as [Hv' Hp].
      constructor; [by apply Hv | by apply IH]. }
    intros obj. apply Alike_bind; [|intros; apply Alike_ret].
    unfold ParseSchemasV2.parseSchemaItemAdditional.
    cbn [s_additionalProperties]. destruct add as [| |node];
      try apply Alike_ret.
    destruct (s_properties node) as [properties|]; [|apply Alike_ret].
    apply Alike_bind; [|intros; apply Alike_ret].
    unfold ParseSchemasV2.parsePropertiesAsSchemaItem.
    repeat match goal with
           | |- Alike (fun _ => if ?c then _ else _) => destruct c
           | |- Alike (fun _ => mret _) => apply Alike_ret
           | |- Alike (fun _ => throw _) => apply Alike_throw
           end.
Qed.

(** X6. The translation of a node that holds no reference, at any
    depth, is a function of the node and the configuration alone:
    each translator gives the same text, or stops with the same
    [TypeError], for every document and from every state, and leaves
    the instance as it found it. *)
Theorem parseSchemaItem_reference_free (config : DocConfig) (s : Schema) :
  refFree s = true ->
  exists r3 r2 : option string,
    forall (pascalCase : string -> string) (doc : Document) (st : State),
      ParseSchemas.parseSchemaItem pascalCase doc config s st
      = outcome r3 st /\
      ParseSchemasV2.parseSchemaItem pascalCase doc config s st
      = outcome r2 st.
Proof.
  intros Hfree.
  destruct (Alike_V3 config s Hfree) as [r3 H3].
  destruct (Alike_V2 config s Hfree) as [r2 H2].
  exists r3, r2. intros pascalCase doc st. split; [apply H3 | apply H2].
Qed.

Lemma parseSchemaItem_reference_free_witness :
  exists r3 r2 : option string,
    forall (pascalCase : string -> string) (doc : Document) (st : State),
      ParseSchemas.parseSchemaItem pascalCase doc Samples.config
        (Samples.arrayOf (Samples.enumOf ["a"; "b"])) st = outcome r3 st /\
      ParseSchemasV2.parseSchemaItem pascalCase doc Samples.config
        (Samples.arrayOf (Samples.enumOf ["a"; "b"])) st = outcome r2 st.
Proof.
  apply (parseSchemaItem_reference_free Samples.config
           (Samples.arrayOf (Samples.enumOf ["a"; "b"]))).
  reflexivity.
Defined.

End PureFacts.

(** ** Missing parts of a node or of an operation *)

Module MissingFacts.
Import MonadFacts.

(** X7. An array node without [items] stops the OpenAPI 3 translator
    with a [TypeError], which nothing catches; the Swagger 2
    translator reads the missing node as the empty type and hands
    back [[]] with the instance untouched. *)
Theorem parseSchemaItem_array_without_items (pascalCase : string -> string)
    (doc : Document) (config : DocConfig) (s : Schema) (st : State) :
  Common.isRef (s_ref s) = false ->
  s_allOf s = None -> s_oneOf s = None -> s_anyOf s = None ->
  s_type s = TypeName "array" -> s_items s = ItemsAbsent ->
  ParseSchemas.parseSchemaItem pascalCase doc config s st = Fail TypeError /\
  ParseSchemasV2.parseSchemaItem pascalCase doc config s st = Ok "[]" st.
Proof.
  intros Href HallOf HoneOf HanyOf Htype Hitems.
  unfold ParseSchemas.parseSchemaItem, ParseSchemasV2.parseSchemaItem.
  destruct s as [ref desc dep allOf oneOf anyOf ty enum items props add].
  cbn in Href, HallOf, HoneOf, HanyOf, Htype, Hitems. subst.
  cbn [ParseSchemas.parseSchemaItemWith ParseSchemasV2.parseSchemaItemWith
       s_ref s_allOf s_oneOf s_anyOf s_type s_enum s_items].
  unfold ParseSchemas.isRef, ParseSchemasV2.isRef. rewrite Href.
  split; reflexivity.
Qed.

Lemma parseSchemaItem_array_without_items_witness :
  ParseSchemas.parseSchemaItem ChangeCase.pascalCase Samples.usersV3
    Samples.config (Samples.typed "array") initialState = Fail TypeError /\
  ParseSchemasV2.parseSchemaItem ChangeCase.pascalCase Samples.usersV2
    Samples.config (Samples.typed "array") initialState
  = Ok "[]" initialState.
Proof.
  split.
  - apply (parseSchemaItem_array_without_items ChangeCase.pascalCase
             Samples.usersV3 Samples.config (Samples.typed "array")
             initialState); reflexivity.
  - apply (parseSchemaItem_array_without_items ChangeCase.pascalCase
             Samples.usersV2 Samples.config (Samples.typed "array")
             initialState); reflexivity.
Defined.

(** X13. An OpenAPI 3 operation without a request body, or with a body
    that has no [application/json] schema, gets the empty body type
    and leaves the instance as it is; for an item with the empty body
    type the generated function has no [data] option and passes no
    body, whatever the method. *)
Theorem parseRequestBodySchema_without_json (pascalCase : string -> string)
    (doc : Document) (config : DocConfig) (operationItem : Operation)
    (st : State) :
  match op_requestBody operationItem with
  | Some body => ParseSchemas.isRef (rb_ref body) = false /\
                 rb_jsonSchema body = None
  | None => True
  end ->
  ParseSchemas.parseRequestBodySchema pascalCase doc config operationItem st
  = Ok "" st /\
  forall (docOptions : DocConfig) (requestItem : RequestItem),
    ri_requestBodyType requestItem = "" ->
    Generator.applyArgsData requestItem = "" /\
    Generator.callArguments docOptions requestItem
    = [ "`" +:+ Generator.formatURL docOptions (ri_url requestItem) +:+ "`";
        if JS.truthy (ri_requestQueryType requestItem)
        then "{ ...options.config, params: options.params }"
        else "options.config" ].
Proof.
  intros Hbody. split.
  - unfold ParseSchemas.parseRequestBodySchema.
    destruct (op_requestBody operationItem) as [body|]; [|reflexivity].
    destruct Hbody as [-> ->]. reflexivity.
  - intros docOptions requestItem Hempty.
    unfold Generator.callArguments, Generator.applyArgsData.
    rewrite Hempty. split; [reflexivity|].
    by destruct (JS.truthy (ri_requestQueryType requestItem)).
Qed.

Lemma parseRequestBodySchema_without_json_witness :
  ParseSchemas.parseRequestBodySchema ChangeCase.pascalCase Samples.usersV3
    Samples.config Samples.getUser initialState = Ok "" initialState.
Proof.
  apply (parseRequestBodySchema_without_json ChangeCase.pascalCase
           Samples.usersV3 Samples.config Samples.getUser initialState).
  exact I.
Defined.

End MissingFacts.

(** ** The suffix of an array type *)

Module ArraySuffixFacts.
Import MonadFacts.

(** X8. In the Swagger 2 translator the suffix of an array type binds
    the whole item type: the text before [[]] holds no [|] and no
    [&], or it stands in parentheses; this for one item node, for a
    list of item nodes, which are joined by [|], and for none. *)
Theorem parseSchemaItem_array_suffix_V2 (pascalCase : string -> string)
    (doc : Document) (config : DocConfig) (s : Schema) (st st' : State)
    (r : string) :
  Common.isRef (s_ref s) = false ->
  s_allOf s = None -> s_oneOf s = None -> s_anyOf s = None ->
  s_type s = TypeName "array" ->
  ParseSchemasV2.parseSchemaItem pascalCase doc config s st = Ok r st' ->
  exists t,
    r = t +:+ "[]" /\
    (JS.testPipeOrAmp t = false \/
     exists u, JS.testPipeOrAmp u = true /\ t = "(" +:+ u +:+ ")").
Proof.
  intros Href HallOf HoneOf HanyOf Htype.
  destruct s as [ref desc dep allOf oneOf anyOf ty enum items props add].
  cbn in Href, HallOf, HoneOf, HanyOf, Htype. subst.
  unfold ParseSchemasV2.parseSchemaItem.
  cbn [ParseSchemasV2.parseSchemaItemWith s_ref s_allOf s_oneOf s_anyOf
       s_type s_enum s_items firstSome].
  unfold ParseSchemasV2.isRef. rewrite Href.
  cbn [String.eqb Ascii.eqb Bool.eqb]. intros run.
  apply bind_Ok in run as (t & st1 & _ & run). cbn zeta in run.
  injection run as <- _.
  destruct (JS.testPipeOrAmp t) eqn:E.
  - eexists. split; [reflexivity|]. right. by exists t.
  - exists t. split; [reflexivity|]. by left.
Qed.

Lemma parseSchemaItem_array_suffix_V2_witness :
  match ParseSchemasV2.parseSchemaItem ChangeCase.pascalCase Samples.usersV2
          Samples.config (Samples.arrayOf (Samples.enumOf ["a"; "b"]))
          initialState with
  | Ok r _ =>
      r = "('a' | 'b')[]" /\
      exists t,
        r = t +:+ "[]" /\
        (JS.testPipeOrAmp t = false \/
         exists u, JS.testPipeOrAmp u = true /\ t = "(" +:+ u +:+ ")")
  | Fail _ => False
  end.
Proof.
  destruct (ParseSchemasV2.parseSchemaItem _ Samples.usersV2 Samples.config
              _ initialState) as [r st'|e] eqn:run;
    [|vm_compute in run; discriminate run].
  split.
  - vm_compute in run. by injection run as <- _.
  - exact (parseSchemaItem_array_suffix_V2 ChangeCase.pascalCase
             Samples.usersV2 Samples.config
             (Samples.arrayOf (Samples.enumOf ["a"; "b"]))
             initialState st' r eq_refl eq_refl eq_refl eq_refl eq_refl run).
Defined.

End ArraySuffixFacts.

(** ** The types of the parameters *)

Module ParameterTypeFacts.
Import MonadFacts.

(** One buffer of the loop of [parseParamsSchema]: a parameter that
    [sel] selects opens it if need be and adds a line, another leaves
    it alone. *)
Lemma buffer_run {B : Type} (get : B -> string) (sel : Param -> bool)
    (step : B -> Param -> M B) :
  (forall b p st b' st', step b p st = Ok b' st' ->
     if sel p
     then exists line,
         get b' = JS.or (get b) ("{" +:+ String "010" "") +:+ line
     else get b' = get b) ->
  forall l b st b' st', foldM step b l st = Ok b' st' ->
    if existsb sel l
    then exists fields,
        get b' = JS.or (get b) ("{" +:+ String "010" "") +:+ fields
    else get b' = get b.
Proof.
  intros Hstep. induction l as [|p l IH]; intros b st b' st' run.
  - by injection run as <- _.
  - rewrite foldM_cons in run.
    apply bind_Ok in run as (b1 & st1 & run1 & run).
    apply Hstep in run1. apply IH in run. cbn [existsb].
    destruct (sel p); cbn [orb].
    + destruct run1 as (line & E1).
      assert (JS.or (get b1) ("{" +:+ String "010" "") = get b1) as Eor.
      { rewrite E1. unfold JS.or at 1.
        by destruct (get b) as [|c r]. }
      destruct (existsb sel l).
      * destruct run as (fields & E). rewrite Eor, E1 in E.
        exists (line +:+ fields).
        by rewrite E, StringFacts.append_assoc.
      * rewrite run, E1. by exists line.
    + destruct (existsb sel l).
      * destruct run as (fields & E). rewrite run1 in E. by exists fields.
      * by rewrite run, run1.
Qed.

Lemma parseParam_path_V3 pascalCase doc config b p st b' st' :
  ParseSchemas.parseParam pascalCase doc config b p st = Ok b' st' ->
  if inlineIn "path" p
  then exists line,
      ParseSchemas.path b'
      = JS.or (ParseSchemas.path b) ("{" +:+ String "010" "") +:+ line
  else ParseSchemas.path b' = ParseSchemas.path b.
Proof.
  unfold ParseSchemas.parseParam, inlineIn, ParseSchemas.isRef.
  destruct (Common.isRef (p_ref p)); cbn [negb andb].
  { rewrite bind_run. cbn [modify]. by intros [= <- _]. }
  intros run. apply bind_Ok in run as (t & st1 & _ & run).
  destruct (String.eqb (p_in p) "path").
  - injection run as <- _. cbn [ParseSchemas.path]. by eexists.
  - destruct (String.eqb (p_in p) "query"); by injection run as <- _.
Qed.

Lemma parseParam_query_V3 pascalCase doc config b p st b' st' :
  ParseSchemas.parseParam pascalCase doc config b p st = Ok b' st' ->
  if inlineIn "query" p
  then exists line,
      ParseSchemas.query b'
      = JS.or (ParseSchemas.query b) ("{" +:+ String "010" "") +:+ line
  else ParseSchemas.query b' = ParseSchemas.query b.
Proof.
  unfold ParseSchemas.parseParam, inlineIn, ParseSchemas.isRef.
  destruct (Common.isRef (p_ref p)); cbn [negb andb].
  { rewrite bind_run. cbn [modify]. by intros [= <- _]. }
  intros run. apply bind_Ok in run as (t & st1 & _ & run).
  destruct (String.eqb_spec (p_in p) "path") as [E|_].
  - rewrite E. cbn. by injection run as <- _.
  - destruct (String.eqb (p_in p) "query").
    + injection run as <- _. cbn [ParseSchemas.query]. by eexists.
    + by injection run as <- _.
Qed.

Lemma parseParam_path_V2 pascalCase doc config b p st b' st' :
  ParseSchemasV2.parseParam pascalCase doc config b p st = Ok b' st' ->
  if inlineIn "path" p
  then exists line,
      ParseSchemasV2.path b'
      = JS.or (ParseSchemasV2.path b) ("{" +:+ String "010" "") +:+ line
  else ParseSchemasV2.path b' = ParseSchemasV2.path b.
Proof.
  unfold ParseSchemasV2.parseParam, inlineIn, ParseSchemasV2.isRef.
  destruct (Common.isRef (p_ref p)); cbn [negb andb].
  { rewrite bind_run. cbn [modify]. by intros [= <- _]. }
  intros run. apply bind_Ok in run as (t & st1 & _ & run).
  destruct (String.eqb (p_in p) "path").
  - injection run as <- _. cbn [ParseSchemasV2.path]. by eexists.
  - repeat match type of run with
           | context [if ?c then _ else _] => destruct c
           end; try by injection run as <- _.
    apply bind_Ok in run as (t' & st2 & _ & run). by injection run as <- _.
Qed.

Lemma parseParam_query_V2 pascalCase doc config b p st b' st' :
  ParseSchemasV2.parseParam pascalCase doc config b p st = Ok b' st' ->
  if inlineIn "query" p
  then exists line,
      ParseSchemasV2.query b'
      = JS.or (ParseSchemasV2.query b) ("{" +:+ String "010" "") +:+ line
  else ParseSchemasV2.query b' = ParseSchemasV2.query b.
Proof.
  unfold ParseSchemasV2.parseParam, inlineIn, ParseSchemasV2.isRef.
  destruct (Common.isRef (p_ref p)); cbn [negb andb].
  { rewrite bind_run. cbn [modify]. by intros [= <- _]. }
  intros run. apply bind_Ok in run as (t & st1 & _ & run).
  destruct (String.eqb_spec (p_in p) "path") as [E|_].
  - rewrite E. cbn. by injection run as <- _.
  - destruct (String.eqb (p_in p) "query").
    + injection run as <- _. cbn [ParseSchemasV2.query]. by eexists.
    + repeat match type of run with
             | context [if ?c then _ else _] => destruct c
             end; try by injection run as <- _.
      apply bind_Ok in run as (t' & st2 & _ & run).
      by injection run as <- _.
Qed.

Lemma closed (buffer : string) (selected : bool) :
  (if selected
   then exists fields, buffer = JS.or "" ("{" +:+ String "010" "") +:+ fields
   else buffer = "") ->
  if selected
  then exists fields,
      (if JS.truthy buffer then buffer +:+ "}" else buffer)
      = "{" +:+ String "010" "" +:+ fields +:+ "}"
  else (if JS.truthy buffer then buffer +:+ "}" else buffer) = "".
Proof.
  destruct selected; [|by intros ->].
  intros (fields & ->). exists fields.
  change (JS.or "" ("{" +:+ String "010" "") +:+ fields)
    with (String "{" (String "010" fields)).
  cbn [JS.truthy]. by rewrite !StringFacts.append_cons.
Qed.

Lemma blocks_V3 pascalCase doc config (operationItem : Operation)
    (st st' : State) (paramsSchema : ParseSchemas.ParamsSchema) :
  ParseSchemas.parseParamsSchema pascalCase doc config operationItem st
  = Ok paramsSchema st' ->
  Block (existsb (inlineIn "path") (default [] (op_parameters operationItem)))
        (ParseSchemas.ps_path paramsSchema) /\
  Block (existsb (inlineIn "query")
           (default [] (op_parameters operationItem)))
        (ParseSchemas.ps_query paramsSchema).
Proof.
  intros run. unfold ParseSchemas.parseParamsSchema in run.
  apply bind_Ok in run as (b & st1 & run & [= <- _]).
  cbn [ParseSchemas.closeBuffers ParseSchemas.ps_path ParseSchemas.ps_query].
  split; apply closed.
  - exact (buffer_run ParseSchemas.path (inlineIn "path") _
             (parseParam_path_V3 pascalCase doc config) _ _ _ _ _ run).
  - exact (buffer_run ParseSchemas.query (inlineIn "query") _
             (parseParam_query_V3 pascalCase doc config) _ _ _ _ _ run).
Qed.

Lemma blocks_V2 pascalCase doc config (operationItem : Operation)
    (st st' : State) (paramsSchema : ParseSchemasV2.ParamsSchema) :
  ParseSchemasV2.parseParamsSchema pascalCase doc config operationItem st
  = Ok paramsSchema st' ->
  Block (existsb (inlineIn "path") (default [] (op_parameters operationItem)))
        (ParseSchemasV2.ps_path paramsSchema) /\
  Block (existsb (inlineIn "query")
           (default [] (op_parameters operationItem)))
        (ParseSchemasV2.ps_query paramsSchema).
Proof.
  intros run. unfold ParseSchemasV2.parseParamsSchema in run.
  apply bind_Ok in run as (b & st1 & run & [= <- _]).
  cbn [ParseSchemasV2.closeBuffers ParseSchemasV2.ps_path
       ParseSchemasV2.ps_query].
  split; apply closed.
  - exact (buffer_run ParseSchemasV2.path (inlineIn "path") _
             (parseParam_path_V2 pascalCase doc config) _ _ _ _ _ run).
  - exact (buffer_run ParseSchemasV2.query (inlineIn "query") _
             (parseParam_query_V2 pascalCase doc config) _ _ _ _ _ run).
Qed.

(** X9. The path type and the query type that [parseParamsSchema]
    hands back, in both translators, are empty exactly when the
    operation has no inline parameter of that location (a parameter
    given as a reference does not count), and otherwise a block of
    lines between [{] with a line feed and [}]. *)
Theorem parseParamsSchema_blocks (pascalCase : string -> string)
    (doc : Document) (config : DocConfig) (operationItem : Operation)
    (st : State) :
  let params := default [] (op_parameters operationItem) in
  (forall paramsSchema st',
      ParseSchemas.parseParamsSchema pascalCase doc config operationItem st
      = Ok paramsSchema st' ->
      Block (existsb (inlineIn "path") params)
            (ParseSchemas.ps_path paramsSchema) /\
      Block (existsb (inlineIn "query") params)
            (ParseSchemas.ps_query paramsSchema)) /\
  (forall paramsSchema st',
      ParseSchemasV2.parseParamsSchema pascalCase doc config operationItem st
      = Ok paramsSchema st' ->
      Block (existsb (inlineIn "path") params)
            (ParseSchemasV2.ps_path paramsSchema) /\
      Block (existsb (inlineIn "query") params)
            (ParseSchemasV2.ps_query paramsSchema)).
Proof.
  cbn zeta. split; intros paramsSchema st' run.
  - by apply (blocks_V3 pascalCase doc config operationItem st st').
  - by apply (blocks_V2 pascalCase doc config operationItem st st').
Qed.

Lemma parseParamsSchema_blocks_witness :
  match ParseSchemas.parseParamsSchema ChangeCase.pascalCase Samples.petsV3
          Samples.config Samples.getPet initialState with
  | Ok paramsSchema _ =>
      Block true (ParseSchemas.ps_path paramsSchema) /\
      Block false (ParseSchemas.ps_query paramsSchema)
  | Fail _ => False
  end.
Proof.
  destruct (ParseSchemas.parseParamsSchema _ Samples.petsV3 Samples.config
              Samples.getPet initialState) as [paramsSchema st'|e] eqn:run;
    [|vm_compute in run; discriminate run].
  exact (proj1 (parseParamsSchema_blocks ChangeCase.pascalCase
                  Samples.petsV3 Samples.config Samples.getPet initialState)
           paramsSchema st' run).
Defined.

End ParameterTypeFacts.

(** ** Interface or type alias *)

Module DeclarationFormFacts.
Import MonadFacts Generator ParameterTypeFacts TextFacts.

Lemma createTypeTemplate_block (pascalCase : string -> string)
    (docOptions : DocConfig) (ps : State) (name type : string) :
  Block true type -> refs ps !! type = None ->
  JS.testCloseAmpOpen type = false ->
  createTypeTemplate pascalCase docOptions ps name type false
  = String "010" "interface " +:+ name +:+ " " +:+ type +:+ String "010" "".
Proof.
  intros (fields & ->) Hrefs Htest. unfold createTypeTemplate.
  rewrite Hrefs. cbn [isSome].
  assert (JS.inherited ("{" +:+ String "010" "" +:+ fields +:+ "}") = false)
    as -> by (by apply (InheritedFacts.inherited_start "{")).
  cbn [orb]. rewrite Htest. cbn [negb andb].
  assert (JS.endsWith "}" ("{" +:+ String "010" "" +:+ fields +:+ "}")
          = true) as ->.
  { rewrite <- !StringFacts.append_assoc. apply endsWith_append. }
  reflexivity.
Qed.

(** X10. A path type or a query type that [parseParamsSchema] hands
    back, in either translator, is declared by the generator as an
    interface when it is not empty, is not the name of a registered
    reference and holds no [}] followed by [&] and [{]. *)
Theorem parameter_types_declared_interfaces (pascalCase : string -> string)
    (doc : Document) (config : DocConfig) (operationItem : Operation)
    (st : State) (docOptions : DocConfig) (ps : State)
    (name type : string) :
  (exists paramsSchema st',
      ParseSchemas.parseParamsSchema pascalCase doc config operationItem st
      = Ok paramsSchema st' /\
      (type = ParseSchemas.ps_path paramsSchema \/
       type = ParseSchemas.ps_query paramsSchema)) \/
  (exists paramsSchema st',
      ParseSchemasV2.parseParamsSchema pascalCase doc config operationItem st
      = Ok paramsSchema st' /\
      (type = ParseSchemasV2.ps_path paramsSchema \/
       type = ParseSchemasV2.ps_query paramsSchema)) ->
  type <> "" ->
  refs ps !! type = None ->
  JS.testCloseAmpOpen type = false ->
  createTypeTemplate pascalCase docOptions ps name type false
  = String "010" "interface " +:+ name +:+ " " +:+ type +:+ String "010" "".
Proof.
  intros Hfrom nonempty Hrefs Htest.
  apply createTypeTemplate_block; [|done|done].
  assert (forall selected, Block selected type -> Block true type) as block.
  { intros [|]; [done | by intros ->]. }
  destruct Hfrom as [(paramsSchema & st' & run & [->| ->])
                    |(paramsSchema & st' & run & [->| ->])].
  - apply blocks_V3 in run as [H _]. by apply (block _ H).
  - apply blocks_V3 in run as [_ H]. by apply (block _ H).
  - apply blocks_V2 in run as [H _]. by apply (block _ H).
  - apply blocks_V2 in run as [_ H]. by apply (block _ H).
Qed.

Lemma parameter_types_declared_interfaces_witness :
  match ParseSchemas.parseParamsSchema ChangeCase.pascalCase Samples.petsV3
          Samples.config Samples.getPet initialState with
  | Ok paramsSchema _ =>
      createTypeTemplate ChangeCase.pascalCase Samples.config initialState
        "GetPetPathParams" (ParseSchemas.ps_path paramsSchema) false
      = String "010" "interface GetPetPathParams {"
        +:+ String "010" "  petId: number" +:+ String "010" "}"
        +:+ String "010" ""
  | Fail _ => False
  end.
Proof.
  destruct (ParseSchemas.parseParamsSchema _ Samples.petsV3 Samples.config
              Samples.getPet initialState) as [paramsSchema st'|e] eqn:run;
    [|vm_compute in run; discriminate run].
  rewrite (parameter_types_declared_interfaces ChangeCase.pascalCase
             Samples.petsV3 Samples.config Samples.getPet initialState
             Samples.config initialState "GetPetPathParams"
             (ParseSchemas.ps_path paramsSchema)).
  - vm_compute in run. by injection run as <- _.
  - left. exists paramsSchema, st'. split; [exact run | by left].
  - vm_compute in run. by injection run as <- _.
  - vm_compute in run. by injection run as <- _.
  - vm_compute in run. by injection run as <- _.
Defined.

Lemma parseSchemaItemObjectWith_closed (config : DocConfig)
    (parseSchemaItem : Schema -> M string) (s : Schema) (st st' : State)
    (t : string) :
  Common.parseSchemaItemObjectWith config parseSchemaItem s st = Ok t st' ->
  exists template, t = template +:+ "}" +:+ String "010" "".
Proof.
  unfold Common.parseSchemaItemObjectWith. intros run.
  apply bind_Ok in run as (template & st1 & _ & [= <- _]). by eexists.
Qed.

Lemma createTypeTemplate_line_feed (pascalCase : string -> string)
    (docOptions : DocConfig) (ps : State) (name text : string) :
  let type := text +:+ String "010" "" in
  refs ps !! type = None ->
  createTypeTemplate pascalCase docOptions ps name type false
  = String "010" "type " +:+ name +:+ " = " +:+ type +:+ String "010" "".
Proof.
  cbn zeta. intros Hrefs. unfold createTypeTemplate.
  rewrite Hrefs. cbn [isSome].
  rewrite (InheritedFacts.inherited_end _ "010" "" eq_refl
             (endsWith_append (String "010" "") text)).
  cbn [orb]. rewrite (endsWith_other "010" "}" text) by discriminate.
  by rewrite andb_false_r.
Qed.

(** X11. An inline object node without [additionalProperties] is
    translated, by both translators, to a text that ends in a line
    feed after its [}]; the generator therefore declares it, when it
    is the type of a request item, as a type alias and not as an
    interface. *)
Theorem inline_object_declared_alias (pascalCase : string -> string)
    (doc : Document) (config : DocConfig) (s : Schema) (st st' : State)
    (t : string) :
  Common.isRef (s_ref s) = false ->
  s_allOf s = None -> s_oneOf s = None -> s_anyOf s = None ->
  s_type s = TypeName "object" ->
  s_additionalProperties s = AdditionalAbsent ->
  ParseSchemas.parseSchemaItem pascalCase doc config s st = Ok t st' \/
  ParseSchemasV2.parseSchemaItem pascalCase doc config s st = Ok t st' ->
  (exists template, t = template +:+ "}" +:+ String "010" "") /\
  forall (docOptions : DocConfig) (ps : State) (name : string),
    refs ps !! t = None ->
    createTypeTemplate pascalCase docOptions ps name t false
    = String "010" "type " +:+ name +:+ " = " +:+ t +:+ String "010" "".
Proof.
  intros Href HallOf HoneOf HanyOf Htype Hadd run.
  assert (exists template, t = template +:+ "}" +:+ String "010" "")
    as (template & ->).
  { destruct s as [ref desc dep allOf oneOf anyOf ty enum items props add].
    cbn in Href, HallOf, HoneOf, HanyOf, Htype, Hadd. subst.
    unfold ParseSchemas.parseSchemaItem, ParseSchemasV2.parseSchemaItem in run.
    cbn [ParseSchemas.parseSchemaItemWith ParseSchemasV2.parseSchemaItemWith
         s_ref s_allOf s_oneOf s_anyOf s_type s_enum s_items] in run.
    unfold ParseSchemas.isRef, ParseSchemasV2.isRef in run.
    rewrite Href in run. cbn [firstSome String.eqb Ascii.eqb] in run.
    destruct run as [run|run].
    - apply bind_Ok in run as (obj & st1 & run1 & run).
      apply parseSchemaItemObjectWith_closed in run1 as (template & ->).
      injection run as <- _. exists template.
      by rewrite StringFacts.append_nil_r.
    - apply bind_Ok in run as (obj & st1 & run1 & run).
      apply parseSchemaItemObjectWith_closed in run1 as (template & ->).
      injection run as <- _. exists template.
      by rewrite StringFacts.append_nil_r. }
  split; [by eexists|].
  intros docOptions ps name Hrefs.
  rewrite <- StringFacts.append_assoc in Hrefs |- *.
  by apply createTypeTemplate_line_feed.
Qed.

Lemma inline_object_declared_alias_witness :
  match ParseSchemas.parseSchemaItem ChangeCase.pascalCase Samples.usersV3
          Samples.config Cases.named initialState with
  | Ok t _ =>
      createTypeTemplate ChangeCase.pascalCase Samples.config initialState
        "GetUsersResponse" t false
      = String "010" "type GetUsersResponse = {"
        +:+ String "010" "  name: string" +:+ String "010" "}"
        +:+ String "010" (String "010" "")
  | Fail _ => False
  end.
Proof.
  destruct (ParseSchemas.parseSchemaItem _ Samples.usersV3 Samples.config
              Cases.named initialState) as [t st'|e] eqn:run;
    [|vm_compute in run; discriminate run].
  destruct (inline_object_declared_alias ChangeCase.pascalCase
              Samples.usersV3 Samples.config Cases.named initialState st' t
              eq_refl eq_refl eq_refl eq_refl eq_refl eq_refl
              (or_introl run)) as [_ alias].
  rewrite alias.
  - vm_compute in run. by injection run as <- _.
  - vm_compute in run. by injection run as <- _.
Defined.

End DeclarationFormFacts.

(** ** The whole body, and the response *)

Module WholeBodyFacts.
Import MonadFacts FormDataFacts RootBodyFacts.

Lemma parseParam_flag pascalCase doc config
    (b b' : ParseSchemasV2.Buffers) (p : Param) (st st' : State) :
  p_in p <> "formData" \/ ParseSchemasV2.isRef (p_ref p) = true ->
  ParseSchemasV2.parseParam pascalCase doc config b p st = Ok b' st' ->
  ParseSchemasV2.isFormDataBody b' = ParseSchemasV2.isFormDataBody b.
Proof.
  intros other. unfold ParseSchemasV2.parseParam.
  destruct (ParseSchemasV2.isRef _) eqn:ref; [by intros [= <- _]|].
  destruct other as [other|]; [|congruence].
  rewrite bind_run.
  destruct (ParseSchemasV2.parseSchemaItem _ _ _ _ st) as [t st1|e];
    [|discriminate].
  destruct (String.eqb_spec (p_in p) "path"); [by intros [= <- _]|].
  destruct (String.eqb_spec (p_in p) "query"); [by intros [= <- _]|].
  destruct (String.eqb_spec (p_in p) "formData"); [done|].
  destruct (String.eqb (p_in p) "body"); [|by intros [= <- _]].
  destruct (String.eqb (p_name p) "root"); [|by intros [= <- _]].
  rewrite bind_run.
  destruct (ParseSchemasV2.parseSchemaItemOpt _ _ _ _ st1) as [t' st2|e];
    [|discriminate].
  by intros [= <- _].
Qed.

Lemma parseParams_flag pascalCase doc config (params : list Param) :
  Forall LeavesBody params ->
  forall b b' st st',
    foldM (ParseSchemasV2.parseParam pascalCase doc config) b params st
    = Ok b' st' ->
    ParseSchemasV2.isFormDataBody b' = ParseSchemasV2.isFormDataBody b.
Proof.
  induction 1 as [|p params leaves _ IH]; intros b b' st st' run.
  - by injection run as <- _.
  - rewrite foldM_cons in run.
    apply bind_Ok in run as (b1 & st1 & run1 & run).
    rewrite (IH _ _ _ _ run).
    apply (parseParam_flag _ _ _ _ _ _ _ _) with (2 := run1).
    destruct leaves as [ref|[notForm _]]; [by right | by left].
Qed.

(** X12. In [ParseSchemasV2] a body parameter named [root], alone
    among parameters that write nothing to the body, gives the body
    type of the operation as the translation of its schema: no
    braces around it, no field name before it, and the form-data
    flag stays off. *)
Theorem parseParamsSchema_root_alone (pascalCase : string -> string)
    (doc : Document) (config : DocConfig) (operationItem : Operation)
    (before after : list Param) (p : Param)
    (paramsSchema : ParseSchemasV2.ParamsSchema) (st st' : State) :
  op_parameters operationItem = Some (before ++ p :: after) ->
  Forall LeavesBody before -> Forall LeavesBody after ->
  ParseSchemasV2.isRef (p_ref p) = false ->
  p_in p = "body" -> p_name p = "root" ->
  ParseSchemasV2.parseParamsSchema pascalCase doc config operationItem st
  = Ok paramsSchema st' ->
  ParseSchemasV2.ps_isFormDataBody paramsSchema = false /\
  exists t st1 st2,
    ParseSchemasV2.parseSchemaItemOpt pascalCase doc config (p_schema p) st1
    = Ok t st2 /\
    ParseSchemasV2.ps_body paramsSchema = t.
Proof.
  intros params Lb La inline loc name run.
  unfold ParseSchemasV2.parseParamsSchema in run. rewrite params in run.
  simpl default in run.
  apply bind_Ok in run as (b & st3 & run & [= <- _]).
  rewrite foldM_app in run. apply bind_Ok in run as (b1 & st1 & run1 & run).
  rewrite foldM_cons in run. apply bind_Ok in run as (b2 & st2 & run2 & run).
  pose proof (parseParams_leave_body _ _ _ _ Lb _ _ _ _ run1) as body1.
  pose proof (parseParams_flag _ _ _ _ Lb _ _ _ _ run1) as flag1.
  pose proof (parseParams_leave_body _ _ _ _ La _ _ _ _ run) as body3.
  pose proof (parseParams_flag _ _ _ _ La _ _ _ _ run) as flag3.
  assert (ParseSchemasV2.isFormDataBody b2 = ParseSchemasV2.isFormDataBody b1)
    as flag2.
  { apply (parseParam_flag _ _ _ _ _ _ _ _) with (2 := run2).
    left. by rewrite loc. }
  destruct (parseParam_root _ _ _ _ _ _ _ _ inline loc name run2)
    as (t & sa & Ht & body2).
  cbn [ParseSchemasV2.body ParseSchemasV2.isFormDataBody] in body1, flag1.
  unfold ParseSchemasV2.closeBuffers.
  cbn [ParseSchemasV2.ps_body ParseSchemasV2.ps_isFormDataBody].
  rewrite flag3, flag2, flag1. split; [reflexivity|].
  exists t, sa, st2. split; [exact Ht|].
  by rewrite body3, body2, body1.
Qed.

Lemma parseParamsSchema_root_alone_witness :
  match ParseSchemasV2.parseParamsSchema ChangeCase.pascalCase
          Samples.usersV2 Samples.config Cases.rename initialState with
  | Ok paramsSchema _ =>
      ParseSchemasV2.ps_isFormDataBody paramsSchema = false /\
      ParseSchemasV2.ps_body paramsSchema = "string[]"
  | Fail _ => False
  end.
Proof.
  destruct (ParseSchemasV2.parseParamsSchema _ Samples.usersV2
              Samples.config Cases.rename initialState)
    as [paramsSchema st'|e] eqn:run;
    [|vm_compute in run; discriminate run].
  destruct (parseParamsSchema_root_alone ChangeCase.pascalCase
              Samples.usersV2 Samples.config Cases.rename
              [Samples.paramV2 "id" "path" "integer"] []
              (Samples.param "root" "body"
                 (Samples.arrayOf (Samples.typed "string")))
              paramsSchema initialState st' eq_refl)
    as [flag _]; [| |reflexivity|reflexivity|reflexivity|exact run|].
  - constructor; [|constructor]. right. split; [discriminate|].
    intros [? _]. discriminate.
  - constructor.
  - split; [exact flag|]. vm_compute in run. by injection run as <- _.
Defined.

End WholeBodyFacts.

Module ResponseFacts.
Import Generator.

(** X14. An operation without a response [200], or whose response
    [200] has no schema, gets the empty response type from both
    translators, with the instance untouched; the generator then
    declares the response type of the item as [any], inside
    [ResponseROOT<...>] when [responseRootInterface] is configured,
    after whatever the request types of the item add. *)
Theorem response_without_schema (pascalCase : string -> string)
    (doc : Document) (config : DocConfig) (operationItem : Operation)
    (st : State) :
  match op_response200 operationItem with
  | Some res => Common.isRef (res_ref res) = false /\
                res_jsonSchema res = None /\ res_schema res = None
  | None => True
  end ->
  ParseSchemas.parseResponseSchema pascalCase doc config operationItem st
  = Ok "" st /\
  ParseSchemasV2.parseResponseSchema pascalCase doc config operationItem st
  = Ok "" st /\
  forall (docOptions : DocConfig) (ps : State) (dtsTemplate : string)
         (requestItem : RequestItem),
    ri_responseType requestItem = "" ->
    refs ps !! "any" = None ->
    exists requestTypes,
      appendItemTypes pascalCase docOptions ps dtsTemplate requestItem
      = dtsTemplate +:+ requestTypes +:+ String "010" "type "
        +:+ scopeRefName pascalCase requestItem +:+ TYPE_NAME_SUFFIXES.res
        +:+ " = "
        +:+ (if isSome (cfg_responseRootInterface docOptions)
             then "API." +:+ scopeName pascalCase docOptions +:+ "."
                  +:+ TYPE_NAME_SUFFIXES.resRoot +:+ "<any>"
             else "any")
        +:+ String "010" "".
Proof.
  intros Hres. split; [|split].
  - unfold ParseSchemas.parseResponseSchema.
    destruct (op_response200 operationItem) as [res|]; [|reflexivity].
    destruct Hres as (ref & -> & _). unfold ParseSchemas.isRef.
    by rewrite ref.
  - unfold ParseSchemasV2.parseResponseSchema.
    destruct (op_response200 operationItem) as [res|]; [|reflexivity].
    destruct Hres as (ref & _ & ->). unfold ParseSchemasV2.isRef.
    by rewrite ref.
  - intros docOptions ps dtsTemplate requestItem Hempty Hany.
    unfold appendItemTypes. rewrite Hempty. cbn zeta.
    change (JS.or "" "any") with "any".
    assert (createTypeTemplate pascalCase docOptions ps
              (scopeRefName pascalCase requestItem
               +:+ TYPE_NAME_SUFFIXES.res) "any"
              (isSome (cfg_responseRootInterface docOptions))
            = String "010" "type "
              +:+ (scopeRefName pascalCase requestItem
                   +:+ TYPE_NAME_SUFFIXES.res)
              +:+ " = "
              +:+ (if isSome (cfg_responseRootInterface docOptions)
                   then "API." +:+ scopeName pascalCase docOptions +:+ "."
                        +:+ TYPE_NAME_SUFFIXES.resRoot +:+ "<any>"
                   else "any")
              +:+ String "010" "") as ->.
    { unfold createTypeTemplate. rewrite Hany. cbn [isSome].
      destruct (isSome (cfg_responseRootInterface docOptions));
        [|reflexivity].
      by rewrite !StringFacts.append_assoc. }
    exists ((if JS.truthy (ri_requestPathType requestItem)
             then createTypeTemplate pascalCase docOptions ps
                    (scopeRefName pascalCase requestItem
                     +:+ TYPE_NAME_SUFFIXES.pathParams)
                    (ri_requestPathType requestItem) false
             else "")
            +:+ (if JS.truthy (ri_requestQueryType requestItem)
                 then createTypeTemplate pascalCase docOptions ps
                        (scopeRefName pascalCase requestItem
                         +:+ TYPE_NAME_SUFFIXES.params)
                        (ri_requestQueryType requestItem) false
                 else "")
            +:+ (if JS.truthy (ri_requestBodyType requestItem)
                 then createTypeTemplate pascalCase docOptions ps
                        (scopeRefName pascalCase requestItem
                         +:+ TYPE_NAME_SUFFIXES.data)
                        (ri_requestBodyType requestItem) false
                 else "")).
    destruct (JS.truthy (ri_requestPathType requestItem)),
             (JS.truthy (ri_requestQueryType requestItem)),
             (JS.truthy (ri_requestBodyType requestItem));
      rewrite !StringFacts.append_assoc, ?StringFacts.append_nil_r;
      reflexivity.
Qed.

Lemma response_without_schema_witness :
  ParseSchemas.parseResponseSchema ChangeCase.pascalCase Samples.usersV3
    Samples.config Samples.getUser initialState = Ok "" initialState /\
  ParseSchemasV2.parseResponseSchema ChangeCase.pascalCase Samples.usersV2
    Samples.config Samples.getUser initialState = Ok "" initialState.
Proof.
  split.
  - apply (response_without_schema ChangeCase.pascalCase Samples.usersV3
             Samples.config Samples.getUser initialState). exact I.
  - apply (response_without_schema ChangeCase.pascalCase Samples.usersV2
             Samples.config Samples.getUser initialState). exact I.
Defined.

End ResponseFacts.

(** ** The groups of a document *)

Module GroupFacts.
Import MonadFacts OperationFacts.

Lemma extend_app o a b : extend (extend o a) b = extend o (a ++ b).
Proof.
  destruct a as [|x a]; [reflexivity|]. destruct b as [|y b].
  - by rewrite app_nil_r.
  - cbn. by rewrite <- app_assoc.
Qed.

Lemma foldM_extend {A : Type} (f : unit -> A -> M unit)
    (more : A -> string -> list (string * string)) (l : list A) :
  (forall x st st' group, f tt x st = Ok tt st' ->
     keysOf st' group = extend (keysOf st group) (more x group)) ->
  forall st st' group, foldM f tt l st = Ok tt st' ->
    keysOf st' group
    = extend (keysOf st group) (flat_map (fun x => more x group) l).
Proof.
  intros step. induction l as [|x l IH]; intros st st' group run.
  - by injection run as <-.
  - rewrite foldM_cons in run.
    apply bind_Ok in run as ([] & st1 & run1 & run).
    rewrite (IH _ _ _ run), (step _ _ _ _ run1). apply extend_app.
Qed.

Lemma keysOf_store (tag group : string) (item : RequestItem)
    (st st' : State) :
  tags st' = <[tag := default [] (tags st !! tag) ++ [item]]> (tags st) ->
  keysOf st' group
  = extend (keysOf st group)
      (if String.eqb tag group then [itemKey item] else []).
Proof.
  intros E. unfold keysOf. rewrite E, lookup_insert.
  destruct (String.eqb_spec tag group) as [<-|ne].
  - rewrite decide_True by done. cbn.
    destruct (tags st !! tag) as [items|]; cbn.
    all: by rewrite ?List.map_app.
  - by rewrite decide_False by done.
Qed.

Section Groups.

Variable pascalCase : string -> string.
Variable regExpReplace : string -> string -> option string.
Variable doc : Document.
Variable config : DocConfig.

Lemma filedOfPath_flat_map tagOf (group : string)
    (path : string * PathItem) :
  filedOfPath config tagOf group path
  = flat_map (fun entry => if filed config tagOf group (fst path) entry
                           then [(fst path, fst entry)] else [])
             (snd path).
Proof.
  unfold filedOfPath. induction (snd path) as [|entry l IH];
    [reflexivity|].
  cbn [List.filter flat_map].
  destruct (filed _ _ _ _ entry); cbn [List.map app]; by rewrite IH.
Qed.

Lemma parsePaths_groups_V3 (st st' : State) (group : string) :
  ParseSchemas.parsePaths pascalCase regExpReplace doc config st
  = Ok tt st' ->
  keysOf st' group
  = extend (keysOf st group)
      (filedUnder config (fun _ _ => firstTagOrMain) group doc).
Proof.
  unfold ParseSchemas.parsePaths, filedUnder. intros run.
  refine (foldM_extend _
            (fun path group =>
               filedOfPath config (fun _ _ => firstTagOrMain) group path)
            _ _ st st' group run).
  clear. intros [url pathItem] st st' group run.
  rewrite filedOfPath_flat_map. cbn [fst snd].
  refine (foldM_extend _
            (fun entry group =>
               if filed config (fun _ _ => firstTagOrMain) group url entry
               then [(url, fst entry)] else [])
            _ _ st st' group run).
  clear. intros [key operationItem] st st' group run.
  apply parseOperation_stores_V3 in run. cbn zeta in run.
  unfold filed. cbn [fst snd].
  destruct (_ && _) eqn:retained in run.
  - destruct run as (item & rest & _ & Htags & _ & _ & Hu & Hk).
    rewrite retained. cbn [andb].
    rewrite (keysOf_store _ group _ _ _ Htags).
    unfold itemKey. by rewrite Hu, Hk.
  - subst st'. rewrite retained. reflexivity.
Qed.

Lemma parsePaths_groups_V2 (st st' : State) (group : string) :
  ParseSchemasV2.parsePaths pascalCase doc config st = Ok tt st' ->
  keysOf st' group
  = extend (keysOf st group)
      (filedUnder config (ParseSchemasV2.operationTag config) group doc).
Proof.
  unfold ParseSchemasV2.parsePaths, filedUnder. intros run.
  refine (foldM_extend _
            (fun path group =>
               filedOfPath config (ParseSchemasV2.operationTag config)
                 group path)
            _ _ st st' group run).
  clear. intros [url pathItem] st st' group run.
  rewrite filedOfPath_flat_map. cbn [fst snd].
  refine (foldM_extend _
            (fun entry group =>
               if filed config (ParseSchemasV2.operationTag config)
                    group url entry
               then [(url, fst entry)] else [])
            _ _ st st' group run).
  clear. intros [key operationItem] st st' group run.
  apply parseOperation_stores_V2 in run. cbn zeta in run.
  unfold filed. cbn [fst snd].
  destruct (_ && _) eqn:retained in run.
  - destruct run as (item & ps & sa & sb & _ & Htags & _ & Hu & Hk & _).
    rewrite retained. cbn [andb].
    rewrite (keysOf_store _ group _ _ _ Htags).
    unfold itemKey. by rewrite Hu, Hk.
  - subst st'. rewrite retained. reflexivity.
Qed.

(** X15. After [parsePaths] on a fresh instance, the group of a tag
    holds one item for each operation of the document that sits
    under an HTTP method and whose tag passes the filter and is
    that tag, in the order of the document, each with the URL and
    the key of its operation; a tag without such an operation has
    no group. *)
Theorem parsePaths_groups (st' : State) (group : string) :
  (ParseSchemas.parsePaths pascalCase regExpReplace doc config initialState
   = Ok tt st' ->
   List.map itemKey <$> tags st' !! group
   = match filedUnder config (fun _ _ => firstTagOrMain) group doc with
     | [] => None
     | filed => Some filed
     end) /\
  (ParseSchemasV2.parsePaths pascalCase doc config initialState
   = Ok tt st' ->
   List.map itemKey <$> tags st' !! group
   = match filedUnder config (ParseSchemasV2.operationTag config)
             group doc with
     | [] => None
     | filed => Some filed
     end).
Proof.
  split; intros run.
  - apply (parsePaths_groups_V3 _ _ group) in run.
    unfold keysOf in run. rewrite run. cbn. rewrite lookup_empty. cbn.
    by destruct (filedUnder _ _ _ _).
  - apply (parsePaths_groups_V2 _ _ group) in run.
    unfold keysOf in run. rewrite run. cbn. rewrite lookup_empty. cbn.
    by destruct (filedUnder _ _ _ _).
Qed.

End Groups.

Lemma parsePaths_groups_witness :
  match ParseSchemas.parsePaths ChangeCase.pascalCase
          LiteralRegExp.regExpReplace Samples.petsV3 Samples.config
          initialState with
  | Ok _ st' =>
      List.map itemKey <$> tags st' !! "main"
      = Some [("/pets/{petId}", "get"); ("/pets", "get")] /\
      List.map itemKey <$> tags st' !! "pets" = None
  | Fail _ => False
  end.
Proof.
  destruct (ParseSchemas.parsePaths _ _ Samples.petsV3 Samples.config
              initialState) as [[] st'|e] eqn:run;
    [|vm_compute in run; discriminate run].
  split.
  - exact (proj1 (parsePaths_groups ChangeCase.pascalCase
                    LiteralRegExp.regExpReplace Samples.petsV3
                    Samples.config st' "main") run).
  - exact (proj1 (parsePaths_groups ChangeCase.pascalCase
                    LiteralRegExp.regExpReplace Samples.petsV3
                    Samples.config st' "pets") run).
Defined.

End GroupFacts.

(** ** Types given by hand *)

Module ManualTypeFacts.
Import ParseSchemasV2.

Lemma getField_setField (k : TypeField) (t : string) (item : RequestItem) :
  getField k (setField k t item) = t.
Proof. by destruct k. Qed.

Lemma getField_setField_other (k k' : TypeField) (t : string)
    (item : RequestItem) :
  k <> k' -> getField k (setField k' t item) = getField k item.
Proof. by destruct k, k'. Qed.

Lemma settle_nil item pending :
  settle [] item pending
  = List.fold_left (fun item '(k, v) => setField k (manualResolve v) item)
      pending item.
Proof. reflexivity. Qed.

Lemma settle_given k v manualTypes item pending :
  settle ((k, ManualGiven v) :: manualTypes) item pending
  = settle manualTypes
      (if manualTruthy v then setField k (manualResolve v) item else item)
      pending.
Proof. unfold settle. cbn [fold_left]. by destruct (manualTruthy v). Qed.

Lemma settle_function k f manualTypes item pending :
  settle ((k, ManualFunction f) :: manualTypes) item pending
  = settle manualTypes item (pending ++ [(k, f item)]).
Proof. reflexivity. Qed.

Lemma settle_other (k : TypeField) manualTypes :
  forall item pending,
    k ∉ List.map fst manualTypes -> k ∉ List.map fst pending ->
    getField k (settle manualTypes item pending) = getField k item.
Proof.
  induction manualTypes as [|[k' t] manualTypes IH]; intros item pending Hm Hp.
  - rewrite settle_nil. revert item.
    induction pending as [|[k' v] pending IHp]; intros item; [reflexivity|].
    cbn [List.map fst] in Hp. apply not_elem_of_cons in Hp as [ne Hp].
    cbn [fold_left]. rewrite IHp by exact Hp.
    by apply getField_setField_other.
  - cbn [List.map fst] in Hm. apply not_elem_of_cons in Hm as [ne Hm].
    destruct t as [v|f].
    + rewrite settle_given, IH by done.
      destruct (manualTruthy v); [|reflexivity].
      by apply getField_setField_other.
    + rewrite settle_function, IH; [reflexivity | done |].
      rewrite map_app. cbn. rewrite elem_of_app, list_elem_of_singleton.
      intros [?|?]; [by apply Hp | done].
Qed.

Lemma settle_entry (k : TypeField) (v : ManualValue) manualTypes :
  forall item pending,
    NoDup (List.map fst manualTypes) ->
    (k, ManualGiven v) ∈ manualTypes ->
    k ∉ List.map fst pending ->
    getField k (settle manualTypes item pending)
    = if manualTruthy v then manualResolve v else getField k item.
Proof.
  induction manualTypes as [|[k' t] manualTypes IH];
    intros item pending Hnodup Hin Hp; [by apply elem_of_nil in Hin|].
  cbn [List.map fst] in Hnodup. apply NoDup_cons in Hnodup as [Hk' Hnodup].
  apply elem_of_cons in Hin as [[= <- <-]|Hin].
  - rewrite settle_given, settle_other by done.
    destruct (manualTruthy v); [apply getField_setField | reflexivity].
  - assert (k <> k') as ne.
    { intros <-. apply Hk'.
      change (List.map fst manualTypes) with (fst <$> manualTypes).
      apply list_elem_of_fmap. by exists (k, ManualGiven v). }
    destruct t as [v'|f].
    + rewrite settle_given, IH by done.
      destruct (manualTruthy v); [reflexivity|].
      destruct (manualTruthy v'); [|reflexivity].
      by apply getField_setField_other.
    + rewrite settle_function, IH; [reflexivity | done | done |].
      rewrite map_app. cbn. rewrite elem_of_app, list_elem_of_singleton.
      intros [?|?]; [by apply Hp | done].
Qed.

(** X17. A value that [manualTypes] gives for a field of a request
    item replaces the type the translator computed, a string as it
    is and a data value by the type [jsonToType] infers from it; a
    falsy value ([''], [null]) leaves the computed type, and a field
    that [manualTypes] does not name keeps its type whatever the
    other entries are. *)
Theorem mergeManualTypes_given (item : RequestItem)
    (manualTypes : list (TypeField * ManualType)) (k : TypeField) :
  NoDup (List.map fst manualTypes) ->
  (forall v, (k, ManualGiven v) ∈ manualTypes ->
     getField k (mergeManualTypes item manualTypes)
     = if manualTruthy v then manualResolve v else getField k item) /\
  (k ∉ List.map fst manualTypes ->
   getField k (mergeManualTypes item manualTypes) = getField k item).
Proof.
  intros Hnodup.
  change (mergeManualTypes item manualTypes)
    with (settle manualTypes item []).
  split.
  - intros v Hin. apply settle_entry; [done | done | apply not_elem_of_nil].
  - intros Hk. apply settle_other; [done | apply not_elem_of_nil].
Qed.

Local Ltac not_among :=
  let H := fresh in
  intros H;
  repeat (apply elem_of_cons in H as [H|H]; [discriminate H|]);
  by apply elem_of_nil in H.

Lemma mergeManualTypes_given_witness :
  getField ResponseType (mergeManualTypes Cases.item Cases.manual) = "Blob" /\
  getField RequestQueryType (mergeManualTypes Cases.item Cases.manual) = "" /\
  getField RequestBodyType (mergeManualTypes Cases.item Cases.manual)
  = "{id: number;}" /\
  getField RequestPathType (mergeManualTypes Cases.item Cases.manual) = "".
Proof.
  assert (NoDup (List.map fst Cases.manual)) as nodup.
  { unfold Cases.manual. cbn [List.map fst].
    repeat (apply NoDup_cons_2; [not_among|]). apply NoDup_nil_2. }
  split; [|split; [|split]].
  - apply (proj1 (mergeManualTypes_given Cases.item Cases.manual
                    ResponseType nodup) (ManualString "Blob")).
    by left.
  - apply (proj1 (mergeManualTypes_given Cases.item Cases.manual
                    RequestQueryType nodup) (ManualString "")).
    right. by left.
  - apply (proj1 (mergeManualTypes_given Cases.item Cases.manual
                    RequestBodyType nodup)
             (ManualData (JObject [("id", JNumber 1)]))).
    right. right. by left.
  - apply (proj2 (mergeManualTypes_given Cases.item Cases.manual
                    RequestPathType nodup)).
    unfold Cases.manual. cbn [List.map fst]. not_among.
Defined.

End ManualTypeFacts.

(** ** The URL of a request *)

Module UrlFacts.
Import Generator.

Lemma replacePathParams_without_brace (fuel : nat) (s : string) :
  JS.occurs "{" s = false -> replacePathParams fuel s = s.
Proof.
  revert s. induction fuel as [|fuel IH]; intros s Hs; [reflexivity|].
  destruct s as [|c s]; [reflexivity|].
  cbn [JS.occurs] in Hs. apply orb_false_elim in Hs as [Hc Hs].
  cbn [replacePathParams]. by rewrite Hc, IH.
Qed.

Lemma stripPrefix_append (p s : string) : JS.stripPrefix p (p +:+ s) = Some s.
Proof.
  induction p as [|c p IH]; [reflexivity|].
  rewrite StringFacts.append_cons. cbn [JS.stripPrefix].
  by rewrite Ascii.eqb_refl.
Qed.

(** X18. On a URL without [{], [formatURL] puts [urlPrefix] in front
    and takes [removeUrlPrefix] away when the URL starts with it; a
    URL that does not start with it keeps all its text, also where
    the prefix occurs further on. *)
Theorem formatURL_prefixes (docOptions : DocConfig) :
  (forall prefix rest : string,
      cfg_removeUrlPrefix docOptions = Some prefix ->
      JS.occurs "{" rest = false ->
      formatURL docOptions (prefix +:+ rest)
      = JS.orOpt (cfg_urlPrefix docOptions) "" +:+ rest) /\
  (forall prefix url : string,
      cfg_removeUrlPrefix docOptions = Some prefix ->
      JS.startsWith prefix url = false ->
      JS.occurs "{" url = false ->
      formatURL docOptions url
      = JS.orOpt (cfg_urlPrefix docOptions) "" +:+ url) /\
  (forall url : string,
      cfg_removeUrlPrefix docOptions = None ->
      JS.occurs "{" url = false ->
      formatURL docOptions url
      = JS.orOpt (cfg_urlPrefix docOptions) "" +:+ url).
Proof.
  split; [|split].
  - intros prefix rest Hp Hr. unfold formatURL. rewrite Hp.
    destruct prefix as [|c prefix].
    + cbn [JS.truthy]. change ("" +:+ rest) with rest.
      by rewrite replacePathParams_without_brace.
    + cbn [JS.truthy]. rewrite stripPrefix_append.
      by rewrite replacePathParams_without_brace.
  - intros prefix url Hp Hs Hu. unfold formatURL. rewrite Hp.
    unfold JS.startsWith in Hs.
    destruct (JS.stripPrefix prefix url); [discriminate|].
    destruct (JS.truthy prefix); by rewrite replacePathParams_without_brace.
  - intros url Hp Hu. unfold formatURL. rewrite Hp.
    by rewrite replacePathParams_without_brace.
Qed.

Lemma formatURL_prefixes_witness :
  formatURL Cases.configPrefixes "/api/users" = "/v2/users" /\
  formatURL Cases.configPrefixes "/users/api" = "/v2/users/api" /\
  formatURL Samples.config "/users" = "/users".
Proof.
  destruct (formatURL_prefixes Cases.configPrefixes) as (starts & other & _).
  destruct (formatURL_prefixes Samples.config) as (_ & _ & none).
  split; [|split].
  - apply (starts "/api" "/users"); reflexivity.
  - apply (other "/api" "/users/api"); reflexivity.
  - apply (none "/users"); reflexivity.
Defined.

Lemma lastCloseOnLine_none (s : string) (i : nat) :
  JS.occurs "}" s = false -> lastCloseOnLine s i = None.
Proof.
  revert i. induction s as [|c s IH]; intros i Hs; [reflexivity|].
  cbn [JS.occurs] in Hs. apply orb_false_elim in Hs as [Hc Hs].
  cbn [lastCloseOnLine]. rewrite (IH _ Hs), Hc.
  by destruct (isLineTerminator c).
Qed.

(** The last [}] of the line is the one after [mid]. *)
Lemma lastCloseOnLine_found (mid post : string) (i : nat) :
  singleLine mid = true -> JS.occurs "}" post = false ->
  1 <= i + String.length mid ->
  lastCloseOnLine (mid +:+ String "}" post) i = Some (i + String.length mid).
Proof.
  revert i. induction mid as [|c mid IH]; intros i Hm Hp Hi.
  - change ("" +:+ String "}" post) with (String "}" post).
    cbn [lastCloseOnLine String.length] in *.
    rewrite (lastCloseOnLine_none _ _ Hp). cbn.
    rewrite Nat.add_0_r in *. destruct i; [lia | reflexivity].
  - rewrite StringFacts.append_cons. cbn [lastCloseOnLine String.length].
    unfold singleLine in Hm. cbn [Utils.allChars] in Hm.
    apply andb_true_iff in Hm as [Hc Hm]. apply negb_true_iff in Hc.
    rewrite Hc, (IH (S i) Hm Hp) by lia. f_equal. lia.
Qed.

Lemma takeString_append (a b : string) :
  takeString (String.length a) (a +:+ b) = a.
Proof.
  induction a as [|c a IH]; [by destruct b|].
  rewrite StringFacts.append_cons. cbn [String.length takeString].
  by rewrite IH.
Qed.

Lemma dropString_append (a b : string) :
  dropString (String.length a) (a +:+ b) = b.
Proof.
  induction a as [|c a IH]; [by destruct b|].
  rewrite StringFacts.append_cons. cbn [String.length dropString].
  exact IH.
Qed.

Lemma replacePathParams_first_brace (fuel : nat) (pre mid post : string) :
  String.length pre < fuel ->
  JS.occurs "{" pre = false -> mid <> "" -> singleLine mid = true ->
  JS.occurs "}" post = false -> JS.occurs "{" post = false ->
  replacePathParams fuel (pre +:+ "{" +:+ mid +:+ "}" +:+ post)
  = pre +:+ "${options.pathParams." +:+ mid +:+ "}" +:+ post.
Proof.
  intros Hf Hpre Hmid Hline Hclose Hopen.
  revert fuel Hf. induction pre as [|c pre IH]; intros fuel Hf.
  - destruct fuel as [|fuel]; [cbn in Hf; lia|].
    change ("" +:+ "{" +:+ mid +:+ "}" +:+ post)
      with (String "{" (mid +:+ String "}" post)).
    cbn [replacePathParams]. rewrite Ascii.eqb_refl.
    rewrite (lastCloseOnLine_found mid post 0 Hline Hclose)
      by (destruct mid; [done | cbn; lia]).
    cbn [Nat.add].
    assert (mid +:+ String "}" post = (mid +:+ "}") +:+ post) as E
      by (by rewrite StringFacts.append_assoc).
    assert (S (String.length mid) = String.length (mid +:+ "}")) as L
      by (rewrite StringFacts.length_append; cbn; lia).
    rewrite E, L, takeString_append, dropString_append.
    rewrite replacePathParams_without_brace by exact Hopen.
    change ("" +:+ "${options.pathParams." +:+ mid +:+ "}" +:+ post)
      with ("${options.pathParams." +:+ mid +:+ "}" +:+ post).
    by rewrite !StringFacts.append_assoc.
  - cbn [JS.occurs] in Hpre. apply orb_false_elim in Hpre as [Hc Hpre].
    destruct fuel as [|fuel]; [cbn in Hf; lia|].
    rewrite !StringFacts.append_cons. cbn [replacePathParams].
    rewrite Hc. f_equal. apply IH; [exact Hpre|]. cbn in Hf. lia.
Qed.

(** X19. [formatURL] rewrites a path parameter from the first [{] of
    the URL to its last [}]: [{petId}] becomes
    [${options.pathParams.petId}]; in a URL with two parameters all
    that lies between the first [{] and the last [}] is taken for
    one name, so the second parameter keeps its braces. *)
Theorem formatURL_path_parameter (docOptions : DocConfig)
    (pre mid post : string) :
  cfg_removeUrlPrefix docOptions = None ->
  JS.occurs "{" pre = false -> mid <> "" -> singleLine mid = true ->
  JS.occurs "}" post = false -> JS.occurs "{" post = false ->
  formatURL docOptions (pre +:+ "{" +:+ mid +:+ "}" +:+ post)
  = JS.orOpt (cfg_urlPrefix docOptions) ""
    +:+ pre +:+ "${options.pathParams." +:+ mid +:+ "}" +:+ post.
Proof.
  intros Hremove Hpre Hmid Hline Hclose Hopen.
  unfold formatURL. rewrite Hremove. f_equal.
  apply replacePathParams_first_brace; try done.
  rewrite !StringFacts.length_append. cbn. lia.
Qed.

Lemma formatURL_path_parameter_witness :
  formatURL Samples.config "/pets/{petId}"
  = "/pets/${options.pathParams.petId}" /\
  formatURL Samples.config "/a/{x}/b/{y}"
  = "/a/${options.pathParams.x}/b/{y}".
Proof.
  split.
  - apply (formatURL_path_parameter Samples.config "/pets/" "petId" "");
      done.
  - apply (formatURL_path_parameter Samples.config "/a/" "x}/b/{y" "");
      done.
Defined.

End UrlFacts.

(** ** The templates of the generator *)

Module TemplateFacts.
Import Generator.

(** X20. A generated request function names its response type once:
    with [customResponseReturnPath] set to a non-empty path the type
    is the return type of the function and the call takes no type
    argument, otherwise the call takes the type argument and the
    function has no return type. *)
Theorem createReturnType_one_place (pascalCase : string -> string)
    (docOptions : DocConfig) (tag : string) (requestItem : RequestItem) :
  let returnType := createReturnType pascalCase docOptions tag requestItem in
  let ref := apiRefPrefix pascalCase docOptions tag requestItem
             +:+ TYPE_NAME_SUFFIXES.res in
  if JS.truthyOpt (cfg_customResponseReturnPath docOptions)
  then inApply returnType = "" /\
       exists pathRef, inReturn returnType
                       = ": Promise<" +:+ ref +:+ pathRef +:+ ">"
  else inApply returnType = "<" +:+ ref +:+ ">" /\ inReturn returnType = "".
Proof.
  cbn zeta. unfold createReturnType, JS.truthyOpt, JS.orOpt.
  destruct (cfg_customResponseReturnPath docOptions) as [path|];
    cbn [inApply inReturn]; [|by split].
  unfold JS.or. destruct (JS.truthy path) eqn:E.
  - rewrite E. split; [reflexivity|]. by eexists.
  - cbn [JS.truthy]. by split.
Qed.

(** X21. A type expression that is the name of a registered reference
    is declared as an alias of the qualified name
    [API.<scope>.<name>], never as an interface. *)
Theorem createTypeTemplate_registered (pascalCase : string -> string)
    (docOptions : DocConfig) (ps : State) (name type : string) :
  is_Some (refs ps !! type) ->
  createTypeTemplate pascalCase docOptions ps name type false
  = String "010" "type " +:+ name +:+ " = "
    +:+ ("API." +:+ scopeName pascalCase docOptions +:+ "." +:+ type)
    +:+ String "010" "".
Proof.
  intros [b Hb]. unfold createTypeTemplate. rewrite Hb. cbn [isSome].
  reflexivity.
Qed.

Lemma createTypeTemplate_registered_witness :
  createTypeTemplate ChangeCase.pascalCase Samples.config
    (setRef "Pet" initialState) "GetPetResponse" "Pet" false
  = String "010" "type GetPetResponse = API.Demo.Pet" +:+ String "010" "".
Proof.
  apply (createTypeTemplate_registered ChangeCase.pascalCase Samples.config
           (setRef "Pet" initialState) "GetPetResponse" "Pet").
  by eexists.
Defined.

Lemma stripPrefix_Some (p s rest : string) :
  JS.stripPrefix p s = Some rest -> s = p +:+ rest.
Proof.
  revert s. induction p as [|c p IH]; intros s; [by intros [= ->]|].
  destruct s as [|d s]; [discriminate|]. cbn [JS.stripPrefix].
  destruct (Ascii.eqb_spec c d) as [<-|]; [|discriminate].
  intros H. rewrite StringFacts.append_cons. f_equal. by apply IH.
Qed.

(** X22. Of the keys of a path item that [parsePaths] retains, the
    generator passes a request body for [post] and [put] written in
    lower case only: [parsePaths] compares the key without regard to
    case, the generator compares it as it is. *)
Theorem isPostOrPut_lower_case (key : string) :
  Utils.inHttpMethods (JS.toUpperCase key) = true ->
  (isPostOrPut key = true <-> key = "post" \/ key = "put").
Proof.
  intros Hm. split; [|by intros [-> | ->]].
  unfold isPostOrPut, JS.startsWith. intros Hp.
  apply orb_true_iff in Hp as [Hp|Hp]; [left | right].
  - destruct (JS.stripPrefix "post" key) as [rest|] eqn:E; [|discriminate].
    apply stripPrefix_Some in E as ->.
    destruct rest as [|e rest]; [reflexivity|].
    vm_compute in Hm. discriminate Hm.
  - destruct (JS.stripPrefix "put" key) as [rest|] eqn:E; [|discriminate].
    apply stripPrefix_Some in E as ->.
    destruct rest as [|e rest]; [reflexivity|].
    vm_compute in Hm. discriminate Hm.
Qed.

Lemma isPostOrPut_lower_case_witness :
  isPostOrPut "put" = true /\ isPostOrPut "POST" = false.
Proof.
  split.
  - apply (isPostOrPut_lower_case "put"); [reflexivity | by right].
  - destruct (isPostOrPut "POST") eqn:E; [|reflexivity].
    apply (isPostOrPut_lower_case "POST") in E; [|reflexivity].
    by destruct E.
Defined.

End TemplateFacts.

(** ** Keys, comments and inferred types *)

Module KeyFacts.

Lemma replaceNewlines_no_newline (s : string) :
  JS.occurs "010" (JS.replaceNewlines s) = false.
Proof.
  apply InheritedFacts.occurs_mapChars. intros d.
  destruct (Ascii.eqb d "010") eqn:E; [reflexivity | exact E].
Qed.

(** X23. The comment [joinComment] hands back stays on its line: no
    line feed is left in it, so the property that follows starts on a
    line of its own; it is empty exactly for a comment that is absent
    or empty. *)
Theorem joinComment_single_line (comment : option string) :
  JS.occurs "010" (Utils.joinComment comment) = false /\
  (Utils.joinComment comment = "" <-> JS.truthyOpt comment = false).
Proof.
  destruct comment as [c|]; [|by split].
  unfold Utils.joinComment. cbn [JS.truthyOpt].
  destruct (JS.truthy c) eqn:E; [|by split].
  split; [|split; discriminate].
  change (" // " +:+ JS.replaceNewlines c)
    with (String " " (String "/" (String "/" (String " "
            (JS.replaceNewlines c))))).
  cbn [JS.occurs]. by rewrite replaceNewlines_no_newline.
Qed.

Lemma allChars_occurs (p : ascii -> bool) (d : ascii) (s : string) :
  JS.occurs d s = true -> p d = false -> Utils.allChars p s = false.
Proof.
  intros Ho Hp. induction s as [|c s IH]; [discriminate|].
  cbn [JS.occurs] in Ho. cbn [Utils.allChars].
  destruct (Ascii.eqb_spec c d) as [->|ne].
  - by rewrite Hp.
  - rewrite IH by exact Ho. apply andb_false_r.
Qed.

(** X24. A key is quoted as soon as its first character is not a
    letter, [$] or [_], or a later character is not a letter, a digit
    or [_]: [$] is accepted in the first place only, and a hyphen, a
    dot or a space nowhere. *)
Theorem toSafePropKey_other_character_quoted (c : ascii) (rest : string) :
  (Utils.isIdentStart c = false \/
   exists d, JS.occurs d rest = true /\ Utils.isWordChar d = false) ->
  Utils.toSafePropKey (String c rest) = "'" +:+ String c rest +:+ "'".
Proof.
  intros H. unfold Utils.toSafePropKey, Utils.safeKeyPattern.
  destruct H as [-> | (d & Ho & Hw)]; [reflexivity|].
  rewrite (allChars_occurs _ d rest Ho Hw). by rewrite !andb_false_r.
Qed.

Lemma toSafePropKey_other_character_quoted_witness :
  Utils.toSafePropKey "a$b" = "'a$b'" /\
  Utils.toSafePropKey "user-id" = "'user-id'" /\
  Utils.toSafePropKey "1st" = "'1st'".
Proof.
  split; [|split].
  - apply (toSafePropKey_other_character_quoted "a" "$b").
    right. exists "$"%char. by split.
  - apply (toSafePropKey_other_character_quoted "u" "ser-id").
    right. exists "-"%char. by split.
  - apply (toSafePropKey_other_character_quoted "1" "st"). by left.
Defined.

End KeyFacts.

Module InferenceFacts.
Import RequestResponseType.

(** X25. [jsonToType] never hands back the empty string: whatever the
    value, the type it names is a non-empty text. *)
Theorem jsonToType_never_empty (data : Json) :
  JS.truthy (jsonToType data) = true.
Proof.
  destruct data as [| |b|n|s|elems|members]; cbn [jsonToType truthy];
    try reflexivity.
  - by destruct b.
  - by destruct (negb _).
  - by destruct (JS.truthy s).
  - destruct elems as [|x r]; [reflexivity|].
    destruct (jsonToType x); reflexivity.
  - by destruct members.
Qed.

End InferenceFacts.

(** ** The file of a group *)

Module GroupFileFacts.
Import Generator.

Lemma concat_empty_snoc (l : list string) (x : string) :
  String.concat "" (l ++ [x]) = String.concat "" l +:+ x.
Proof.
  rewrite RegistryFacts.concat_empty_app. cbn [String.concat].
  reflexivity.
Qed.



End GroupFileFacts.


(** ** Where the comment of a schema goes *)

Module CommentFacts.
Import MonadFacts TextFacts.

Lemma refSchema_declares (pascalCase : string -> string)
    (schemas : option (gmap string Schema))
    (parseSchemaItemWith : (string -> M string) -> Schema -> M string)
    (ref t : string) (schemaItem : Schema) (st st' : State) :
  schemaAt schemas (Common.getRefName ref) = Some schemaItem ->
  refSeen st (Common.formatSchemaName pascalCase (Common.getRefName ref))
  = false ->
  Common.parseRefFuel pascalCase schemas parseSchemaItemWith
    (Common.fuelFor schemas) ref st = Ok t st' ->
  t = Common.formatSchemaName pascalCase (Common.getRefName ref) /\
  Placed schemaItem t st'.
Proof.
  intros Hin fresh run.
  split; [by apply (RegistryFacts.parseRefFuel_name _ _ _ _ _ _ _ _ run)|].
  unfold Common.fuelFor in run. cbn [Common.parseRefFuel] in run.
  apply bind_Ok in run as ([] & st1 & run & [= <- <-]).
  unfold Common.refSchemaWith in run. rewrite Hin in run.
  rewrite bind_run in run. cbn [get] in run. rewrite fresh in run.
  apply bind_Ok in run as ([] & sa & [= <-] & run).
  apply bind_Ok in run as (schemaType & st2 & _ & run).
  apply bind_Ok in run as ([] & sb & [= <-] & run).
  exists schemaType.
  destruct (Common.isInterface schemaItem); injection run as <-.
  - cbn [appendInterface appendComment interfacesTemplate declarationText].
    rewrite StringFacts.append_assoc. apply endsWith_append.
  - cbn [appendType appendComment interfacesTemplate typesTemplate
         declarationText].
    split; apply endsWith_append.
Qed.

(** X26. When [refSchema] declares a schema, the comment of the
    schema goes to [interfacesTemplate] whatever the schema is: for
    a schema of the type [object] the comment and the interface end
    [interfacesTemplate] together; for any other schema the type
    alias ends [typesTemplate] while its comment ends
    [interfacesTemplate], apart from it. *)
Theorem refSchema_comment_placement (pascalCase : string -> string)
    (doc : Document) (config : DocConfig) (ref t : string)
    (schemaItem : Schema) (st st' : State) :
  refSeen st (Common.formatSchemaName pascalCase (Common.getRefName ref))
  = false ->
  (schemaAt (doc_schemas doc) (Common.getRefName ref) = Some schemaItem ->
   ParseSchemas.parseRef pascalCase doc config ref st = Ok t st' ->
   Placed schemaItem t st') /\
  (schemaAt (doc_definitions doc) (Common.getRefName ref)
   = Some schemaItem ->
   ParseSchemasV2.parseRef pascalCase doc config ref st = Ok t st' ->
   Placed schemaItem t st').
Proof.
  intros fresh. split; intros Hin run.
  - by destruct (refSchema_declares pascalCase (doc_schemas doc)
                   (ParseSchemas.parseSchemaItemWith config)
                   ref t schemaItem st st' Hin fresh run).
  - by destruct (refSchema_declares pascalCase (doc_definitions doc)
                   (ParseSchemasV2.parseSchemaItemWith config)
                   ref t schemaItem st st' Hin fresh run).
Qed.

Lemma refSchema_comment_placement_witness :
  match ParseSchemas.parseRef ChangeCase.pascalCase Cases.orders
          Samples.config "#/components/schemas/Status" initialState with
  | Ok t st' =>
      typesTemplate st'
      = String "010" "type Status = 'open' | 'done'" /\
      interfacesTemplate st' = String "010" "/** state of an order */" /\
      Placed Cases.status t st'
  | Fail _ => False
  end.
Proof.
  destruct (ParseSchemas.parseRef _ Cases.orders Samples.config _
              initialState) as [t st'|e] eqn:run;
    [|vm_compute in run; discriminate run].
  split; [vm_compute in run; by injection run as _ <-|].
  split; [vm_compute in run; by injection run as _ <-|].
  exact (proj1 (refSchema_comment_placement ChangeCase.pascalCase
                  Cases.orders Samples.config
                  "#/components/schemas/Status" t Cases.status
                  initialState st' eq_refl) eq_refl run).
Defined.

End CommentFacts.

(** ** An empty include list *)

Module EmptyIncludeFacts.
Import MonadFacts.

Lemma foldM_unchanged {A : Type} (f : unit -> A -> M unit) (l : list A)
    (st : State) :
  (forall x, f tt x st = Ok tt st) -> foldM f tt l st = Ok tt st.
Proof.
  intros skip. induction l as [|x l IH]; [reflexivity|].
  by rewrite foldM_cons, bind_run, skip.
Qed.

Lemma validate_empty_include (config : DocConfig) (tag : string) :
  cfg_include config = Some [] ->
  TagValidator.validate (TagValidator.new config) tag = false.
Proof.
  intros Hinclude.
  unfold TagValidator.validate, TagValidator.new, TagValidator.validateOver,
    TagValidator.newOver.
  cbn [TagValidator._include]. by rewrite Hinclude.
Qed.

(** X28. With [include: []] in the configuration [parsePaths] keeps
    nothing: whatever the document, both translators leave the
    instance as it was, with no group, no declaration and no
    warning. *)
Theorem parsePaths_empty_include (pascalCase : string -> string)
    (regExpReplace : string -> string -> option string)
    (doc : Document) (config : DocConfig) (st : State) :
  cfg_include config = Some [] ->
  ParseSchemas.parsePaths pascalCase regExpReplace doc config st = Ok tt st /\
  ParseSchemasV2.parsePaths pascalCase doc config st = Ok tt st /\
  Generator.parsePaths pascalCase regExpReplace config doc st = Ok tt st.
Proof.
  intros Hinclude.
  assert (ParseSchemas.parsePaths pascalCase regExpReplace doc config st
          = Ok tt st) as H3.
  { unfold ParseSchemas.parsePaths. apply foldM_unchanged.
    intros [url pathItem]. apply foldM_unchanged.
    intros [key operationItem]. unfold ParseSchemas.parseOperation.
    destruct (negb (Utils.inHttpMethods _)); [reflexivity|].
    unfold ParseSchemas._tagValidator.
    by rewrite validate_empty_include. }
  assert (ParseSchemasV2.parsePaths pascalCase doc config st = Ok tt st)
    as H2.
  { unfold ParseSchemasV2.parsePaths. apply foldM_unchanged.
    intros [url pathItem]. apply foldM_unchanged.
    intros [key operationItem]. unfold ParseSchemasV2.parseOperation.
    destruct (negb (Utils.inHttpMethods _)); [reflexivity|].
    unfold ParseSchemasV2._tagValidator.
    by rewrite validate_empty_include. }
  split; [exact H3|]. split; [exact H2|].
  unfold Generator.parsePaths. by destruct (isSome _).
Qed.

Lemma parsePaths_empty_include_witness :
  Generator.parsePaths ChangeCase.pascalCase LiteralRegExp.regExpReplace
    Samples.configEmptyInclude Samples.petsV3 initialState
  = Ok tt initialState.
Proof.
  apply (parsePaths_empty_include ChangeCase.pascalCase
           LiteralRegExp.regExpReplace Samples.petsV3
           Samples.configEmptyInclude initialState).
  reflexivity.
Defined.

End EmptyIncludeFacts.

(** ** Body parameters of other names *)

Module NamedBodyFacts.
Import MonadFacts FormDataFacts WholeBodyFacts.

(** X29. In [ParseSchemasV2] only form-data fields and a body
    parameter named [root] reach the body type: an operation whose
    other parameters include a body parameter of another name (as
    [body]) gets the empty body type and the form-data flag off,
    though the schema of that parameter is translated. *)
Theorem parseParamsSchema_named_body_ignored
    (pascalCase : string -> string) (doc : Document) (config : DocConfig)
    (operationItem : Operation)
    (paramsSchema : ParseSchemasV2.ParamsSchema) (st st' : State) :
  Forall LeavesBody (default [] (op_parameters operationItem)) ->
  ParseSchemasV2.parseParamsSchema pascalCase doc config operationItem st
  = Ok paramsSchema st' ->
  ParseSchemasV2.ps_body paramsSchema = "" /\
  ParseSchemasV2.ps_isFormDataBody paramsSchema = false.
Proof.
  intros leaves run. unfold ParseSchemasV2.parseParamsSchema in run.
  apply bind_Ok in run as (b & st1 & run & [= <- _]).
  pose proof (parseParams_leave_body _ _ _ _ leaves _ _ _ _ run) as body.
  pose proof (parseParams_flag _ _ _ _ leaves _ _ _ _ run) as flag.
  cbn [ParseSchemasV2.body ParseSchemasV2.isFormDataBody] in body, flag.
  unfold ParseSchemasV2.closeBuffers.
  cbn [ParseSchemasV2.ps_body ParseSchemasV2.ps_isFormDataBody].
  by rewrite flag, body.
Qed.

Lemma parseParamsSchema_named_body_ignored_witness :
  match ParseSchemasV2.parseParamsSchema ChangeCase.pascalCase
          Samples.usersV2 Samples.config Cases.create initialState with
  | Ok paramsSchema _ =>
      ParseSchemasV2.ps_body paramsSchema = "" /\
      ParseSchemasV2.ps_isFormDataBody paramsSchema = false
  | Fail _ => False
  end.
Proof.
  destruct (ParseSchemasV2.parseParamsSchema _ Samples.usersV2
              Samples.config Cases.create initialState)
    as [paramsSchema st'|e] eqn:run;
    [|vm_compute in run; discriminate run].
  apply (parseParamsSchema_named_body_ignored ChangeCase.pascalCase
           Samples.usersV2 Samples.config Cases.create paramsSchema
           initialState st'); [|exact run].
  constructor; [|constructor]. right. split; [discriminate|].
  intros [_ ?]. discriminate.
Defined.

End NamedBodyFacts.
